(** * mlib [vector]: a growable array of [long] with a small inline buffer

    Shallow embedding of [src/vector.c] (version 1.3) together with the
    properties of its storage management that the specification states.

    The C code manipulates [struct vector_s] objects through pointers, and
    [mc_vector_swap] exchanges buffer pointers between two such objects, so
    the embedding keeps an explicit store: every [struct vector_s] and every
    array of [long] is an object of the store and is designated by a pointer.
    A run of a C function is a partial state transformer on that store; it is
    undefined where the C program has undefined behaviour (null or dangling
    dereference, access outside of an object). *)

From Stdlib Require Import ZArith Lia Bool.
From stdpp Require Import base option list numbers strings.

Local Open Scope Z_scope.

(** ** Scalars *)

(** [size_t] is taken to be 64 bits wide and [long] 8 bytes (LP64). *)
Definition SIZE_MAX : Z := 2 ^ 64 - 1.
Definition sizeof_long : Z := 8.
Definition LONG_MAX : Z := 2 ^ 63 - 1.
Definition LONG_MIN : Z := - 2 ^ 63.

(** Unsigned arithmetic on [size_t] wraps around. *)
Definition size_wrap (z : Z) : Z := z mod (SIZE_MAX + 1).

(** Conversion of an out-of-range integer to [short] or [int] reduces it
    modulo the width of the target type. *)
Definition to_short (z : Z) : Z := (z + 2 ^ 15) mod 2 ^ 16 - 2 ^ 15.
Definition to_int (z : Z) : Z := (z + 2 ^ 31) mod 2 ^ 32 - 2 ^ 31.

(** [#define MC_VECTOR_BUFSIZE 10] *)
Definition MC_VECTOR_BUFSIZE : Z := 10.

(** The values of [errno] the library sets. *)
Inductive errno_t := EINVAL | EFAULT | ENOBUFS | ENOMEM.

#[global] Instance errno_eq_dec : EqDecision errno_t.
Proof. solve_decision. Defined.

(** ** The store *)

(** A [long] object holds a value or is indeterminate (never written since
    its allocation). *)
Abbreviation cell := (option Z).

(** A pointer to the first element of an array of [long]: the null pointer,
    the [stack_buf] member of the [struct vector_s] at address [v], or the
    separate array number [b] (obtained from [malloc], or owned by the
    caller). *)
Inductive ptr := NULL | Inline (v : nat) | Block (b : nat).

#[global] Instance ptr_eq_dec : EqDecision ptr.
Proof. solve_decision. Defined.

(** [struct vector_s] *)
Record vector_s := Vector_s {
  count : Z;                (* number of elements currently stored *)
  capacity : Z;             (* total capacity *)
  stack_buf : list cell;    (* long stack_buf[MC_VECTOR_BUFSIZE] *)
  heap_buf : ptr;           (* buffer allocated on the heap, if needed *)
  data : ptr                (* the buffer currently used *)
}.

(** [typedef struct vector_s * vector]: [None] is the null pointer. *)
Abbreviation vector := (option nat).

Record memory := Memory {
  vectors : list (option vector_s);       (* [None]: freed *)
  arrays : list (option (list cell));     (* [None]: freed *)
  errno : option errno_t;                 (* [None]: not set by the library *)
  allocator : list bool                   (* outcome of the next allocation
                                             requests; success once exhausted *)
}.

Definition set_vectors (f : list (option vector_s) -> list (option vector_s))
    (m : memory) : memory :=
  Memory (f (vectors m)) (arrays m) (errno m) (allocator m).
Definition set_arrays (f : list (option (list cell)) -> list (option (list cell)))
    (m : memory) : memory :=
  Memory (vectors m) (f (arrays m)) (errno m) (allocator m).
Definition set_errno (e : errno_t) (m : memory) : memory :=
  Memory (vectors m) (arrays m) (Some e) (allocator m).
Definition set_allocator (a : list bool) (m : memory) : memory :=
  Memory (vectors m) (arrays m) (errno m) a.

Definition with_count (c : Z) (s : vector_s) : vector_s :=
  Vector_s c (capacity s) (stack_buf s) (heap_buf s) (data s).
Definition with_capacity (c : Z) (s : vector_s) : vector_s :=
  Vector_s (count s) c (stack_buf s) (heap_buf s) (data s).
Definition with_stack_buf (l : list cell) (s : vector_s) : vector_s :=
  Vector_s (count s) (capacity s) l (heap_buf s) (data s).
Definition with_heap_buf (p : ptr) (s : vector_s) : vector_s :=
  Vector_s (count s) (capacity s) (stack_buf s) p (data s).
Definition with_data (p : ptr) (s : vector_s) : vector_s :=
  Vector_s (count s) (capacity s) (stack_buf s) (heap_buf s) p.

(** The live [struct vector_s] at address [a]. *)
Definition struct_at (m : memory) (a : nat) : option vector_s :=
  mjoin (vectors m !! a).

(** The array a pointer designates, if it is live. *)
Definition array_at (m : memory) (p : ptr) : option (list cell) :=
  match p with
  | NULL => None
  | Inline v => stack_buf <$> struct_at m v
  | Block b => mjoin (arrays m !! b)
  end.

Definition put_array (p : ptr) (l : list cell) (m : memory) : memory :=
  match p with
  | NULL => m
  | Inline v =>
      match struct_at m v with
      | Some s => set_vectors <[v := Some (with_stack_buf l s)]> m
      | None => m
      end
  | Block b => set_arrays <[b := Some l]> m
  end.

(** ** Computations *)

(** A computation runs on a store and yields a result and a store; [None]
    stands for undefined behaviour. *)
Definition M (A : Type) : Type := memory -> option (A * memory).

#[global] Instance M_ret : MRet M := fun A a m => Some (a, m).
#[global] Instance M_bind : MBind M := fun A B k c m =>
  match c m with
  | Some (a, m') => k a m'
  | None => None
  end.

#[global] Instance M_fmap : FMap M := fun A B f c => x ← c; mret (f x).

Definition undefined {A} : M A := fun _ => None.
Definition get_mem : M memory := fun m => Some (m, m).
Definition modify (f : memory -> memory) : M unit := fun m => Some (tt, f m).

(** [errno = e] *)
Definition raise (e : errno_t) : M unit := modify (set_errno e).

(** [vec->f] as an rvalue; the null pointer and freed objects cannot be
    dereferenced. *)
Definition field {A} (f : vector_s -> A) (vec : vector) : M A := fun m =>
  match vec with
  | Some a => match struct_at m a with
              | Some s => Some (f s, m)
              | None => None
              end
  | None => None
  end.

(** [vec->f = x], given as the update of the structure. *)
Definition assign (vec : vector) (upd : vector_s -> vector_s) : M unit := fun m =>
  match vec with
  | Some a => match struct_at m a with
              | Some s => Some (tt, set_vectors <[a := Some (upd s)]> m)
              | None => None
              end
  | None => None
  end.

(** Number of [long] objects in [bytes] bytes. *)
Definition cells_of (bytes : Z) : Z := bytes / sizeof_long.

(** [n * sizeof (long)], computed in [size_t]. *)
Definition bytes_of (n : Z) : Z := size_wrap (n * sizeof_long).

(** The range [off, off + n) of an array, if it lies inside. *)
Definition read_range (l : list cell) (off n : Z) : option (list cell) :=
  if bool_decide (0 <= off /\ 0 <= n /\ off + n <= Z.of_nat (length l))
  then Some (take (Z.to_nat n) (drop (Z.to_nat off) l))
  else None.

Definition write_range (l : list cell) (off : Z) (new : list cell) : option (list cell) :=
  if bool_decide (0 <= off /\ off + Z.of_nat (length new) <= Z.of_nat (length l))
  then Some (take (Z.to_nat off) l ++ new ++ drop (Z.to_nat off + length new) l)
  else None.

(** [p[i]] as an rvalue. *)
Definition load (p : ptr) (i : Z) : M cell := fun m =>
  match array_at m p with
  | Some l =>
      if bool_decide (0 <= i) then
        match l !! Z.to_nat i with
        | Some c => Some (c, m)
        | None => None
        end
      else None
  | None => None
  end.

(** [p[i] = x] *)
Definition store (p : ptr) (i : Z) (x : cell) : M unit := fun m =>
  match array_at m p with
  | Some l =>
      if bool_decide (0 <= i < Z.of_nat (length l))
      then Some (tt, put_array p (<[Z.to_nat i := x]> l) m)
      else None
  | None => None
  end.

(** [memmove (dst + doff, src + soff, bytes)]: the source range is read as a
    whole, then written. *)
Definition memmove (dst : ptr) (doff : Z) (src : ptr) (soff : Z) (bytes : Z) : M unit :=
  fun m =>
  match array_at m src with
  | Some ls =>
      match read_range ls soff (cells_of bytes) with
      | Some new =>
          match array_at m dst with
          | Some ld =>
              match write_range ld doff new with
              | Some ld' => Some (tt, put_array dst ld' m)
              | None => None
              end
          | None => None
          end
      | None => None
      end
  | None => None
  end.

(** [memcpy (dst + doff, src + soff, bytes)]: as [memmove], except that the
    two ranges must not overlap. *)
Definition memcpy (dst : ptr) (doff : Z) (src : ptr) (soff : Z) (bytes : Z) : M unit :=
  if bool_decide (dst = src /\ 0 < bytes
                  /\ doff < soff + cells_of bytes
                  /\ soff < doff + cells_of bytes)
  then undefined
  else memmove dst doff src soff bytes.

(** The next allocation request succeeds. *)
Definition alloc_ok (m : memory) : bool := hd true (allocator m).

Definition next_alloc (m : memory) : memory := set_allocator (tl (allocator m)) m.

(** [malloc (bytes)] for an array of [long]: a fresh array of indeterminate
    content, or the null pointer. *)
Definition malloc (bytes : Z) : M ptr := fun m =>
  if alloc_ok m
  then Some (Block (length (arrays m)),
             set_arrays
               (fun l => l ++ [Some (replicate (Z.to_nat (cells_of bytes)) None)])
               (next_alloc m))
  else Some (NULL, next_alloc m).

(** [free (p)] *)
Definition free (p : ptr) : M unit := fun m =>
  match p with
  | NULL => Some (tt, m)
  | Block b =>
      match mjoin (arrays m !! b) with
      | Some _ => Some (tt, set_arrays <[b := None]> m)
      | None => None
      end
  | Inline _ => None
  end.

(** [realloc (p, bytes)]: on success the content is carried over to a fresh
    array, up to the lesser of the two sizes, and the old array is released;
    on failure the old array is left as it is. *)
Definition realloc (p : ptr) (bytes : Z) : M ptr := fun m =>
  match p with
  | NULL => malloc bytes m
  | Block b =>
      match mjoin (arrays m !! b) with
      | Some old =>
          if alloc_ok m
          then Some (Block (length (arrays m)),
                     set_arrays
                       (fun l => <[b := None]> l ++
                          [Some (take (Z.to_nat (cells_of bytes)) old ++
                                 replicate
                                   (Z.to_nat (cells_of bytes) - length old)
                                   None)])
                       (next_alloc m))
          else Some (NULL, next_alloc m)
      | None => None
      end
  | Inline _ => None
  end.

(** [malloc (sizeof (struct vector_s))]: the members of the fresh structure
    are indeterminate; [mc_vector_make] assigns [count], [capacity],
    [heap_buf] and [data] before anything reads them, so only the content of
    [stack_buf] is represented as such. *)
Definition malloc_struct : M vector := fun m =>
  if alloc_ok m
  then Some (Some (length (vectors m)),
             set_vectors
               (fun l => l ++ [Some (Vector_s 0 0
                                      (replicate (Z.to_nat MC_VECTOR_BUFSIZE) None)
                                      NULL NULL)])
               (next_alloc m))
  else Some (None, next_alloc m).

(** [free (vec)] for a structure. *)
Definition free_struct (vec : vector) : M unit := fun m =>
  match vec with
  | None => Some (tt, m)
  | Some a =>
      match struct_at m a with
      | Some _ => Some (tt, set_vectors <[a := None]> m)
      | None => None
      end
  end.

(** [for (size_t i = lo; i < hi; i++) body (i)] *)
Fixpoint for_loop_from (i : Z) (n : nat) (body : Z -> M unit) : M unit :=
  match n with
  | O => mret tt
  | S n' => body i;; for_loop_from (i + 1) n' body
  end.

Definition for_loop (lo hi : Z) (body : Z -> M unit) : M unit :=
  for_loop_from lo (Z.to_nat (hi - lo)) body.

(** [vec->stack_buf] as a pointer to its first element. *)
Definition stack_buf_ptr (vec : vector) : M ptr := fun m =>
  match vec with
  | Some a => match struct_at m a with
              | Some _ => Some (Inline a, m)
              | None => None
              end
  | None => None
  end.

(** ** Construction and destruction *)

Definition mc_vector_make (cap : Z) : M vector :=
  if bool_decide (cap = 0) then
    raise EINVAL;; mret None
  else
    res ← malloc_struct;
    if bool_decide (res = None) then
      raise ENOBUFS;; mret None
    else
      ok ←
        (if bool_decide (cap > MC_VECTOR_BUFSIZE) then
           p ← malloc (bytes_of cap);
           assign res (with_heap_buf p);;
           h ← field heap_buf res;
           if bool_decide (h = NULL) then
             free_struct res;;
             raise ENOBUFS;;
             mret false
           else
             h ← field heap_buf res;
             assign res (with_data h);;
             assign res (with_capacity cap);;
             mret true
         else
           s ← stack_buf_ptr res;
           assign res (with_data s);;
           assign res (with_heap_buf NULL);;
           assign res (with_capacity MC_VECTOR_BUFSIZE);;
           mret true);
      if ok : bool then
        assign res (with_count 0);;
        mret res
      else mret None.

Definition mc_vector_make_filled (cap length value : Z) : M vector :=
  if bool_decide (cap = 0 \/ length = 0 \/ cap < length) then
    raise EINVAL;; mret None
  else
    res ← mc_vector_make cap;
    if bool_decide (res = None) then mret None
    else
      for_loop 0 length (fun i =>
        d ← field data res;
        store d i (Some value));;
      assign res (with_count length);;
      mret res.

Definition mc_vector_clone (vec : vector) : M vector :=
  if bool_decide (vec = None) then
    raise EFAULT;; mret None
  else
    c ← field capacity vec;
    res ← mc_vector_make c;
    if bool_decide (res = None) then mret None
    else
      d ← field data res;
      sd ← field data vec;
      n ← field count vec;
      memcpy d 0 sd 0 (bytes_of n);;
      c ← field capacity vec;
      assign res (with_capacity c);;
      n ← field count vec;
      assign res (with_count n);;
      mret res.

Definition mc_vector_from_array (src : ptr) (length : Z) : M vector :=
  if bool_decide (src = NULL) then
    raise EFAULT;; mret None
  else if bool_decide (length = 0) then
    raise EINVAL;; mret None
  else
    res ← mc_vector_make (size_wrap (length * 2));
    if bool_decide (res = None) then mret None
    else
      d ← field data res;
      memcpy d 0 src 0 (bytes_of length);;
      assign res (with_capacity (size_wrap (length * 2)));;
      assign res (with_count length);;
      mret res.

Definition mc_vector_free (vec : vector) : M unit :=
  if bool_decide (vec = None) then mret tt
  else
    h ← field heap_buf vec;
    (if bool_decide (h <> NULL) then free h else mret tt);;
    free_struct vec.

(** ** Copying out *)

Definition mc_vector_extract (vec : vector) (buffer : ptr) (index length : Z) : M Z :=
  if bool_decide (vec = None \/ buffer = NULL) then
    raise EFAULT;; mret 0
  else
    n ← field count vec;
    if bool_decide (index >= n \/ length = 0 \/ size_wrap (index + length) > n) then
      raise EINVAL;; mret 0
    else
      for_loop index (size_wrap (index + length)) (fun i =>
        d ← field data vec;
        x ← load d i;
        store buffer (i - index) x);;
      mret (to_int length).

Definition mc_vector_to_array (vec : vector) (buffer : ptr) : M Z :=
  n ← field count vec;
  mc_vector_extract vec buffer 0 n.

(** ** Element access *)

Definition mc_vector_get (vec : vector) (index : Z) (out : ptr) : M Z :=
  if bool_decide (vec = None \/ out = NULL) then
    raise EFAULT;; mret 0
  else
    c ← field capacity vec;
    if bool_decide (index >= c) then
      raise EINVAL;; mret 0
    else
      d ← field data vec;
      x ← load d index;
      store out 0 x;;
      mret 1.

Definition mc_vector_get_unchecked (vec : vector) (index : Z) : M cell :=
  if bool_decide (vec = None) then mret (Some LONG_MAX)
  else
    c ← field capacity vec;
    if bool_decide (index >= c) then mret (Some LONG_MAX)
    else
      d ← field data vec;
      load d index.

Definition mc_vector_set (vec : vector) (index value : Z) : M Z :=
  if bool_decide (vec = None) then
    raise EFAULT;; mret 0
  else
    n ← field count vec;
    if bool_decide (index >= n) then
      raise EINVAL;; mret 0
    else
      d ← field data vec;
      store d index (Some value);;
      mret 1.

Definition mc_vector_size (vec : vector) : M Z :=
  if bool_decide (vec = None) then
    raise EFAULT;; mret 0
  else field count vec.

Definition mc_vector_capacity (vec : vector) : M Z :=
  if bool_decide (vec = None) then
    raise EFAULT;; mret 0
  else field capacity vec.

Definition mc_vector_empty (vec : vector) : M Z :=
  if bool_decide (vec = None) then
    raise EFAULT;; mret 1
  else
    n ← field count vec;
    mret (if bool_decide (n = 0) then 1 else 0).

Definition mc_vector_is_stack (vec : vector) : M Z :=
  if bool_decide (vec = None) then
    raise EFAULT;; mret 0
  else
    d ← field data vec;
    h ← field heap_buf vec;
    mret (if bool_decide (d <> h) then 1 else 0).

(** ** Growth *)

Definition vec_ensure_capacity (vec : vector) (len : Z) : M Z :=
  if bool_decide (vec = None) then mret 0
  else
    n ← field count vec;
    c ← field capacity vec;
    if bool_decide (size_wrap (n + len) >= c) then
      c ← field capacity vec;
      let cap := size_wrap (size_wrap (c * 2) + len) in
      h ← field heap_buf vec;
      temp ← realloc h (bytes_of cap);
      if bool_decide (temp = NULL) then mret 0
      else
        h ← field heap_buf vec;
        (if bool_decide (h = NULL) then
           s ← stack_buf_ptr vec;
           c ← field capacity vec;
           memcpy temp 0 s 0 (bytes_of c)
         else mret tt);;
        assign vec (with_heap_buf temp);;
        h ← field heap_buf vec;
        assign vec (with_data h);;
        assign vec (with_capacity cap);;
        mret 1
    else mret 1.

(** ** Insertion and removal *)

Definition mc_vector_push (vec : vector) (value : Z) : M Z :=
  if bool_decide (vec = None) then
    raise EFAULT;; mret 0
  else
    ok ← vec_ensure_capacity vec 1;
    if bool_decide (ok = 0) then
      raise ENOMEM;; mret 0
    else
      d ← field data vec;
      n ← field count vec;
      store d n (Some value);;
      assign vec (with_count (size_wrap (n + 1)));;
      mret 1.

Definition mc_vector_pop (vec : vector) : M cell :=
  if bool_decide (vec = None) then
    raise EFAULT;; mret (Some LONG_MIN)
  else
    n ← field count vec;
    if bool_decide (n = 0) then
      raise ENOMEM;; mret (Some LONG_MIN)
    else
      d ← field data vec;
      n ← field count vec;
      assign vec (with_count (size_wrap (n - 1)));;
      load d (size_wrap (n - 1)).

Definition mc_vector_insert (vec : vector) (index value : Z) : M Z :=
  if bool_decide (vec = None) then
    raise EFAULT;; mret 0
  else
    n ← field count vec;
    if bool_decide (index >= n) then
      raise EINVAL;; mret 0
    else
      ok ← vec_ensure_capacity vec 1;
      if bool_decide (ok = 0) then
        raise ENOMEM;; mret 0
      else
        n ← field count vec;
        if bool_decide (index = size_wrap (n - 1)) then
          mc_vector_push vec value
        else
          d ← field data vec;
          n ← field count vec;
          memmove d (index + 1) d index (bytes_of (size_wrap (n - index)));;
          d ← field data vec;
          store d index (Some value);;
          n ← field count vec;
          assign vec (with_count (size_wrap (n + 1)));;
          mret 1.

Definition mc_vector_inserts (vec : vector) (index : Z) (src : ptr) (length : Z) : M Z :=
  if bool_decide (vec = None \/ src = NULL) then
    raise EFAULT;; mret 0
  else
    c ← field capacity vec;
    if bool_decide (index >= c \/ length = 0 \/ size_wrap (index + length) >= c) then
      raise EINVAL;; mret 0
    else
      ok ← vec_ensure_capacity vec length;
      if bool_decide (ok = 0) then
        raise ENOMEM;; mret 0
      else
        n ← field count vec;
        (if bool_decide (index <> size_wrap (n - 1)) then
           d ← field data vec;
           n ← field count vec;
           memmove d (index + length) d index (bytes_of (size_wrap (n - index)))
         else mret tt);;
        d ← field data vec;
        memcpy d index src 0 (bytes_of length);;
        n ← field count vec;
        assign vec (with_count (size_wrap (n + length)));;
        mret (to_short length).

Definition mc_vector_remove (vec : vector) (index : Z) : M Z :=
  if bool_decide (vec = None) then
    raise EFAULT;; mret 0
  else
    n ← field count vec;
    if bool_decide (index >= n) then
      raise EINVAL;; mret 0
    else
      n ← field count vec;
      if bool_decide (index = size_wrap (n - 1)) then
        x ← mc_vector_pop vec;
        (* the comparison of an indeterminate value has no defined result *)
        match x with
        | Some x => mret (if bool_decide (x <> LONG_MIN) then 1 else 0)
        | None => undefined
        end
      else
        d ← field data vec;
        n ← field count vec;
        (* [count - index] elements are moved, one more than there are after
           the index: on a buffer that the count fills, [memmove] reads one
           element past its end, which is undefined here as every access
           outside of an array is, be it the element after the last one of
           [stack_buf], where the structure has its [heap_buf] member *)
        memmove d index d (index + 1) (bytes_of (size_wrap (n - index)));;
        n ← field count vec;
        assign vec (with_count (size_wrap (n - 1)));;
        mret 1.

Definition mc_vector_erase (vec : vector) (index length : Z) : M Z :=
  if bool_decide (vec = None) then
    raise EFAULT;; mret 0
  else
    n ← field count vec;
    if bool_decide (index >= n \/ length = 0 \/ size_wrap (index + length) >= n) then
      raise EINVAL;; mret 0
    else
      d ← field data vec;
      n ← field count vec;
      (* [vec->data + index + length]: past the check, the offset is the sum
         the check has computed, reduced modulo [SIZE_MAX + 1] *)
      memmove d index d (size_wrap (index + length))
        (bytes_of (size_wrap (size_wrap (n - index) - length)));;
      n ← field count vec;
      assign vec (with_count (size_wrap (n - length)));;
      mret (to_short length).

(** ** Whole-container operations *)

Definition mc_vector_swap (vec1 vec2 : vector) : M Z :=
  if bool_decide (vec1 = None \/ vec2 = None) then
    raise EFAULT;; mret 0
  else
    n ← field count vec1;
    c ← field capacity vec1;
    d ← field data vec1;
    n2 ← field count vec2;
    assign vec1 (with_count n2);;
    c2 ← field capacity vec2;
    assign vec1 (with_capacity c2);;
    d2 ← field data vec2;
    assign vec1 (with_data d2);;
    assign vec2 (with_count n);;
    assign vec2 (with_capacity c);;
    assign vec2 (with_data d);;
    mret 1.

Definition mc_vector_fill_range (vec : vector) (index length value : Z) : M Z :=
  if bool_decide (vec = None) then
    raise EFAULT;; mret 0
  else
    n ← field count vec;
    if bool_decide (index >= n \/ length = 0 \/ size_wrap (index + length) > n) then
      raise EINVAL;; mret 0
    else
      for_loop index (size_wrap (index + length)) (fun i =>
        d ← field data vec;
        store d i (Some value));;
      mret 1.

Definition mc_vector_fill (vec : vector) (value : Z) : M Z :=
  n ← field count vec;
  mc_vector_fill_range vec 0 n value.

Definition mc_vector_resize (vec : vector) (newSize : Z) : M Z :=
  if bool_decide (vec = None) then
    raise EFAULT;; mret 0
  else if bool_decide (newSize = 0) then
    raise EINVAL;; mret 0
  else if bool_decide (newSize <= MC_VECTOR_BUFSIZE) then
    d ← field data vec;
    h ← field heap_buf vec;
    (if bool_decide (d = h) then
       s ← stack_buf_ptr vec;
       h ← field heap_buf vec;
       memcpy s 0 h 0 (bytes_of newSize);;
       h ← field heap_buf vec;
       free h;;
       assign vec (with_heap_buf NULL)
     else mret tt);;
    s ← stack_buf_ptr vec;
    assign vec (with_data s);;
    assign vec (with_capacity MC_VECTOR_BUFSIZE);;
    assign vec (with_count newSize);;
    mret 1
  else
    d ← field data vec;
    h ← field heap_buf vec;
    ok ←
      (if bool_decide (d = h) then
         h ← field heap_buf vec;
         temp ← realloc h (bytes_of newSize);
         if bool_decide (temp = NULL) then
           raise ENOMEM;; mret false
         else
           assign vec (with_heap_buf temp);;
           mret true
       else
         temp ← malloc (bytes_of newSize);
         if bool_decide (temp = NULL) then
           raise EINVAL;; mret false
         else
           s ← stack_buf_ptr vec;
           n ← field count vec;
           memcpy temp 0 s 0 (bytes_of n);;
           assign vec (with_heap_buf temp);;
           mret true);
    if ok : bool then
      h ← field heap_buf vec;
      assign vec (with_data h);;
      assign vec (with_capacity newSize);;
      mret 1
    else mret 0.

Definition mc_vector_shrink (vec : vector) : M Z :=
  n ← field count vec;
  mc_vector_resize vec n.

Definition mc_vector_clear (vec : vector) : M Z :=
  if bool_decide (vec = None) then
    raise EFAULT;; mret 0
  else
    d ← field data vec;
    h ← field heap_buf vec;
    (if bool_decide (d = h) then
       h ← field heap_buf vec;
       free h;;
       assign vec (with_heap_buf NULL);;
       s ← stack_buf_ptr vec;
       assign vec (with_data s);;
       assign vec (with_capacity MC_VECTOR_BUFSIZE)
     else mret tt);;
    assign vec (with_count 0);;
    mret 1.

(** ** Printing *)

(** [vector_display] *)
Inductive vector_display := VDisplay_SingleLine | VDisplay_OnePerLine | VDisplay_Raw.

#[global] Instance vector_display_eq_dec : EqDecision vector_display.
Proof. solve_decision. Defined.

(** An argument of a formatted output function after the format. *)
Inductive printf_arg :=
| ArgLong (x : option Z)
| ArgString (s : string)
| ArgSize (n : Z).

Definition newline : string := String (Ascii.ascii_of_nat 10) EmptyString.

Section IO.
(** The formatted output functions belong to the C library. What they write
    is outside of the store of this development; only the number they return
    flows back into the code. A [FILE *] is [Some] stream or [None]; a
    character pointer is [Some] of a buffer and an offset, or [None].
    [sprintf] stands for what the macros of [vector.c] select: [sprintf_s], or
    [sprintf] with the size dropped. Arithmetic on [int] is not wrapped.
    The characters stored in the buffer of the caller are not part of the
    store either: [print_to_buffer] gives the arguments of the calls and the
    arithmetic on their results, and says nothing of a call that writes past
    the end of that buffer. *)
Variable fprintf : nat -> string -> list printf_arg -> Z.
Variable sprintf : nat * Z -> Z -> string -> list printf_arg -> Z.
Variable swprintf : nat * Z -> Z -> string -> list printf_arg -> Z.

Definition separator_of (option : vector_display) : string :=
  match option with
  | VDisplay_SingleLine => ", "
  | VDisplay_OnePerLine => newline
  | VDisplay_Raw => " "
  end.

Definition sizeof_pointer : Z := 8.

(** [for (size_t i = 0; i < vec->count; i++)] of [mc_vector_fprint], with [k]
    iterations left. *)
Fixpoint fprint_loop (vec : vector) (stream : nat) (separator : string)
    (i : Z) (k : nat) (res : Z) : M Z :=
  match k with
  | O => mret res
  | S k' =>
      d ← field data vec;
      x ← load d i;
      let res := res + fprintf stream "%lu" [ArgLong x; ArgSize sizeof_long] in
      n ← field count vec;
      let res :=
        if bool_decide (size_wrap (i + 1) < n)
        then res + fprintf stream "%s" [ArgString separator; ArgSize sizeof_pointer]
        else res in
      fprint_loop vec stream separator (size_wrap (i + 1)) k' res
  end.

Definition mc_vector_fprint (vec : vector) (stream : option nat)
    (option : vector_display) : M Z :=
  match stream with
  | Some f =>
      if bool_decide (vec = None) then
        raise EFAULT;; mret 0
      else
        let res := 0 in
        let separator := separator_of option in
        let res :=
          if bool_decide (option = VDisplay_SingleLine)
          then res + fprintf f "{" [ArgSize 1] else res in
        n ← field count vec;
        res ← fprint_loop vec f separator 0 (Z.to_nat n) res;
        let res :=
          if bool_decide (option = VDisplay_SingleLine)
          then res + fprintf f "}" [ArgSize 1] else res in
        let res :=
          if bool_decide (option <> VDisplay_Raw)
          then res + fprintf f newline [ArgSize 1] else res in
        mret res
  | None => raise EFAULT;; mret 0
  end.

(** The state of the loops of [mc_vector_sprint] and [mc_vector_wprint]:
    [res], [buffer] and [buflen]. *)
Definition print_state : Type := Z * (nat * Z) * Z.

(** [temp = print (buffer, buflen, ...); res += temp; buffer += temp;
    buflen -= temp] *)
Definition advance (st : print_state) (temp : Z) : print_state :=
  let '(res, (b, off), buflen) := st in
  (res + temp, (b, off + temp), buflen - temp).

(** [for (size_t i = 0; i < vec->count && buflen > 0; i++)], with [k]
    iterations left, for the output function [print]. *)
Fixpoint sprint_loop (print : nat * Z -> Z -> string -> list printf_arg -> Z)
    (vec : vector) (separator : string) (i : Z) (k : nat) (st : print_state)
    : M print_state :=
  match k with
  | O => mret st
  | S k' =>
      if bool_decide (st.2 > 0) then
        d ← field data vec;
        x ← load d i;
        let st := advance st (print st.1.2 st.2 "%lu" [ArgLong x]) in
        n ← field count vec;
        let st :=
          if bool_decide (st.2 > 0 /\ size_wrap (i + 1) < n)
          then advance st (print st.1.2 st.2 "%s" [ArgString separator])
          else st in
        sprint_loop print vec separator (size_wrap (i + 1)) k' st
      else mret st
  end.

(** The common body of [mc_vector_sprint] and [mc_vector_wprint], which
    differ in the output function and the character type only. *)
Definition print_to_buffer (print : nat * Z -> Z -> string -> list printf_arg -> Z)
    (vec : vector) (buffer : option (nat * Z)) (buflen : Z)
    (option : vector_display) : M Z :=
  match buffer with
  | Some buf =>
      if bool_decide (vec = None) then
        raise EFAULT;; mret 0
      else if bool_decide (buflen <= 0) then
        raise EINVAL;; mret 0
      else
        let st : print_state := (0, buf, buflen) in
        let separator := separator_of option in
        let st :=
          if bool_decide (option = VDisplay_SingleLine)
          then advance st (print st.1.2 st.2 "{" []) else st in
        n ← field count vec;
        st ← sprint_loop print vec separator 0 (Z.to_nat n) st;
        let st :=
          if bool_decide (st.2 >= 0 /\ option = VDisplay_SingleLine)
          then
            (* [buflen += temp], as the source has it *)
            let temp := print st.1.2 st.2 "}" [] in
            (st.1.1 + temp, (st.1.2.1, st.1.2.2 + temp), st.2 + temp)
          else st in
        let res :=
          if bool_decide (st.2 >= 0 /\ option <> VDisplay_Raw)
          then st.1.1 + print st.1.2 st.2 newline [] else st.1.1 in
        mret res
  | None => raise EFAULT;; mret 0
  end.

Definition mc_vector_sprint := print_to_buffer sprintf.
Definition mc_vector_wprint := print_to_buffer swprintf.

End IO.

(** ** Observations *)

(** The store before any object exists; every allocation succeeds. *)
Definition empty_memory : memory := Memory [] [] None [].

(** The live elements of the vector at [a]: the first [count] objects of the
    array [data] points to. There is none to observe when [data] does not
    designate a live array of at least [count] objects. *)
Definition elements (m : memory) (a : nat) : option (list cell) :=
  s ← struct_at m a;
  l ← array_at m (data s);
  read_range l 0 (count s).

(** The vector at [a] has the structure [s], and its [data] designates the
    live array [l]. *)
Definition holds (m : memory) (a : nat) (s : vector_s) (l : list cell) : Prop :=
  struct_at m a = Some s /\ array_at m (data s) = Some l.

(** The members of a structure other than the content of [stack_buf]. *)
Definition header (s : vector_s) : Z * Z * ptr * ptr :=
  (count s, capacity s, heap_buf s, data s).

(** The store [m'] after [vec_ensure_capacity] has grown, for [len] more
    elements, the vector at [a] whose structure was [s] and whose active array
    was [l]: a fresh array of [capacity * 2 + len] elements starts with the old
    ones and is both [heap_buf] and [data]; the old heap buffer is gone, every
    other object is as before. *)
Definition grown (m : memory) (a : nat) (s : vector_s) (l : list cell) (len : Z)
    (m' : memory) : Prop :=
  let nb := length (arrays m) in
  holds m' a
    (Vector_s (count s) (capacity s * 2 + len) (stack_buf s) (Block nb) (Block nb))
    (take (Z.to_nat (capacity s)) l ++ replicate (Z.to_nat (capacity s + len)) None)
  /\ allocator m' = tl (allocator m)
  /\ errno m' = errno m
  /\ (forall a', a' <> a -> struct_at m' a' = struct_at m a')
  /\ (forall p x, p <> heap_buf s -> array_at m p = Some x -> array_at m' p = Some x).

(** What the library lets a caller see of the vector at [a], short of the
    address of its buffer. *)
Record view := View {
  v_count : Z;
  v_capacity : Z;
  v_is_stack : bool;
  v_elements : list cell
}.

Definition view_of (m : memory) (a : nat) : option view :=
  s ← struct_at m a;
  l ← elements m a;
  Some (View (count s) (capacity s) (bool_decide (data s <> heap_buf s)) l).

(** The outcome of a computation, the final store left out. *)
Definition result {A} (c : M A) (m : memory) : option A := fst <$> c m.

(** What a caller learns from [mc_vector_size], [mc_vector_capacity] and
    [mc_vector_is_stack]. *)
Definition observe (vec : vector) : M (Z * Z * Z) :=
  n ← mc_vector_size vec;
  c ← mc_vector_capacity vec;
  s ← mc_vector_is_stack vec;
  mret (n, c, s).

(** Pushes the values of a list in order; stops at the first push that does
    not succeed and returns its status. *)
Fixpoint push_list (vec : vector) (xs : list Z) : M Z :=
  match xs with
  | [] => mret 1
  | x :: xs' =>
      ok ← mc_vector_push vec x;
      if bool_decide (ok = 0) then mret 0 else push_list vec xs'
  end.

(** The first [k] allocation requests succeed. *)
Definition allocs_succeed (k : nat) (m : memory) : bool :=
  forallb id (take k (allocator m)).

(** The byte size of [n] objects of type [long] is representable: an array
    of [n] elements can exist at all. *)
Definition representable (n : Z) : Prop := 0 <= n /\ n * sizeof_long <= SIZE_MAX.

(** The vector at [a] is in a state the library itself establishes: its
    [data] is either its own [stack_buf], with no heap buffer, or its
    [heap_buf], a live array of [capacity] elements, and [count] does not
    exceed [capacity]. *)
Definition well_formed (m : memory) (a : nat) : Prop :=
  match struct_at m a with
  | Some s =>
      length (stack_buf s) = Z.to_nat MC_VECTOR_BUFSIZE /\
      0 <= count s <= capacity s /\ 0 < capacity s /\
      match data s with
      | Inline a' => a' = a /\ heap_buf s = NULL /\ capacity s <= MC_VECTOR_BUFSIZE
      | Block b =>
          heap_buf s = Block b /\
          match array_at m (Block b) with
          | Some l => Z.of_nat (length l) = capacity s /\ representable (capacity s)
          | None => False
          end
      | NULL => False
      end
  | None => False
  end.

(** ** Weakest preconditions *)

(** [wp c m Q]: run on [m], the computation [c] is defined, and its result
    and final store satisfy [Q]. *)
Definition wp {A} (c : M A) (m : memory) (Q : A -> memory -> Prop) : Prop :=
  match c m with
  | Some (a, m') => Q a m'
  | None => False
  end.

Definition put_struct (a : nat) (s : vector_s) (m : memory) : memory :=
  set_vectors <[a := Some s]> m.

#[global] Instance representable_dec n : Decision (representable n).
Proof. unfold representable. apply _. Defined.

#[global] Instance well_formed_dec m a : Decision (well_formed m a).
Proof.
  unfold well_formed.
  destruct (struct_at m a) as [s|]; [|apply _].
  destruct (data s) as [|a'|b]; [apply _|apply _|].
  destruct (array_at m (Block b)); apply _.
Defined.

(** The live elements as a computation. *)
Definition contents (vec : vector) : M (option (list cell)) := fun m =>
  Some (vec ≫= elements m, m).

(** A store that holds one caller-owned array, at [Block 0]. *)
Definition array_memory (xs : list cell) : memory := Memory [] [Some xs] None [].

(** ** Scenario A: growth out of the inline buffer *)

Definition scenario_A (xs : list Z) : M (Z * Z * Z) :=
  v ← mc_vector_make 5;
  push_list v xs;;
  observe v.


(** ** Scenario B: a vector built from an array *)

(** The caller owns the source array [1, 2, 3], at [Block 0], and a buffer of
    three elements for the copy, at [Block 1]. *)
Definition scenario_B_memory : memory :=
  Memory [] [Some [Some 1; Some 2; Some 3]; Some [None; None; None]] None [].

(** ** A vector with an allocated buffer *)

(** The store after [mc_vector_make (30)] and the pushes of 1, 2 and 3, and
    the store after the resize of that vector to 20. *)
Definition allocated_123 : memory :=
  Memory [Some (Vector_s 3 30 (replicate 10 None) (Block 0) (Block 0))]
    [Some ([Some 1; Some 2; Some 3] ++ replicate 27 None)] None [].

Definition allocated_123_resized : memory :=
  Memory [Some (Vector_s 3 20 (replicate 10 None) (Block 1) (Block 1))]
    [None; Some ([Some 1; Some 2; Some 3] ++ replicate 17 None)] None [].

(** ** Sizes and room *)

Definition is_size (z : Z) : Prop := 0 <= z <= SIZE_MAX.

(** The vector at [a] has room for one more element. *)
Definition spare (m : memory) (a : nat) : Prop :=
  exists s, struct_at m a = Some s /\ count s < capacity s.

(** ** Partial correctness *)

(** [wlp c m Q]: if [c] is defined on [m], its result and final store
    satisfy [Q]. *)
Definition wlp {A} (c : M A) (m : memory) (Q : A -> memory -> Prop) : Prop :=
  forall x m', c m = Some (x, m') -> Q x m'.

(** The header of the structure at [a], if it is live. *)
Definition hdr (m : memory) (a : nat) : option (Z * Z * ptr * ptr) :=
  header <$> struct_at m a.

(** Every structure of [m] is in [m'], with the same header. *)
Definition same_headers (m m' : memory) : Prop :=
  forall a, hdr m' a = hdr m a.

(** A computation that assigns to no member of a structure but the elements
    of [stack_buf], and neither allocates nor frees a structure. *)
Definition keeps_headers {A} (c : M A) : Prop :=
  forall m x m', c m = Some (x, m') -> same_headers m m'.

(** The count and the capacity of a well-formed vector. *)
Definition sized_header (n c : Z) : Prop :=
  0 <= n <= c /\ 0 < c /\ c * sizeof_long <= SIZE_MAX.

(** After the call the vector at [a] is live, and has room if its count [n]
    was below its capacity [c]. *)
Definition room_kept (n c : Z) (a : nat) (m' : memory) : Prop :=
  exists n' c' hb' d', hdr m' a = Some (n', c', hb', d') /\ (n < c -> n' < c').

(** After the call the vector at [a] is live; it has room if the call has
    not returned 0, or if it had room before. *)
Definition room_made (n c : Z) (a : nat) (r : Z) (m' : memory) : Prop :=
  exists n' c' hb' d', hdr m' a = Some (n', c', hb', d')
    /\ (n < c -> n' < c') /\ (r <> 0 -> n' < c').


(** ** Stores for the examples *)

(** The store after [mc_vector_make (5)]: an empty vector that uses its inline
    buffer. *)
Definition inline_empty : memory :=
  Memory [Some (Vector_s 0 10 (replicate 10 None) NULL (Inline 0))] [] None [].

(** The vector [1, 2, 3] in its inline buffer, and an array of three elements
    of the caller, at [Block 0]. *)
Definition inline_123 : memory :=
  Memory [Some (Vector_s 3 10 ([Some 1; Some 2; Some 3] ++ replicate 7 None)
                  NULL (Inline 0))]
    [Some [None; None; None]] None [].

(** The store after [mc_vector_make_filled (12, 12, 7)]: a vector whose
    allocated buffer is full. *)
Definition filled_12 : memory :=
  Memory [Some (Vector_s 12 12 (replicate 10 None) (Block 0) (Block 0))]
    [Some (replicate 12 (Some 7))] None [].


(** Two vectors: [1, 2, 3] in an allocated buffer of capacity 20, and [7] in
    its inline buffer. *)
Definition two_vectors : memory :=
  Memory [Some (Vector_s 3 20 (replicate 10 None) (Block 0) (Block 0));
          Some (Vector_s 1 10 (Some 7 :: replicate 9 None) NULL (Inline 1))]
    [Some ([Some 1; Some 2; Some 3] ++ replicate 17 None)] None [].

(** A vector of twelve elements in an allocated buffer of capacity 20. *)
Definition allocated_12_of_20 : memory :=
  Memory [Some (Vector_s 12 20 (replicate 10 None) (Block 0) (Block 0))]
    [Some (replicate 12 (Some 7) ++ replicate 8 None)] None [].

(** * Properties *)

(** C1, as stated, fails: the tenth push already moves the vector out of
    its inline buffer. After ten pushes into a vector made with capacity 5,
    [mc_vector_is_stack] returns 0 and the capacity is 21, where the claim
    has 1 and the inline buffer still in use. *)
Lemma scenario_A_tenth_push_leaves_inline_buffer :
  result (scenario_A [1; 2; 3; 4; 5; 6; 7; 8; 9; 10]) empty_memory = Some (10, 21, 0)
  /\ result (scenario_A [1; 2; 3; 4; 5; 6; 7; 8; 9; 10]) empty_memory <> Some (10, 10, 1).
Proof. split; [vm_compute; reflexivity | vm_compute; discriminate]. Qed.

(** ** Rules of the weakest precondition *)

Section wp_rules.
Context {A B : Type}.
Implicit Types (m : memory) (a : nat) (s : vector_s).

Lemma wp_ret (x : A) m Q : Q x m -> wp (mret x) m Q.
Proof. done. Qed.

Lemma wp_bind (c : M A) (k : A -> M B) m Q :
  wp c m (fun x m' => wp (k x) m' Q) -> wp (c ≫= k) m Q.
Proof.
  unfold wp, mbind, M_bind. by destruct (c m) as [[x m']|].
Qed.

Lemma wp_mono (c : M A) m (Q Q' : A -> memory -> Prop) :
  wp c m Q -> (forall x m', Q x m' -> Q' x m') -> wp c m Q'.
Proof.
  unfold wp. destruct (c m) as [[x m']|]; [|done]. intros HQ H. by apply H.
Qed.

Lemma wp_run (c : M A) m Q :
  wp c m Q <-> exists x m', c m = Some (x, m') /\ Q x m'.
Proof.
  unfold wp. destruct (c m) as [[x m']|]; split.
  - intros HQ. by exists x, m'.
  - intros (x' & m'' & [= <- <-] & HQ). done.
  - done.
  - intros (x' & m'' & [=] & _).
Qed.

Lemma wp_field (f : vector_s -> A) a s m Q :
  struct_at m a = Some s -> Q (f s) m -> wp (field f (Some a)) m Q.
Proof. unfold wp, field. by intros ->. Qed.
End wp_rules.

Lemma wp_assign a s u m Q :
  struct_at m a = Some s -> Q tt (put_struct a (u s) m) -> wp (assign (Some a) u) m Q.
Proof. unfold wp, assign. by intros ->. Qed.

Lemma wp_stack_buf_ptr a s m Q :
  struct_at m a = Some s -> Q (Inline a) m -> wp (stack_buf_ptr (Some a)) m Q.
Proof. unfold wp, stack_buf_ptr. by intros ->. Qed.

Lemma wp_raise e m Q : Q tt (set_errno e m) -> wp (raise e) m Q.
Proof. done. Qed.

Lemma wp_load p i l c m Q :
  array_at m p = Some l -> 0 <= i -> l !! Z.to_nat i = Some c ->
  Q c m -> wp (load p i) m Q.
Proof.
  unfold wp, load. intros -> Hi ->. by rewrite bool_decide_eq_true_2.
Qed.

Lemma wp_store p i x l m Q :
  array_at m p = Some l -> 0 <= i < Z.of_nat (length l) ->
  Q tt (put_array p (<[Z.to_nat i := x]> l) m) -> wp (store p i x) m Q.
Proof.
  unfold wp, store. intros -> Hi. by rewrite bool_decide_eq_true_2.
Qed.

Lemma wp_memmove dst doff src soff bytes ls new ld ld' m Q :
  array_at m src = Some ls -> read_range ls soff (cells_of bytes) = Some new ->
  array_at m dst = Some ld -> write_range ld doff new = Some ld' ->
  Q tt (put_array dst ld' m) -> wp (memmove dst doff src soff bytes) m Q.
Proof. unfold wp, memmove. by intros -> -> -> ->. Qed.

Lemma wp_memcpy dst doff src soff bytes ls new ld ld' m Q :
  dst <> src ->
  array_at m src = Some ls -> read_range ls soff (cells_of bytes) = Some new ->
  array_at m dst = Some ld -> write_range ld doff new = Some ld' ->
  Q tt (put_array dst ld' m) -> wp (memcpy dst doff src soff bytes) m Q.
Proof.
  intros Hne. unfold memcpy. rewrite bool_decide_eq_false_2 by tauto.
  apply wp_memmove.
Qed.

Lemma wp_malloc_ok bytes m Q :
  alloc_ok m = true ->
  Q (Block (length (arrays m)))
    (set_arrays (fun l => l ++ [Some (replicate (Z.to_nat (cells_of bytes)) None)])
       (next_alloc m)) ->
  wp (malloc bytes) m Q.
Proof. unfold wp, malloc. by intros ->. Qed.

Lemma wp_malloc_fail bytes m Q :
  alloc_ok m = false -> Q NULL (next_alloc m) -> wp (malloc bytes) m Q.
Proof. unfold wp, malloc. by intros ->. Qed.

Lemma wp_realloc_ok b old bytes m Q :
  array_at m (Block b) = Some old -> alloc_ok m = true ->
  Q (Block (length (arrays m)))
    (set_arrays
       (fun l => <[b := None]> l ++
          [Some (take (Z.to_nat (cells_of bytes)) old ++
                 replicate (Z.to_nat (cells_of bytes) - length old) None)])
       (next_alloc m)) ->
  wp (realloc (Block b) bytes) m Q.
Proof. unfold wp, realloc, array_at. by intros -> ->. Qed.

Lemma wp_realloc_fail b old bytes m Q :
  array_at m (Block b) = Some old -> alloc_ok m = false ->
  Q NULL (next_alloc m) -> wp (realloc (Block b) bytes) m Q.
Proof. unfold wp, realloc, array_at. by intros -> ->. Qed.

Lemma wp_malloc_struct_ok m Q :
  alloc_ok m = true ->
  Q (Some (length (vectors m)))
    (set_vectors
       (fun l => l ++ [Some (Vector_s 0 0 (replicate (Z.to_nat MC_VECTOR_BUFSIZE) None)
                               NULL NULL)])
       (next_alloc m)) ->
  wp malloc_struct m Q.
Proof. unfold wp, malloc_struct. by intros ->. Qed.

Lemma wp_free b old m Q :
  array_at m (Block b) = Some old -> Q tt (set_arrays <[b := None]> m) ->
  wp (free (Block b)) m Q.
Proof. unfold wp, free, array_at. by intros ->. Qed.

(** ** The store after an update *)

Lemma struct_at_lt m a s : struct_at m a = Some s -> (a < length (vectors m))%nat.
Proof.
  unfold struct_at. intros H. apply lookup_lt_is_Some.
  destruct (vectors m !! a); [eauto | done].
Qed.

Lemma struct_at_put_struct m a s0 s :
  struct_at m a = Some s0 -> struct_at (put_struct a s m) a = Some s.
Proof.
  intros H%struct_at_lt. unfold struct_at, put_struct. simpl.
  by rewrite list_lookup_insert_eq.
Qed.

Lemma struct_at_put_struct_ne m a a' s :
  a <> a' -> struct_at (put_struct a s m) a' = struct_at m a'.
Proof.
  intros H. unfold struct_at, put_struct. simpl.
  by rewrite list_lookup_insert_ne.
Qed.

Lemma struct_at_new m s a :
  a = length (vectors m) ->
  struct_at (set_vectors (fun l => l ++ [Some s]) m) a = Some s.
Proof. intros ->. unfold struct_at. simpl. by rewrite list_lookup_middle. Qed.

Lemma struct_at_new_ne m s a :
  a <> length (vectors m) ->
  struct_at (set_vectors (fun l => l ++ [Some s]) m) a = struct_at m a.
Proof.
  intros Hne. unfold struct_at. simpl.
  destruct (decide (a < length (vectors m))%nat).
  - by rewrite lookup_app_l.
  - rewrite !lookup_ge_None_2; [done|lia|rewrite length_app; simpl; lia].
Qed.

Lemma put_struct_put_struct m a s1 s2 :
  put_struct a s2 (put_struct a s1 m) = put_struct a s2 m.
Proof.
  unfold put_struct, set_vectors. simpl. by rewrite list_insert_insert_eq.
Qed.

Lemma struct_at_set_arrays f m a : struct_at (set_arrays f m) a = struct_at m a.
Proof. done. Qed.

Lemma struct_at_next_alloc m a : struct_at (next_alloc m) a = struct_at m a.
Proof. done. Qed.

Lemma struct_at_set_errno e m a : struct_at (set_errno e m) a = struct_at m a.
Proof. done. Qed.

Lemma array_at_next_alloc m p : array_at (next_alloc m) p = array_at m p.
Proof. by destruct p. Qed.

Lemma array_at_set_errno e m p : array_at (set_errno e m) p = array_at m p.
Proof. by destruct p. Qed.

Lemma array_at_put_struct_block m a s b :
  array_at (put_struct a s m) (Block b) = array_at m (Block b).
Proof. done. Qed.

Lemma array_at_put_struct_inline m a s0 s :
  struct_at m a = Some s0 -> array_at (put_struct a s m) (Inline a) = Some (stack_buf s).
Proof. intros H. simpl. by erewrite struct_at_put_struct. Qed.

Lemma array_at_lt m b l : array_at m (Block b) = Some l -> (b < length (arrays m))%nat.
Proof.
  simpl. intros H. apply lookup_lt_is_Some.
  destruct (arrays m !! b); [eauto | done].
Qed.

(** ** Arithmetic of sizes *)

Lemma SIZE_MAX_eq : SIZE_MAX = 18446744073709551615.
Proof. reflexivity. Qed.

Lemma size_wrap_small z : 0 <= z <= SIZE_MAX -> size_wrap z = z.
Proof. unfold size_wrap. intros. apply Z.mod_small. lia. Qed.

Lemma representable_le n n' : representable n -> 0 <= n' <= n -> representable n'.
Proof. unfold representable, sizeof_long. lia. Qed.

Lemma representable_size n : representable n -> 0 <= n <= SIZE_MAX.
Proof. unfold representable, sizeof_long. lia. Qed.

Lemma cells_of_bytes_of n : representable n -> cells_of (bytes_of n) = n.
Proof.
  unfold representable, cells_of, bytes_of, sizeof_long. intros [? ?].
  rewrite size_wrap_small by lia. by rewrite Z.div_mul.
Qed.

Lemma read_range_prefix l n :
  0 <= n <= Z.of_nat (length l) -> read_range l 0 n = Some (take (Z.to_nat n) l).
Proof.
  intros. unfold read_range. by rewrite bool_decide_eq_true_2 by lia.
Qed.

Lemma write_range_prefix l new :
  (length new <= length l)%nat ->
  write_range l 0 new = Some (new ++ drop (length new) l).
Proof.
  intros. unfold write_range. by rewrite bool_decide_eq_true_2 by lia.
Qed.

(** ** Vectors in the store *)

Lemma allocator_put_array p l m : allocator (put_array p l m) = allocator m.
Proof. destruct p as [|v|b]; simpl; [done| by destruct (struct_at m v) | done]. Qed.

Lemma errno_put_array p l m : errno (put_array p l m) = errno m.
Proof. destruct p as [|v|b]; simpl; [done| by destruct (struct_at m v) | done]. Qed.

Lemma array_at_inline_struct m a l :
  array_at m (Inline a) = Some l -> exists s, struct_at m a = Some s /\ stack_buf s = l.
Proof.
  simpl. destruct (struct_at m a) as [s|]; [|done]. intros [= <-]. by exists s.
Qed.

Lemma holds_put_array m a s l l' :
  holds m a s l ->
  exists s', holds (put_array (data s) l' m) a s' l' /\ header s' = header s
             /\ length (stack_buf s') = (if decide (data s = Inline a) then length l' else length (stack_buf s)).
Proof.
  intros [Hs Hl]. destruct (data s) as [|a'|b] eqn:Hd; [done| |].
  - destruct (decide (a' = a)) as [->|Hne].
    + exists (with_stack_buf l' s). unfold put_array. rewrite Hs.
      fold (put_struct a (with_stack_buf l' s) m).
      split; [split|].
      * by eapply struct_at_put_struct.
      * simpl. rewrite Hd. by erewrite array_at_put_struct_inline.
      * rewrite decide_True by done. done.
    + destruct (array_at_inline_struct _ _ _ Hl) as (s2 & Hs2 & _).
      exists s. unfold put_array. rewrite Hs2.
      fold (put_struct a' (with_stack_buf l' s2) m).
      split; [split|].
      * by rewrite struct_at_put_struct_ne.
      * rewrite Hd. by erewrite array_at_put_struct_inline.
      * rewrite decide_False by congruence. done.
  - exists s. split; [split|]; [done| |by rewrite decide_False by congruence].
    rewrite Hd. pose proof (array_at_lt _ _ _ Hl). simpl.
    by rewrite list_lookup_insert_eq.
Qed.

Lemma holds_put_struct m a s l s' :
  holds m a s l -> stack_buf s' = stack_buf s -> data s' = data s ->
  holds (put_struct a s' m) a s' l.
Proof.
  intros [Hs Hl] Hsb Hd. split; [by eapply struct_at_put_struct|].
  rewrite Hd. destruct (data s) as [|a'|b]; [done| |done].
  destruct (decide (a' = a)) as [->|Hne].
  - erewrite array_at_put_struct_inline by done. rewrite Hsb.
    simpl in Hl. by rewrite Hs in Hl.
  - simpl. by rewrite struct_at_put_struct_ne.
Qed.

Lemma well_formed_elim m a :
  well_formed m a ->
  exists s l, holds m a s l /\
    length (stack_buf s) = Z.to_nat MC_VECTOR_BUFSIZE /\
    0 <= count s <= capacity s /\ 0 < capacity s /\
    ((data s = Inline a /\ heap_buf s = NULL /\ capacity s <= MC_VECTOR_BUFSIZE /\ l = stack_buf s)
     \/ (exists b, data s = Block b /\ heap_buf s = Block b /\
                   Z.of_nat (length l) = capacity s /\ representable (capacity s))).
Proof.
  unfold well_formed, holds. destruct (struct_at m a) as [s|] eqn:Hs; [|done].
  intros (Hsb & Hc & Hpos & Hd). destruct (data s) as [|a'|b] eqn:Hdata; [done| |].
  - destruct Hd as (-> & Hh & Hcap). exists s, (stack_buf s). rewrite Hdata.
    simpl. rewrite Hs. simpl. tauto.
  - destruct Hd as (Hh & Hl). destruct (array_at m (Block b)) as [l|] eqn:Hb; [|done].
    exists s, l. rewrite Hdata. intuition eauto 10.
Qed.

Lemma well_formed_intro m a s l :
  holds m a s l ->
  length (stack_buf s) = Z.to_nat MC_VECTOR_BUFSIZE ->
  0 <= count s <= capacity s -> 0 < capacity s ->
  ((data s = Inline a /\ heap_buf s = NULL /\ capacity s <= MC_VECTOR_BUFSIZE)
   \/ (exists b, data s = Block b /\ heap_buf s = Block b /\
                 Z.of_nat (length l) = capacity s /\ representable (capacity s))) ->
  well_formed m a.
Proof.
  intros [Hs Hl] Hsb Hc Hpos Hd. unfold well_formed. rewrite Hs.
  destruct Hd as [(Hd & Hh & Hcap)|(b & Hd & Hh & Hlen & Hrep)]; rewrite Hd in *.
  - done.
  - by rewrite Hl.
Qed.

Lemma view_of_holds m a s l :
  holds m a s l -> 0 <= count s <= Z.of_nat (length l) ->
  view_of m a = Some (View (count s) (capacity s) (bool_decide (data s <> heap_buf s))
                        (take (Z.to_nat (count s)) l)).
Proof.
  intros [Hs Hl] Hc. unfold view_of, elements. rewrite Hs. simpl. rewrite Hl. simpl.
  by rewrite read_range_prefix by done.
Qed.

Lemma well_formed_count_le m a s l :
  well_formed m a -> holds m a s l -> 0 <= count s <= capacity s /\ capacity s <= Z.of_nat (length l).
Proof.
  intros (s' & l' & [Hs' Hl'] & Hsb & Hc & Hpos & Hd)%well_formed_elim [Hs Hl].
  assert (s' = s) as -> by congruence. assert (l' = l) as -> by congruence.
  split; [done|]. destruct Hd as [(Hd & Hh & Hcap & ->)|(b & Hd & Hh & Hlen & Hrep)].
  - rewrite Hsb. lia.
  - lia.
Qed.

Lemma array_at_put_array_same m p l0 l :
  array_at m p = Some l0 -> array_at (put_array p l m) p = Some l.
Proof.
  destruct p as [|v|b]; [done| |].
  - intros (s & Hs & _)%array_at_inline_struct. unfold put_array. rewrite Hs.
    fold (put_struct v (with_stack_buf l s) m). by erewrite array_at_put_struct_inline.
  - intros H%array_at_lt. simpl. by rewrite list_lookup_insert_eq.
Qed.

Lemma array_at_put_array_ne m p q l :
  p <> q -> array_at (put_array p l m) q = array_at m q.
Proof.
  intros Hne. destruct p as [|v|b]; [done| |].
  - unfold put_array. destruct (struct_at m v) as [s|] eqn:Hs; [|done].
    fold (put_struct v (with_stack_buf l s) m).
    destruct q as [|v'|b']; [done| |done]. simpl.
    by rewrite struct_at_put_struct_ne by congruence.
  - destruct q as [|v'|b']; [done|done|]. simpl.
    by rewrite list_lookup_insert_ne by congruence.
Qed.

Lemma struct_at_put_array m p l a s :
  struct_at m a = Some s ->
  exists s', struct_at (put_array p l m) a = Some s' /\ header s' = header s
             /\ (p <> Inline a -> s' = s).
Proof.
  intros Hs. destruct p as [|v|b]; [by exists s| |by exists s].
  unfold put_array. destruct (struct_at m v) as [s0|] eqn:Hs0; [|by exists s].
  fold (put_struct v (with_stack_buf l s0) m).
  destruct (decide (v = a)) as [->|Hne].
  - exists (with_stack_buf l s0). split; [by eapply struct_at_put_struct|].
    split; [|done]. assert (s0 = s) as -> by congruence. done.
  - exists s. by rewrite struct_at_put_struct_ne.
Qed.

Lemma holds_put_array_other m a s l p l' :
  holds m a s l -> p <> data s ->
  exists s', holds (put_array p l' m) a s' l /\ header s' = header s.
Proof.
  intros [Hs Hl] Hne.
  destruct (struct_at_put_array m p l' a s Hs) as (s' & Hs' & Hhd & _).
  exists s'. split; [split; [done|]|done].
  injection Hhd as _ _ _ ->. by rewrite array_at_put_array_ne.
Qed.

Lemma array_at_put_struct_ne m a s p :
  p <> Inline a -> array_at (put_struct a s m) p = array_at m p.
Proof.
  intros Hne. destruct p as [|a'|b]; [done| |done]. simpl.
  by rewrite struct_at_put_struct_ne by congruence.
Qed.

(** ** Symbolic execution *)

Ltac solve_struct :=
  solve [ repeat first
    [ eassumption
    | rewrite struct_at_set_arrays
    | rewrite struct_at_next_alloc
    | rewrite struct_at_set_errno
    | eapply struct_at_put_struct
    | apply struct_at_new; reflexivity ] ].

Ltac solve_guard :=
  simpl; unfold MC_VECTOR_BUFSIZE in *; first [ done | lia | congruence | intuition (first [ done | lia | congruence ]) ].

Ltac wp_prim :=
  lazymatch goal with
  | |- wp (mret _) _ _ => apply wp_ret
  | |- wp (field _ _) _ _ => eapply wp_field; [solve_struct|]
  | |- wp (assign _ _) _ _ => eapply wp_assign; [solve_struct|]
  | |- wp (stack_buf_ptr _) _ _ => eapply wp_stack_buf_ptr; [solve_struct|]
  | |- wp (raise _) _ _ => apply wp_raise
  | |- wp (if bool_decide _ then _ else _) _ _ =>
      first [ rewrite bool_decide_eq_true_2 by solve_guard
            | rewrite bool_decide_eq_false_2 by solve_guard ]
  end.

(** One step of execution: the first command of the program is run when it
    reads or writes a member, sets [errno], returns, or branches on a guard
    that can be decided. *)
Ltac wp_step :=
  lazymatch goal with
  | |- wp (mbind _ _) _ _ => apply wp_bind; wp_step
  | |- _ => wp_prim
  end.

(** Runs the first command of the program with the rule [lem]. *)
Tactic Notation "wp_apply" uconstr(lem) :=
  lazymatch goal with
  | |- wp (mbind _ _) _ _ => apply wp_bind; eapply lem
  | |- _ => eapply lem
  end.

(** ** Growth *)

Lemma ensure_enough m a s len :
  struct_at m a = Some s -> size_wrap (count s + len) < capacity s ->
  wp (vec_ensure_capacity (Some a) len) m (fun r m' => r = 1 /\ m' = m).
Proof.
  intros Hs Hlt. unfold vec_ensure_capacity.
  repeat wp_step. done.
Qed.

Lemma ensure_grow_inline m a s len :
  struct_at m a = Some s -> heap_buf s = NULL ->
  size_wrap (count s + len) >= capacity s ->
  0 <= capacity s <= Z.of_nat (length (stack_buf s)) ->
  0 <= len -> representable (capacity s * 2 + len) ->
  alloc_ok m = true ->
  wp (vec_ensure_capacity (Some a) len) m (fun r m' =>
    r = 1 /\ grown m a s (stack_buf s) len m').
Proof.
  intros Hs Hh Hge Hcap Hlen Hrep Hok. unfold vec_ensure_capacity.
  assert (Hw : size_wrap (size_wrap (capacity s * 2) + len) = capacity s * 2 + len).
  { apply representable_size in Hrep.
    rewrite (size_wrap_small (capacity s * 2)) by lia. by rewrite size_wrap_small by lia. }
  assert (Hc : representable (capacity s)) by (eapply representable_le; [done|lia]).
  repeat wp_step. cbv zeta. rewrite Hw. repeat wp_step. rewrite Hh.
  change (realloc NULL ?b) with (malloc b).
  wp_apply wp_malloc_ok; [done|].
  repeat wp_step.
  rewrite !cells_of_bytes_of by done.
  wp_apply wp_memcpy; [done| | | | |].
  { simpl. by rewrite struct_at_set_arrays, struct_at_next_alloc, Hs. }
  { rewrite cells_of_bytes_of by done. apply read_range_prefix. lia. }
  { simpl. by rewrite list_lookup_middle. }
  { apply write_range_prefix. rewrite length_take, length_replicate. lia. }
  repeat wp_step.
  split; [done|].
  rewrite !put_struct_put_struct.
  unfold grown, holds. repeat split.
  - erewrite struct_at_put_struct by solve_struct. by destruct s.
  - simpl. rewrite insert_app_r_alt by lia. rewrite Nat.sub_diag. simpl.
    rewrite list_lookup_middle by done. simpl.
    rewrite length_take, drop_replicate. do 3 f_equal. lia.
  - intros a' Ha. by rewrite struct_at_put_struct_ne.
  - intros p x _ Hp. destruct p as [|a'|b]; [done| |].
    + simpl in *. destruct (decide (a' = a)) as [->|].
      * erewrite struct_at_put_struct by solve_struct. by rewrite Hs in Hp.
      * by rewrite struct_at_put_struct_ne.
    + pose proof (array_at_lt _ _ _ Hp). simpl in *.
      rewrite insert_app_r_alt by lia. rewrite Nat.sub_diag. simpl.
      by rewrite lookup_app_l by lia.
Qed.

Lemma ensure_grow_heap m a s b l len :
  struct_at m a = Some s -> heap_buf s = Block b -> array_at m (Block b) = Some l ->
  size_wrap (count s + len) >= capacity s ->
  Z.of_nat (length l) = capacity s ->
  0 <= len -> representable (capacity s * 2 + len) ->
  alloc_ok m = true ->
  wp (vec_ensure_capacity (Some a) len) m (fun r m' =>
    r = 1 /\ grown m a s l len m').
Proof.
  intros Hs Hh Hl Hge Hcap Hlen Hrep Hok. unfold vec_ensure_capacity.
  assert (Hw : size_wrap (size_wrap (capacity s * 2) + len) = capacity s * 2 + len).
  { apply representable_size in Hrep.
    rewrite (size_wrap_small (capacity s * 2)) by lia. by rewrite size_wrap_small by lia. }
  repeat wp_step. cbv zeta. rewrite Hw. repeat wp_step. rewrite Hh.
  wp_apply wp_realloc_ok; [done|done|].
  repeat wp_step.
  rewrite !cells_of_bytes_of by done.
  split; [done|].
  rewrite !put_struct_put_struct.
  pose proof (array_at_lt _ _ _ Hl) as Hb.
  unfold grown, holds. repeat split.
  - erewrite struct_at_put_struct by solve_struct. by destruct s.
  - simpl. rewrite list_lookup_middle by (by rewrite length_insert).
    simpl. rewrite !take_ge by lia. do 3 f_equal. lia.
  - intros a' Ha. by rewrite struct_at_put_struct_ne.
  - intros p x Hne Hp. destruct p as [|a'|b']; [done| |].
    + simpl in *. destruct (decide (a' = a)) as [->|].
      * erewrite struct_at_put_struct by solve_struct. by rewrite Hs in Hp.
      * by rewrite struct_at_put_struct_ne.
    + pose proof (array_at_lt _ _ _ Hp). simpl in *.
      rewrite lookup_app_l by (by rewrite length_insert).
      rewrite list_lookup_insert_ne by congruence. done.
Qed.

Lemma ensure_fail m a s len :
  struct_at m a = Some s ->
  heap_buf s = NULL \/ (exists b l, heap_buf s = Block b /\ array_at m (Block b) = Some l) ->
  size_wrap (count s + len) >= capacity s ->
  alloc_ok m = false ->
  wp (vec_ensure_capacity (Some a) len) m (fun r m' => r = 0 /\ m' = next_alloc m).
Proof.
  intros Hs Hh Hge Hok. unfold vec_ensure_capacity.
  repeat wp_step. cbv zeta. repeat wp_step.
  destruct Hh as [Hh|(b & l & Hh & Hl)]; rewrite Hh.
  - change (realloc NULL ?b) with (malloc b).
    wp_apply wp_malloc_fail; [done|]. by repeat wp_step.
  - wp_apply wp_realloc_fail; [done|done|]. by repeat wp_step.
Qed.

(** ** Pushing *)

(** The tail of [mc_vector_push]: [vec->data[vec->count++] = value]. *)
Lemma push_tail m a s l x :
  holds m a s l -> 0 <= count s < Z.of_nat (length l) -> count s + 1 <= SIZE_MAX ->
  wp (store (data s) (count s) (Some x);;
      assign (Some a) (with_count (size_wrap (count s + 1)));; mret 1) m
    (fun r m' => r = 1 /\
       exists s', holds m' a s' (<[Z.to_nat (count s) := Some x]> l)
         /\ header s' = (count s + 1, capacity s, heap_buf s, data s)
         /\ length (stack_buf s') = length (stack_buf s)
         /\ allocator m' = allocator m /\ errno m' = errno m).
Proof.
  intros Hh Hc Hmax. pose proof Hh as [Hs Hl].
  wp_apply wp_store; [done|lia|].
  destruct (holds_put_array m a s l (<[Z.to_nat (count s) := Some x]> l) Hh)
    as (s' & Hh' & Hhd & Hlen).
  pose proof Hh' as [Hs' Hl'].
  repeat wp_step. split; [done|].
  rewrite size_wrap_small by lia.
  exists (with_count (count s + 1) s'). 
  injection Hhd as Hn Hcap Hhb Hd.
  repeat split.
  - by eapply struct_at_put_struct.
  - eapply holds_put_struct; [done|done|done].
  - unfold header. simpl. congruence.
  - simpl. rewrite Hlen. case_decide as Hdec; [|done].
    rewrite length_insert. rewrite Hdec in Hl. simpl in Hl. rewrite Hs in Hl.
    simpl in Hl. congruence.
  - simpl. apply allocator_put_array.
  - simpl. apply errno_put_array.
Qed.

Lemma take_insert_snoc {A} (l : list A) n x :
  (n < length l)%nat -> take (S n) (<[n := x]> l) = take n l ++ [x].
Proof.
  intros H. erewrite take_S_r by (by apply list_lookup_insert_eq).
  by rewrite take_insert_ge by lia.
Qed.

Lemma push_enough m a v x :
  well_formed m a -> view_of m a = Some v -> v_count v + 1 < v_capacity v ->
  wp (mc_vector_push (Some a) x) m (fun r m' =>
    r = 1 /\ well_formed m' a
    /\ view_of m' a = Some (View (v_count v + 1) (v_capacity v) (v_is_stack v)
                              (v_elements v ++ [Some x]))
    /\ allocator m' = allocator m /\ errno m' = errno m).
Proof.
  intros Hwf Hv Hlt.
  destruct (well_formed_elim _ _ Hwf) as (s & l & Hh & Hsb & Hc & Hpos & Hd).
  destruct (well_formed_count_le _ _ _ _ Hwf Hh) as [_ Hcl].
  rewrite (view_of_holds _ _ _ _ Hh) in Hv by lia. injection Hv as <-. simpl in Hlt.
  assert (Hmax : capacity s <= SIZE_MAX).
  { destruct Hd as [(_ & _ & ? & _)|(b & _ & _ & _ & ?%representable_size)].
    - rewrite SIZE_MAX_eq. unfold MC_VECTOR_BUFSIZE in *. lia.
    - lia. }
  pose proof Hh as [Hs Hl].
  unfold mc_vector_push. repeat wp_step.
  wp_apply wp_mono; [apply (ensure_enough m a s); [done|]|].
  { rewrite size_wrap_small by lia. lia. }
  intros r m' [-> ->]. repeat wp_step.
  eapply wp_mono; [apply (push_tail m a s l); [done|lia|lia]|].
  intros r m' (-> & s' & Hh' & [= Hn' Hc' Hhb' Hd'] & Hsb' & Hal & Herr).
  split; [done|]. split; [|split; [|done]].
  - eapply well_formed_intro; [done|congruence|lia|lia|].
    rewrite Hd', Hhb', Hc', length_insert. done || tauto.
  - rewrite (view_of_holds _ _ _ _ Hh') by (rewrite length_insert; lia).
    simpl. rewrite Hn', Hc', Hd', Hhb'. f_equal. f_equal.
    replace (Z.to_nat (count s + 1)) with (S (Z.to_nat (count s))) by lia.
    apply take_insert_snoc. lia.
Qed.

Lemma push_grow m a v x :
  well_formed m a -> view_of m a = Some v -> v_count v + 1 >= v_capacity v ->
  representable (v_capacity v * 2 + 1) -> alloc_ok m = true ->
  wp (mc_vector_push (Some a) x) m (fun r m' =>
    r = 1 /\ well_formed m' a
    /\ view_of m' a = Some (View (v_count v + 1) (v_capacity v * 2 + 1) false
                              (v_elements v ++ [Some x]))
    /\ allocator m' = tl (allocator m) /\ errno m' = errno m).
Proof.
  intros Hwf Hv Hge Hrep Hok.
  destruct (well_formed_elim _ _ Hwf) as (s & l & Hh & Hsb & Hc & Hpos & Hd).
  destruct (well_formed_count_le _ _ _ _ Hwf Hh) as [_ Hcl].
  rewrite (view_of_holds _ _ _ _ Hh) in Hv by lia. injection Hv as <-.
  simpl in Hge, Hrep. pose proof (representable_size _ Hrep) as Hmax.
  pose proof Hh as [Hs Hl].
  unfold mc_vector_push. repeat wp_step.
  assert (Hgrow : wp (vec_ensure_capacity (Some a) 1) m
                    (fun r m' => r = 1 /\ grown m a s l 1 m')).
  { destruct Hd as [(Hd & Hhb & Hcap & ->)|(b & Hd & Hhb & Hlen & _)].
    - apply ensure_grow_inline; try done.
      + rewrite size_wrap_small by lia. lia.
      + rewrite Hsb. unfold MC_VECTOR_BUFSIZE in *. lia.
    - rewrite Hd in Hl. eapply ensure_grow_heap; try done.
      rewrite size_wrap_small by lia. lia. }
  wp_apply wp_mono; [exact Hgrow|]. clear Hgrow.
  intros r m1 (-> & Hh1 & Hal1 & Herr1 & _).
  pose proof Hh1 as [Hs1 _]. repeat wp_step. simpl.
  eapply wp_mono; [refine (push_tail m1 a _ _ x Hh1 _ _)|]; simpl.
  { rewrite length_app, length_take, length_replicate. lia. }
  { lia. }
  intros r m' (-> & s' & Hh' & [= Hn' Hc' Hhb' Hd'] & Hsb' & Hal & Herr).
  simpl in *. split; [done|]. split; [|split; [|split; congruence]].
  - eapply well_formed_intro; [done|congruence|lia|lia|].
    right. eexists. split; [done|]. split; [done|]. split; [|by rewrite Hc'].
    rewrite length_insert, length_app, length_take, length_replicate. lia.
  - rewrite (view_of_holds _ _ _ _ Hh').
    2:{ rewrite length_insert, length_app, length_take, length_replicate. lia. }
    rewrite Hn', Hc', Hd', Hhb'. rewrite bool_decide_eq_false_2 by tauto.
    f_equal. f_equal.
    replace (Z.to_nat (count s + 1)) with (S (Z.to_nat (count s))) by lia.
    rewrite take_insert_snoc by (rewrite length_app, length_take, length_replicate; lia).
    f_equal. rewrite take_app_le by (rewrite length_take; lia).
    rewrite take_take. f_equal. lia.
Qed.

Lemma push_fail m a v x :
  well_formed m a -> view_of m a = Some v -> v_count v + 1 >= v_capacity v ->
  alloc_ok m = false ->
  wp (mc_vector_push (Some a) x) m (fun r m' =>
    r = 0 /\ m' = set_errno ENOMEM (next_alloc m)).
Proof.
  intros Hwf Hv Hge Hok.
  destruct (well_formed_elim _ _ Hwf) as (s & l & Hh & Hsb & Hc & Hpos & Hd).
  destruct (well_formed_count_le _ _ _ _ Hwf Hh) as [_ Hcl].
  rewrite (view_of_holds _ _ _ _ Hh) in Hv by lia. injection Hv as <-.
  simpl in Hge. pose proof Hh as [Hs Hl].
  assert (Hmax : capacity s < SIZE_MAX).
  { destruct Hd as [(_ & _ & ? & _)|(b & _ & _ & _ & ?)].
    - rewrite SIZE_MAX_eq. unfold MC_VECTOR_BUFSIZE in *. lia.
    - unfold representable, sizeof_long in *. lia. }
  unfold mc_vector_push. repeat wp_step.
  wp_apply wp_mono; [apply (ensure_fail m a s 1); try done|].
  { destruct Hd as [(Hd & Hhb & _)|(b & Hd & Hhb & _)]; [by left|].
    right. exists b, l. by rewrite Hd in Hl. }
  { rewrite size_wrap_small by lia. lia. }
  intros r m' [-> ->]. by repeat wp_step.
Qed.

(** ** Construction *)

Lemma alloc_ok_next k m :
  allocs_succeed (S k) m = true -> alloc_ok m = true /\ allocs_succeed k (next_alloc m) = true.
Proof.
  unfold allocs_succeed, alloc_ok, next_alloc. simpl.
  destruct (allocator m) as [|b bs]; simpl.
  - by rewrite take_nil.
  - by intros [? ?]%andb_true_iff.
Qed.

Lemma make_inline m cap :
  0 < cap <= MC_VECTOR_BUFSIZE -> alloc_ok m = true ->
  wp (mc_vector_make cap) m (fun r m' =>
    let a := length (vectors m) in
    r = Some a /\ well_formed m' a
    /\ view_of m' a = Some (View 0 MC_VECTOR_BUFSIZE true [])
    /\ allocator m' = tl (allocator m) /\ errno m' = errno m
    /\ (forall s, struct_at m' a = Some s -> array_at m (data s) = None)
    /\ (forall p x, array_at m p = Some x -> array_at m' p = Some x)
    /\ (forall a', a' <> a -> struct_at m' a' = struct_at m a')).
Proof.
  intros Hcap Hok. unfold mc_vector_make. repeat wp_step.
  wp_apply wp_malloc_struct_ok; [done|].
  repeat wp_step. rewrite !put_struct_put_struct. simpl.
  set (a := length (vectors m)).
  set (s := Vector_s 0 MC_VECTOR_BUFSIZE (replicate (Z.to_nat MC_VECTOR_BUFSIZE) None)
              NULL (Inline a)).
  set (m1 := set_vectors _ _).
  assert (Hs1 : struct_at m1 a = Some (Vector_s 0 0 (replicate (Z.to_nat MC_VECTOR_BUFSIZE) None) NULL NULL))
    by (by apply struct_at_new).
  assert (Hh : holds (put_struct a s m1) a s (stack_buf s)).
  { split; [by eapply struct_at_put_struct|]. by erewrite array_at_put_struct_inline. }
  change (put_struct a _ m1) with (put_struct a s m1).
  split; [done|]. split; [|split; [|repeat split]].
  - eapply well_formed_intro; [exact Hh|done|done|done|]. left. done.
  - by rewrite (view_of_holds _ _ _ _ Hh).
  - intros s' Hs'. destruct Hh as [Hs _]. assert (s' = s) as -> by congruence.
    simpl. unfold struct_at. by rewrite lookup_ge_None_2.
  - intros p x Hp. destruct p as [|a'|b']; [done| |done].
    destruct (array_at_inline_struct _ _ _ Hp) as (s' & Hs' & <-).
    pose proof (struct_at_lt _ _ _ Hs') as Hlt. simpl.
    rewrite struct_at_put_struct_ne by (unfold a; lia).
    subst m1. rewrite struct_at_new_ne by (simpl; lia).
    by rewrite struct_at_next_alloc, Hs'.
  - intros a' Hne. rewrite struct_at_put_struct_ne by done.
    subst m1. by rewrite struct_at_new_ne.
Qed.

Lemma make_heap m cap :
  MC_VECTOR_BUFSIZE < cap -> representable cap -> allocs_succeed 2 m = true ->
  wp (mc_vector_make cap) m (fun r m' =>
    let a := length (vectors m) in
    r = Some a /\ well_formed m' a
    /\ view_of m' a = Some (View 0 cap false [])
    /\ allocator m' = tl (tl (allocator m)) /\ errno m' = errno m
    /\ (forall s, struct_at m' a = Some s -> array_at m (data s) = None)
    /\ (forall p x, array_at m p = Some x -> array_at m' p = Some x)
    /\ (forall a', a' <> a -> struct_at m' a' = struct_at m a')).
Proof.
  intros Hcap Hrep [Hok1 [Hok2 _]%alloc_ok_next]%alloc_ok_next.
  unfold mc_vector_make. repeat wp_step.
  wp_apply wp_malloc_struct_ok; [done|].
  repeat wp_step.
  wp_apply wp_malloc_ok; [done|].
  repeat wp_step. rewrite !put_struct_put_struct. simpl.
  rewrite cells_of_bytes_of by done.
  set (a := length (vectors m)). set (b := length (arrays m)).
  set (s := Vector_s 0 cap (replicate (Z.to_nat MC_VECTOR_BUFSIZE) None) (Block b) (Block b)).
  set (m1 := set_arrays _ _).
  assert (Hs1 : struct_at m1 a = Some (Vector_s 0 0 (replicate (Z.to_nat MC_VECTOR_BUFSIZE) None) NULL NULL))
    by (by apply struct_at_new).
  assert (Hh : holds (put_struct a s m1) a s (replicate (Z.to_nat cap) None)).
  { split; [by eapply struct_at_put_struct|]. simpl. by rewrite list_lookup_middle. }
  change (put_struct a _ m1) with (put_struct a s m1).
  pose proof Hrep as [Hrep0 Hrep1].
  split; [done|]. split; [|split; [|repeat split]].
  - eapply well_formed_intro; [exact Hh|done|simpl; lia|simpl; unfold MC_VECTOR_BUFSIZE in *; lia|].
    right. exists b. simpl. rewrite length_replicate. repeat split; first [done | lia].
  - rewrite (view_of_holds _ _ _ _ Hh) by (simpl; lia). simpl.
    by rewrite bool_decide_eq_false_2 by tauto.
  - intros s' Hs'. destruct Hh as [Hs _]. assert (s' = s) as -> by congruence.
    simpl. by rewrite lookup_ge_None_2.
  - intros p x Hp. destruct p as [|a'|b']; [done| |].
    + destruct (array_at_inline_struct _ _ _ Hp) as (s' & Hs' & <-).
      pose proof (struct_at_lt _ _ _ Hs') as Hlt. simpl.
      rewrite struct_at_put_struct_ne by (unfold a; lia).
      subst m1.
      rewrite struct_at_set_arrays, struct_at_next_alloc, struct_at_new_ne by (simpl; lia).
      by rewrite struct_at_next_alloc, Hs'.
    + pose proof (array_at_lt _ _ _ Hp). simpl in *. by rewrite lookup_app_l.
  - intros a' Hne. rewrite struct_at_put_struct_ne by done.
    subst m1.
    by rewrite struct_at_set_arrays, struct_at_next_alloc, struct_at_new_ne.
Qed.

(** ** Observers *)

Lemma view_of_struct m a v :
  view_of m a = Some v ->
  exists s, struct_at m a = Some s /\ v_count v = count s /\ v_capacity v = capacity s
            /\ v_is_stack v = bool_decide (data s <> heap_buf s).
Proof.
  unfold view_of. destruct (struct_at m a) as [s|]; [|done]. simpl.
  destruct (elements m a); [|done]. intros [= <-]. by exists s.
Qed.

Lemma wp_exact {A} (c : M A) m x m0 :
  wp c m (fun r m' => r = x /\ m' = m0) -> c m = Some (x, m0).
Proof. intros (r & m' & -> & -> & ->)%wp_run. done. Qed.

Lemma observe_view m a v :
  view_of m a = Some v ->
  observe (Some a) m
  = Some ((v_count v, v_capacity v, if v_is_stack v then 1 else 0), m).
Proof.
  intros (s & Hs & -> & -> & ->)%view_of_struct. apply wp_exact.
  unfold observe, mc_vector_size, mc_vector_capacity, mc_vector_is_stack.
  by repeat wp_step.
Qed.

Lemma push_list_enough xs : forall m a v,
  well_formed m a -> view_of m a = Some v ->
  v_count v + Z.of_nat (length xs) < v_capacity v ->
  wp (push_list (Some a) xs) m (fun r m' =>
    r = 1 /\ well_formed m' a
    /\ view_of m' a = Some (View (v_count v + Z.of_nat (length xs)) (v_capacity v)
                              (v_is_stack v) (v_elements v ++ (Some <$> xs)))
    /\ allocator m' = allocator m /\ errno m' = errno m).
Proof.
  induction xs as [|x xs IH]; intros m a v Hwf Hv Hlt; simpl.
  - apply wp_ret. rewrite Z.add_0_r, app_nil_r. by destruct v.
  - wp_apply wp_mono; [apply (push_enough m a v x); [done|done|]|].
    { simpl in Hlt. lia. }
    intros r m1 (-> & Hwf1 & Hv1 & Hal1 & Herr1). wp_step.
    eapply wp_mono; [apply (IH m1 a _ Hwf1 Hv1)|]; simpl.
    { simpl in Hlt. lia. }
    intros r m2 (-> & Hwf2 & Hv2 & Hal2 & Herr2).
    split; [done|]. split; [done|]. split; [|split; congruence].
    rewrite Hv2. f_equal. f_equal; [lia|]. by rewrite <- app_assoc.
Qed.

(** ** Copying out *)

(** The loop of [mc_vector_extract]. *)
Lemma extract_loop a l out index k : forall i m buf s,
  holds m a s l -> array_at m out = Some buf -> out <> data s ->
  0 <= index <= i -> i + Z.of_nat k <= Z.of_nat (length l) ->
  i - index + Z.of_nat k <= Z.of_nat (length buf) ->
  wp (for_loop_from i k (fun i =>
        d ← field data (Some a);
        x ← load d i;
        store out (i - index) x)) m
    (fun _ m' =>
       (exists s', holds m' a s' l /\ header s' = header s)
       /\ array_at m' out
          = Some (take (Z.to_nat (i - index)) buf ++ take k (drop (Z.to_nat i) l)
                  ++ drop (Z.to_nat (i - index) + k) buf)
       /\ allocator m' = allocator m /\ errno m' = errno m).
Proof.
  induction k as [|k IH]; intros i m buf s Hh Hout Hne Hi Hl Hbuf; simpl.
  - apply wp_ret. split; [by exists s|]. split; [|done].
    rewrite Nat.add_0_r. by rewrite take_drop.
  - pose proof Hh as [Hs Hd].
    destruct (lookup_lt_is_Some_2 l (Z.to_nat i)) as [x Hx]; [lia|].
    repeat wp_step.
    wp_apply wp_load; [done|lia|done|].
    wp_apply wp_store; [done|lia|].
    set (buf' := <[Z.to_nat (i - index) := x]> buf).
    destruct (holds_put_array_other m a s l out buf' Hh Hne) as (s' & Hh' & Hhd').
    assert (Hd' : data s' = data s) by (by injection Hhd').
    eapply wp_mono.
    { eapply (IH (i + 1) _ buf' s' Hh').
      - by eapply array_at_put_array_same.
      - congruence.
      - lia.
      - lia.
      - unfold buf'. rewrite length_insert. lia. }
    intros _ m' ((s'' & Hh'' & Hhd'') & Hout' & Hal & Herr).
    split; [exists s''; split; [done|congruence]|].
    rewrite Hal, Herr, allocator_put_array, errno_put_array. split; [|done].
    rewrite Hout'. f_equal. unfold buf'.
    replace (Z.to_nat (i + 1 - index)) with (S (Z.to_nat (i - index))) by lia.
    replace (Z.to_nat (i + 1)) with (S (Z.to_nat i)) by lia.
    rewrite take_insert_snoc by lia.
    rewrite drop_insert_lt by lia.
    rewrite <- app_assoc. f_equal. simpl.
    erewrite (drop_S l x (Z.to_nat i)) by done. simpl.
    do 2 f_equal. f_equal. lia.
Qed.

Lemma size_wrap_add i n : 0 <= i -> 0 <= n -> i + n <= SIZE_MAX -> size_wrap (i + n) = i + n.
Proof. intros. apply size_wrap_small. lia. Qed.

Lemma extract_spec m a s l out buf index len :
  holds m a s l -> array_at m out = Some buf -> out <> data s ->
  0 <= index -> 0 < len -> index + len <= count s ->
  count s <= Z.of_nat (length l) -> count s <= SIZE_MAX ->
  len <= Z.of_nat (length buf) ->
  wp (mc_vector_extract (Some a) out index len) m (fun r m' =>
    r = to_int len
    /\ (exists s', holds m' a s' l /\ header s' = header s)
    /\ array_at m' out
       = Some (take (Z.to_nat len) (drop (Z.to_nat index) l) ++ drop (Z.to_nat len) buf)
    /\ allocator m' = allocator m /\ errno m' = errno m).
Proof.
  intros Hh Hout Hne Hi Hlen Hc Hl Hmax Hbuf. pose proof Hh as [Hs Hd].
  unfold mc_vector_extract.
  rewrite bool_decide_eq_false_2.
  2:{ intros [?|?]; [done|]. subst out. done. }
  repeat wp_step. rewrite size_wrap_small by lia.
  rewrite bool_decide_eq_false_2 by lia.
  unfold for_loop. replace (Z.to_nat (index + len - index)) with (Z.to_nat len) by lia.
  wp_apply wp_mono; [eapply (extract_loop a l out index _ index m buf s); try done; lia|].
  intros _ m' (Hh' & Hout' & Hal & Herr). wp_step.
  split; [done|]. split; [done|]. split; [|done].
  rewrite Hout'. f_equal. rewrite Z.sub_diag. simpl. done.
Qed.

Lemma to_array_spec m a s l out buf :
  holds m a s l -> array_at m out = Some buf -> out <> data s ->
  0 < count s -> count s <= Z.of_nat (length l) -> count s <= SIZE_MAX ->
  count s <= Z.of_nat (length buf) ->
  wp (mc_vector_to_array (Some a) out) m (fun r m' =>
    r = to_int (count s)
    /\ (exists s', holds m' a s' l /\ header s' = header s)
    /\ array_at m' out = Some (take (Z.to_nat (count s)) l ++ drop (Z.to_nat (count s)) buf)
    /\ allocator m' = allocator m /\ errno m' = errno m).
Proof.
  intros Hh Hout Hne Hpos Hl Hmax Hbuf. pose proof Hh as [Hs Hd].
  unfold mc_vector_to_array. wp_step.
  eapply wp_mono; [eapply (extract_spec m a s l out buf 0 (count s)); try done; lia|].
  intros r m' (-> & Hh' & Hout' & Hal & Herr). done.
Qed.

(** ** Scenario A *)

(** C1, amended. A vector made with requested capacity 5 reports capacity 10.
    After nine successful pushes it still uses its inline buffer
    ([mc_vector_is_stack] returns 1) and holds nine elements. The tenth push
    moves it to an allocated buffer of capacity 21; the eleventh leaves the
    capacity at 21, with eleven elements. This holds from any store in which
    the two allocations involved succeed, and for any values pushed. *)
Theorem scenario_A_growth (m : memory) (xs : list Z) (y z : Z) :
  length xs = 9%nat -> allocs_succeed 2 m = true ->
  exists v m1 m2 m3 m4,
    mc_vector_make 5 m = Some (v, m1)
    /\ result (observe v) m1 = Some (0, 10, 1)
    /\ push_list v xs m1 = Some (1, m2)
    /\ result (observe v) m2 = Some (9, 10, 1)
    /\ mc_vector_push v y m2 = Some (1, m3)
    /\ result (observe v) m3 = Some (10, 21, 0)
    /\ mc_vector_push v z m3 = Some (1, m4)
    /\ result (observe v) m4 = Some (11, 21, 0).
Proof.
  intros Hlen [Hok1 [Hok2 _]%alloc_ok_next]%alloc_ok_next.
  destruct (proj1 (wp_run _ _ _) (make_inline m 5 ltac:(done) Hok1))
    as (v & m1 & Hmake & -> & Hwf1 & Hv1 & Hal1 & _).
  set (a := length (vectors m)) in *. unfold MC_VECTOR_BUFSIZE in Hv1.
  destruct (proj1 (wp_run _ _ _)
              (push_list_enough xs m1 a _ Hwf1 Hv1 ltac:(simpl; rewrite Hlen; lia)))
    as (r2 & m2 & Hpush2 & -> & Hwf2 & Hv2 & Hal2 & _).
  simpl in Hv2. rewrite Hlen in Hv2.
  assert (Hok3 : alloc_ok m2 = true).
  { unfold alloc_ok, next_alloc in *. simpl in Hok2. congruence. }
  destruct (proj1 (wp_run _ _ _)
              (push_grow m2 a _ y Hwf2 Hv2 ltac:(simpl; lia) ltac:(done) Hok3))
    as (r3 & m3 & Hpush3 & -> & Hwf3 & Hv3 & _).
  destruct (proj1 (wp_run _ _ _) (push_enough m3 a _ z Hwf3 Hv3 ltac:(simpl; lia)))
    as (r4 & m4 & Hpush4 & -> & Hwf4 & Hv4 & _).
  exists (Some a), m1, m2, m3, m4. unfold result.
  rewrite (observe_view _ _ _ Hv1), (observe_view _ _ _ Hv2),
    (observe_view _ _ _ Hv3), (observe_view _ _ _ Hv4).
  done.
Qed.

Lemma scenario_A_growth_witness :
  exists v m1 m2 m3 m4,
    mc_vector_make 5 empty_memory = Some (v, m1)
    /\ result (observe v) m1 = Some (0, 10, 1)
    /\ push_list v [1; 2; 3; 4; 5; 6; 7; 8; 9] m1 = Some (1, m2)
    /\ result (observe v) m2 = Some (9, 10, 1)
    /\ mc_vector_push v 10 m2 = Some (1, m3)
    /\ result (observe v) m3 = Some (10, 21, 0)
    /\ mc_vector_push v 11 m3 = Some (1, m4)
    /\ result (observe v) m4 = Some (11, 21, 0).
Proof.
  apply (scenario_A_growth empty_memory [1; 2; 3; 4; 5; 6; 7; 8; 9] 10 11);
    reflexivity.
Defined.

(** ** The capacity floor *)

(** C2: [mc_vector_from_array] overwrites the capacity [mc_vector_make] has
    set. Built from the three-element array [1, 2, 3], the vector uses its
    inline buffer and reports capacity 6, below [MC_VECTOR_BUFSIZE]. The
    deficit persists through growth: built from a one-element array and
    pushed to once, the vector has an allocated buffer of capacity 5, and
    resizing that vector to 8 copies eight elements out of the buffer of
    five, which is undefined. *)
Lemma from_array_capacity_below_floor :
  result (v ← mc_vector_from_array (Block 0) 3; observe v)
    (array_memory [Some 1; Some 2; Some 3]) = Some (3, 6, 1)
  /\ result (v ← mc_vector_from_array (Block 0) 1; mc_vector_push v 2;; observe v)
       (array_memory [Some 1]) = Some (2, 5, 0)
  /\ 6 < MC_VECTOR_BUFSIZE /\ 5 < MC_VECTOR_BUFSIZE
  /\ (v ← mc_vector_from_array (Block 0) 1; mc_vector_push v 2;; mc_vector_resize v 8)
       (array_memory [Some 1]) = None.
Proof. repeat split; vm_compute; reflexivity. Qed.

(** ** Insertion followed by removal *)

(** C3: at the last live position [mc_vector_insert] appends instead of
    inserting. On [1, 2, 3], inserting 9 at index 2 gives [1, 2, 3, 9];
    removing index 2 then gives [1, 2, 9], not the original [1, 2, 3]. *)
Lemma insert_remove_at_last_position :
  result (v ← mc_vector_make 5;
          push_list v [1; 2; 3];;
          before ← contents v;
          r1 ← mc_vector_insert v 2 9;
          between ← contents v;
          r2 ← mc_vector_remove v 2;
          after ← contents v;
          mret (before, r1, between, r2, after)) empty_memory
  = Some (Some [Some 1; Some 2; Some 3], 1,
          Some [Some 1; Some 2; Some 3; Some 9], 1,
          Some [Some 1; Some 2; Some 9]).
Proof. vm_compute. reflexivity. Qed.

(** ** Swapping *)

(** C4: [mc_vector_swap] exchanges [count], [capacity] and [data], and leaves
    [heap_buf] and [stack_buf] where they are. Swapping a vector [v1] that
    uses an allocated buffer with a vector [v2] that uses its inline buffer
    leaves [v2] with [v1]'s elements, count and capacity, but
    [mc_vector_is_stack v2] returns 1 where [v1] had 0; the allocated buffer
    is still the [heap_buf] of [v1], so that destroying [v1] releases the
    buffer [v2] reads from. *)
Lemma swap_leaves_ownership_behind :
  result (v1 ← mc_vector_make 20; push_list v1 [1; 2; 3];;
          v2 ← mc_vector_make 5; push_list v2 [7];;
          before1 ← observe v1; before2 ← observe v2;
          r ← mc_vector_swap v1 v2;
          after1 ← observe v1; after2 ← observe v2;
          elems2 ← contents v2;
          d2 ← field data v2; o2 ← field heap_buf v2; o1 ← field heap_buf v1;
          mret (before1, before2, r, after1, after2, elems2, d2, o2, o1)) empty_memory
  = Some ((3, 20, 0), (1, 10, 1), 1, (1, 10, 1), (3, 20, 1),
          Some [Some 1; Some 2; Some 3], Block 0, NULL, Block 0)
  /\ (v1 ← mc_vector_make 20; push_list v1 [1; 2; 3];;
      v2 ← mc_vector_make 5; push_list v2 [7];;
      mc_vector_swap v1 v2;;
      mc_vector_free v1;;
      mc_vector_get_unchecked v2 0) empty_memory = None.
Proof. split; vm_compute; reflexivity. Qed.

(** ** Insertion of several elements *)

(** C5: at the last live position [mc_vector_inserts] skips the shift. On
    [1, 2, 3] with capacity 10, inserting the array [7, 8] at index 2
    satisfies [index + length < capacity]; the call returns 2 and the count
    becomes 5, but the element 3 is overwritten and the last live slot was
    never written. Past the live elements (index 4) the call is undefined. *)
Lemma inserts_at_last_position_overwrites :
  result (v ← mc_vector_make 5;
          push_list v [1; 2; 3];;
          r ← mc_vector_inserts v 2 (Block 0) 2;
          after ← contents v;
          mret (r, after)) (array_memory [Some 7; Some 8])
  = Some (2, Some [Some 1; Some 2; Some 7; Some 8; None])
  /\ (v ← mc_vector_make 5;
      push_list v [1; 2; 3];;
      mc_vector_inserts v 4 (Block 0) 2) (array_memory [Some 7; Some 8]) = None.
Proof. split; vm_compute; reflexivity. Qed.

(** ** Allocation failure *)

(** C6: when a vector that uses its inline buffer is resized beyond
    [MC_VECTOR_BUFSIZE] and [malloc] fails, [mc_vector_resize] returns 0 and
    leaves the vector as it was, but sets [errno] to [EINVAL]; the sibling
    branch, where [realloc] fails, sets [ENOMEM]. *)
Lemma resize_malloc_failure_sets_EINVAL :
  (v ← mc_vector_make 5; push_list v [1; 2; 3];;
   before ← observe v; elems ← contents v;
   r ← mc_vector_resize v 20;
   after ← observe v; elems' ← contents v;
   m ← get_mem;
   mret (before, elems, r, after, elems', errno m))
    (Memory [] [] None [true; false])
  = Some (((3, 10, 1), Some [Some 1; Some 2; Some 3], 0,
           (3, 10, 1), Some [Some 1; Some 2; Some 3], Some EINVAL),
          Memory [Some (Vector_s 3 10
                          [Some 1; Some 2; Some 3; None; None; None; None; None; None; None]
                          NULL (Inline 0))]
            [] (Some EINVAL) [])
  /\ result (v ← mc_vector_make 20; push_list v [1; 2; 3];;
             r ← mc_vector_resize v 40;
             m ← get_mem;
             mret (r, errno m))
       (Memory [] [] None [true; true; false])
     = Some (0, Some ENOMEM).
Proof. split; vm_compute; reflexivity. Qed.

(** ** Building from an array *)

Lemma from_array_spec m src l n :
  array_at m src = Some l -> 0 < n <= Z.of_nat (length l) ->
  representable (2 * n) -> allocs_succeed 2 m = true ->
  wp (mc_vector_from_array src n) m (fun r m' =>
    let a := length (vectors m) in
    r = Some a /\
    exists s' l', holds m' a s' l'
      /\ count s' = n /\ capacity s' = 2 * n
      /\ take (Z.to_nat n) l' = take (Z.to_nat n) l
      /\ n <= Z.of_nat (length l')
      /\ array_at m (data s') = None
      /\ (forall p x, array_at m p = Some x -> array_at m' p = Some x)).
Proof.
  intros Hsrc Hn Hrep Hallocs.
  pose proof (representable_size _ Hrep) as Hmax.
  assert (Hrepn : representable n) by (eapply representable_le; [done|lia]).
  unfold mc_vector_from_array.
  rewrite bool_decide_eq_false_2 by (by intros ->).
  repeat wp_step. rewrite size_wrap_small by lia.
  replace (n * 2) with (2 * n) by lia.
  set (a := length (vectors m)).
  assert (Hmake : wp (mc_vector_make (2 * n)) m (fun r m' =>
            r = Some a /\ well_formed m' a
            /\ (exists v, view_of m' a = Some v /\ 2 * n <= v_capacity v)
            /\ (forall s, struct_at m' a = Some s -> array_at m (data s) = None)
            /\ (forall p x, array_at m p = Some x -> array_at m' p = Some x))).
  { destruct (decide (2 * n <= MC_VECTOR_BUFSIZE)) as [Hle|Hgt].
    - eapply wp_mono; [apply make_inline; [lia|by apply alloc_ok_next in Hallocs as [? _]]|].
      intros r m' (-> & Hwf & Hv & _ & _ & Hfresh & Hframe & _). eauto 10.
    - eapply wp_mono; [apply make_heap; [lia|done|done]|].
      intros r m' (-> & Hwf & Hv & _ & _ & Hfresh & Hframe & _).
      split; [done|]. split; [done|]. split; [|done]. eexists. split; [done|]. simpl. lia. }
  wp_apply wp_mono; [exact Hmake|]. clear Hmake.
  intros r m1 (-> & Hwf & (v & Hv & Hcapv) & Hfresh & Hframe).
  destruct (well_formed_elim _ _ Hwf) as (s1 & l1 & Hh1 & Hsb1 & Hc1 & Hpos1 & Hd1).
  pose proof Hh1 as [Hs1 Hl1].
  pose proof (well_formed_count_le _ _ _ _ Hwf Hh1) as [_ Hcl1].
  destruct (view_of_struct _ _ _ Hv) as (s1' & Hs1' & _ & Hcv & _).
  assert (s1' = s1) as -> by congruence. rewrite Hcv in Hcapv.
  pose proof (Hfresh _ Hs1) as Hfresh1.
  repeat wp_step.
  wp_apply wp_memcpy.
  { intros Heq. rewrite Heq in Hfresh1. congruence. }
  { by apply Hframe. }
  { rewrite cells_of_bytes_of by done. apply read_range_prefix. lia. }
  { done. }
  { apply write_range_prefix. rewrite length_take. lia. }
  set (l2 := take (Z.to_nat n) l ++ drop (length (take (Z.to_nat n) l)) l1).
  destruct (holds_put_array m1 a s1 l1 l2 Hh1) as (s2 & Hh2 & Hhd2 & _).
  pose proof Hh2 as [Hs2 Hl2]. injection Hhd2 as Hn2 Hc2 Hhb2 Hd2.
  repeat wp_step. rewrite put_struct_put_struct.
  split; [done|].
  exists (with_count n (with_capacity (2 * n) s2)), l2.
  split; [by eapply holds_put_struct|].
  split; [done|]. split; [simpl; lia|].
  split; [unfold l2; by rewrite take_app_le, take_take, Nat.min_id by (rewrite length_take; lia)|].
  split; [unfold l2; rewrite length_app, length_take, length_drop; lia|].
  split; [simpl; congruence|].
  intros p x Hp.
  assert (p <> data s1) by (intros ->; congruence).
  assert (p <> Inline a).
  { intros ->. simpl in Hp. unfold struct_at in Hp. by rewrite lookup_ge_None_2 in Hp. }
  rewrite array_at_put_struct_ne by done.
  rewrite array_at_put_array_ne by done. by apply Hframe.
Qed.

Lemma size_struct m a s :
  struct_at m a = Some s -> result (mc_vector_size (Some a)) m = Some (count s).
Proof.
  intros Hs. unfold result. erewrite wp_exact; [done|].
  unfold mc_vector_size. by repeat wp_step.
Qed.

Lemma capacity_struct m a s :
  struct_at m a = Some s -> result (mc_vector_capacity (Some a)) m = Some (capacity s).
Proof.
  intros Hs. unfold result. erewrite wp_exact; [done|].
  unfold mc_vector_capacity. by repeat wp_step.
Qed.

Lemma elements_holds m a s l :
  holds m a s l -> 0 <= count s <= Z.of_nat (length l) ->
  elements m a = Some (take (Z.to_nat (count s)) l).
Proof.
  intros [Hs Hl] Hc. unfold elements. rewrite Hs. simpl. rewrite Hl. simpl.
  by apply read_range_prefix.
Qed.

(** C7: for a source array of at least [n] elements, [n > 0],
    [mc_vector_from_array (src, n)] builds a vector whose count is [n], whose
    capacity is exactly [2 * n] and whose live elements are the first [n]
    elements of the source; [mc_vector_to_array] then copies exactly these
    into the caller's buffer. The two allocations involved are supposed to
    succeed, and an array of [2 * n] elements to be representable. *)
Theorem from_array_to_array (m : memory) (src out : ptr) (l buf : list cell) (n : Z) :
  array_at m src = Some l -> 0 < n <= Z.of_nat (length l) ->
  array_at m out = Some buf -> n <= Z.of_nat (length buf) ->
  representable (2 * n) -> allocs_succeed 2 m = true ->
  exists a m1 m2,
    mc_vector_from_array src n m = Some (Some a, m1)
    /\ result (mc_vector_size (Some a)) m1 = Some n
    /\ result (mc_vector_capacity (Some a)) m1 = Some (2 * n)
    /\ elements m1 a = Some (take (Z.to_nat n) l)
    /\ mc_vector_to_array (Some a) out m1 = Some (to_int n, m2)
    /\ array_at m2 out = Some (take (Z.to_nat n) l ++ drop (Z.to_nat n) buf).
Proof.
  intros Hsrc Hn Hout Hbuf Hrep Hallocs.
  destruct (proj1 (wp_run _ _ _) (from_array_spec m src l n Hsrc Hn Hrep Hallocs))
    as (r & m1 & Hrun & -> & s1 & l1 & Hh1 & Hc1 & Hcap1 & Htake & Hlen1 & Hfresh & Hframe).
  pose proof Hh1 as [Hs1 Hl1].
  pose proof (representable_size _ Hrep) as Hmax.
  assert (Hne : out <> data s1) by (intros ->; congruence).
  destruct (proj1 (wp_run _ _ _)
              (to_array_spec m1 _ s1 l1 out buf Hh1 (Hframe _ _ Hout) Hne
                 ltac:(lia) ltac:(lia) ltac:(lia) ltac:(lia)))
    as (r2 & m2 & Hrun2 & -> & _ & Hout2 & _).
  eexists _, m1, m2. rewrite Hrun, Hrun2, Hout2, Hc1, Htake.
  rewrite (size_struct _ _ _ Hs1), (capacity_struct _ _ _ Hs1), Hc1, Hcap1.
  rewrite (elements_holds _ _ _ _ Hh1) by lia. rewrite Hc1, Htake. done.
Qed.

Lemma from_array_to_array_witness :
  exists a m1 m2,
    mc_vector_from_array (Block 0) 3 scenario_B_memory = Some (Some a, m1)
    /\ result (mc_vector_size (Some a)) m1 = Some 3
    /\ result (mc_vector_capacity (Some a)) m1 = Some 6
    /\ elements m1 a = Some [Some 1; Some 2; Some 3]
    /\ mc_vector_to_array (Some a) (Block 1) m1 = Some (3, m2)
    /\ array_at m2 (Block 1) = Some [Some 1; Some 2; Some 3].
Proof.
  apply (from_array_to_array scenario_B_memory (Block 0) (Block 1)
           [Some 1; Some 2; Some 3] [None; None; None] 3);
    first [ reflexivity | done | vm_compute; intuition discriminate ].
Defined.

(** ** Resizing *)

Lemma undefined_bind {A B} (c : M A) (k : A -> M B) m :
  wp c m (fun x m' => k x m' = None) -> (c ≫= k) m = None.
Proof.
  unfold wp, mbind, M_bind. by destruct (c m) as [[x m']|].
Qed.

Lemma undefined_bind_l {A B} (c : M A) (k : A -> M B) m :
  c m = None -> (c ≫= k) m = None.
Proof. unfold mbind, M_bind. by intros ->. Qed.

Lemma memcpy_undefined dst doff src soff bytes ls m :
  array_at m src = Some ls -> read_range ls soff (cells_of bytes) = None ->
  memcpy dst doff src soff bytes m = None.
Proof.
  intros Hs Hr. unfold memcpy. case_bool_decide; [done|].
  unfold memmove. by rewrite Hs, Hr.
Qed.

Ltac undef_step :=
  first [ rewrite bool_decide_eq_true_2 by solve_guard
        | rewrite bool_decide_eq_false_2 by solve_guard
        | apply undefined_bind; wp_prim; cbv beta ].

Lemma representable_small n : 0 <= n <= MC_VECTOR_BUFSIZE -> representable n.
Proof. unfold representable, MC_VECTOR_BUFSIZE, sizeof_long. rewrite SIZE_MAX_eq. lia. Qed.

Lemma resize_heap_to_inline m a s l b n :
  holds m a s l -> data s = Block b -> heap_buf s = Block b ->
  0 < n <= MC_VECTOR_BUFSIZE -> n <= Z.of_nat (length l) ->
  length (stack_buf s) = Z.to_nat MC_VECTOR_BUFSIZE ->
  wp (mc_vector_resize (Some a) n) m (fun r m' =>
    r = 1 /\ exists s',
      holds m' a s' (take (Z.to_nat n) l ++ drop (Z.to_nat n) (stack_buf s))
      /\ header s' = (n, MC_VECTOR_BUFSIZE, NULL, Inline a)
      /\ allocator m' = allocator m).
Proof.
  intros Hh Hd Hhb Hn Hl Hsb. pose proof Hh as [Hs Hl0]. rewrite Hd in Hl0.
  pose proof (representable_small n ltac:(lia)) as Hrep.
  unfold mc_vector_resize. repeat wp_step.
  rewrite Hhb.
  wp_apply wp_memcpy; [done| done | | | |].
  { rewrite cells_of_bytes_of by done. apply read_range_prefix. lia. }
  { simpl. by rewrite Hs. }
  { apply write_range_prefix. rewrite length_take. unfold MC_VECTOR_BUFSIZE in *. lia. }
  set (sb := take (Z.to_nat n) l ++ drop (length (take (Z.to_nat n) l)) (stack_buf s)).
  unfold put_array. rewrite Hs. fold (put_struct a (with_stack_buf sb s) m).
  repeat wp_step. simpl. rewrite Hhb.
  wp_apply wp_free; [by rewrite array_at_put_struct_block|].
  repeat wp_step. rewrite !put_struct_put_struct.
  split; [done|]. eexists. split; [split|].
  - eapply struct_at_put_struct. rewrite struct_at_set_arrays. by eapply struct_at_put_struct.
  - simpl. erewrite struct_at_put_struct
      by (rewrite struct_at_set_arrays; by eapply struct_at_put_struct).
    simpl. unfold sb. rewrite length_take. do 3 f_equal. lia.
  - done.
Qed.

Lemma resize_heap_to_inline_undefined m a s l b n :
  holds m a s l -> data s = Block b -> heap_buf s = Block b ->
  0 < n <= MC_VECTOR_BUFSIZE -> Z.of_nat (length l) < n ->
  mc_vector_resize (Some a) n m = None.
Proof.
  intros Hh Hd Hhb Hn Hl. pose proof Hh as [Hs Hl0]. rewrite Hd in Hl0.
  pose proof (representable_small n ltac:(lia)) as Hrep.
  unfold mc_vector_resize. repeat undef_step.
  apply undefined_bind_l. repeat undef_step. rewrite Hhb.
  apply undefined_bind_l.
  eapply memcpy_undefined; [done|].
  rewrite cells_of_bytes_of by done. unfold read_range.
  by rewrite bool_decide_eq_false_2 by lia.
Qed.

Lemma resize_inline_to_inline m a s n :
  struct_at m a = Some s -> data s = Inline a -> heap_buf s = NULL ->
  0 < n <= MC_VECTOR_BUFSIZE ->
  wp (mc_vector_resize (Some a) n) m (fun r m' =>
    r = 1 /\ exists s',
      holds m' a s' (stack_buf s)
      /\ header s' = (n, MC_VECTOR_BUFSIZE, NULL, Inline a)
      /\ allocator m' = allocator m).
Proof.
  intros Hs Hd Hhb Hn.
  unfold mc_vector_resize. repeat wp_step. rewrite !put_struct_put_struct.
  split; [done|]. eexists. split; [split|].
  - by eapply struct_at_put_struct.
  - simpl. by erewrite struct_at_put_struct.
  - unfold header. simpl. by rewrite Hhb.
Qed.

Lemma struct_at_new_array m a x :
  struct_at (set_arrays (fun l => l ++ [x]) m) a = struct_at m a.
Proof. done. Qed.

Lemma resize_heap_to_heap m a s l b n :
  holds m a s l -> data s = Block b -> heap_buf s = Block b ->
  MC_VECTOR_BUFSIZE < n -> representable n -> alloc_ok m = true ->
  wp (mc_vector_resize (Some a) n) m (fun r m' =>
    r = 1 /\ exists s',
      holds m' a s' (take (Z.to_nat n) l ++ replicate (Z.to_nat n - length l) None)
      /\ header s' = (count s, n, Block (length (arrays m)), Block (length (arrays m)))
      /\ allocator m' = tl (allocator m)).
Proof.
  intros Hh Hd Hhb Hn Hrep Hok. pose proof Hh as [Hs Hl0]. rewrite Hd in Hl0.
  unfold mc_vector_resize. repeat wp_step. rewrite Hhb.
  wp_apply wp_realloc_ok; [done|done|].
  repeat wp_step. rewrite !put_struct_put_struct. rewrite cells_of_bytes_of by done.
  split; [done|]. eexists. split; [split|].
  - eapply struct_at_put_struct. by rewrite struct_at_set_arrays, struct_at_next_alloc.
  - simpl. rewrite list_lookup_middle by (by rewrite length_insert). done.
  - done.
Qed.

Lemma resize_heap_to_heap_fail m a s l b n :
  holds m a s l -> data s = Block b -> heap_buf s = Block b ->
  MC_VECTOR_BUFSIZE < n -> alloc_ok m = false ->
  wp (mc_vector_resize (Some a) n) m (fun r m' =>
    r = 0 /\ m' = set_errno ENOMEM (next_alloc m)).
Proof.
  intros Hh Hd Hhb Hn Hok. pose proof Hh as [Hs Hl0]. rewrite Hd in Hl0.
  unfold mc_vector_resize. repeat wp_step. rewrite Hhb.
  wp_apply wp_realloc_fail; [done|done|].
  by repeat wp_step.
Qed.

Lemma resize_inline_to_heap m a s n :
  struct_at m a = Some s -> data s = Inline a -> heap_buf s = NULL ->
  0 <= count s <= Z.of_nat (length (stack_buf s)) -> count s <= MC_VECTOR_BUFSIZE ->
  MC_VECTOR_BUFSIZE < n -> representable n -> alloc_ok m = true ->
  wp (mc_vector_resize (Some a) n) m (fun r m' =>
    r = 1 /\ exists s',
      holds m' a s' (take (Z.to_nat (count s)) (stack_buf s)
                     ++ replicate (Z.to_nat (n - count s)) None)
      /\ header s' = (count s, n, Block (length (arrays m)), Block (length (arrays m)))
      /\ allocator m' = tl (allocator m)).
Proof.
  intros Hs Hd Hhb Hc Hc10 Hn Hrep Hok.
  assert (Hrepc : representable (count s)) by (apply representable_small; lia).
  unfold mc_vector_resize. repeat wp_step.
  wp_apply wp_malloc_ok; [done|].
  repeat wp_step. rewrite !cells_of_bytes_of by done.
  wp_apply wp_memcpy; [done| | | | |].
  { simpl. by rewrite struct_at_set_arrays, struct_at_next_alloc, Hs. }
  { rewrite cells_of_bytes_of by done. apply read_range_prefix. lia. }
  { simpl. by rewrite list_lookup_middle. }
  { apply write_range_prefix. rewrite length_take, length_replicate.
    unfold MC_VECTOR_BUFSIZE in *. lia. }
  repeat wp_step. rewrite !put_struct_put_struct.
  split; [done|]. eexists. split; [split|].
  - eapply struct_at_put_struct. simpl.
    by rewrite struct_at_set_arrays, struct_at_set_arrays, struct_at_next_alloc.
  - simpl. rewrite insert_app_r_alt by lia. rewrite Nat.sub_diag. simpl.
    rewrite list_lookup_middle by done. simpl.
    rewrite length_take, drop_replicate. do 3 f_equal. lia.
  - done.
Qed.

Lemma resize_inline_to_heap_fail m a s n :
  struct_at m a = Some s -> data s = Inline a -> heap_buf s = NULL ->
  MC_VECTOR_BUFSIZE < n -> alloc_ok m = false ->
  wp (mc_vector_resize (Some a) n) m (fun r m' =>
    r = 0 /\ m' = set_errno EINVAL (next_alloc m)).
Proof.
  intros Hs Hd Hhb Hn Hok.
  unfold mc_vector_resize. repeat wp_step.
  wp_apply wp_malloc_fail; [done|].
  by repeat wp_step.
Qed.

Lemma resize_zero m a :
  wp (mc_vector_resize (Some a) 0) m (fun r m' => r = 0 /\ m' = set_errno EINVAL m).
Proof. unfold mc_vector_resize. by repeat wp_step. Qed.

(** C8: [mc_vector_resize] to a size above [MC_VECTOR_BUFSIZE] and below the
    count reallocates the buffer to that size and leaves the count as it
    was. The live elements are not all preserved, and the count exceeds the
    capacity: the vector made of 25 elements with capacity 30, resized to 20,
    has count 25 and capacity 20 after the call, which returns 1; its 25
    elements are no longer there to read, and the element at index 22, read
    as 7 before, is out of range afterwards. *)
Lemma resize_below_count_loses_elements :
  result (v ← mc_vector_make_filled 30 25 7;
          before ← contents v;
          x ← mc_vector_get_unchecked v 22;
          r ← mc_vector_resize v 20;
          o ← observe v;
          after ← contents v;
          y ← mc_vector_get_unchecked v 22;
          mret (before, x, r, o, after, y)) empty_memory
  = Some (Some (replicate 25 (Some 7)), Some 7, 1, (25, 20, 0), None, Some LONG_MAX).
Proof. vm_compute. reflexivity. Qed.

(** The paths of [mc_vector_resize] that return 1, on a well-formed vector
    and for a size whose byte count is representable. With
    [n <= MC_VECTOR_BUFSIZE] the inline buffer becomes the active one, with
    the first [n] elements of the buffer that was active, the capacity is
    [MC_VECTOR_BUFSIZE] and the count is [n], whatever it was. With
    [n > MC_VECTOR_BUFSIZE] an allocated buffer of exactly [n] elements
    becomes the active one, the capacity is [n] and the count is what it was;
    the elements below [min n count] are preserved, hence all live elements
    when [count <= n]. *)
Theorem resize_effect (m m' : memory) (a : nat) (n : Z) :
  well_formed m a -> representable n ->
  mc_vector_resize (Some a) n m = Some (1, m') ->
  exists s l s' l',
    holds m a s l /\ holds m' a s' l'
    /\ (n <= MC_VECTOR_BUFSIZE ->
          data s' = Inline a /\ heap_buf s' = NULL
          /\ capacity s' = MC_VECTOR_BUFSIZE /\ count s' = n
          /\ take (Z.to_nat n) l' = take (Z.to_nat n) l
          /\ elements m' a = Some (take (Z.to_nat n) l))
    /\ (MC_VECTOR_BUFSIZE < n ->
          data s' = heap_buf s' /\ (exists b, data s' = Block b)
          /\ Z.of_nat (length l') = n
          /\ capacity s' = n /\ count s' = count s
          /\ take (Z.to_nat (Z.min n (count s))) l' = take (Z.to_nat (Z.min n (count s))) l
          /\ (count s <= n -> elements m' a = elements m a)).
Proof.
  intros Hwf Hrep Hrun.
  destruct (well_formed_elim _ _ Hwf) as (s & l & Hh & Hsb & Hc & Hpos & Hd).
  pose proof Hh as [Hs Hl]. destruct Hrep as [Hn0 Hn8].
  assert (Hn : 0 < n).
  { destruct (decide (n = 0)) as [->|]; [|lia].
    by rewrite (wp_exact _ _ _ _ (resize_zero m a)) in Hrun. }
  assert (Helems : elements m a = Some (take (Z.to_nat (count s)) l)).
  { apply elements_holds; [done|].
    pose proof (well_formed_count_le _ _ _ _ Hwf Hh). lia. }
  exists s, l.
  destruct (decide (n <= MC_VECTOR_BUFSIZE)) as [Hle|Hgt];
    destruct Hd as [(Hd & Hhb & Hcap & ->)|(b & Hd & Hhb & Hlen & _)].
  - (* inline to inline *)
    destruct (proj1 (wp_run _ _ _) (resize_inline_to_inline m a s n Hs Hd Hhb ltac:(lia)))
      as (r & m'' & Hrun' & _ & s' & Hh' & [= Hn' Hc' Hhb' Hd'] & _).
    rewrite Hrun in Hrun'. injection Hrun' as <- <-.
    exists s', (stack_buf s). split; [done|]. split; [done|]. split; [|lia].
    intros _. repeat split; try done.
    rewrite (elements_holds _ _ _ _ Hh'); rewrite Hn'; [done|].
    rewrite Hsb. unfold MC_VECTOR_BUFSIZE in *. lia.
  - (* allocated to inline *)
    destruct (decide (n <= Z.of_nat (length l))) as [Hnl|Hnl].
    2:{ rewrite (resize_heap_to_inline_undefined m a s l b n) in Hrun by (done || lia).
        done. }
    destruct (proj1 (wp_run _ _ _)
                (resize_heap_to_inline m a s l b n Hh Hd Hhb ltac:(lia) Hnl Hsb))
      as (r & m'' & Hrun' & _ & s' & Hh' & [= Hn' Hc' Hhb' Hd'] & _).
    rewrite Hrun in Hrun'. injection Hrun' as <- <-.
    eexists s', _. split; [done|]. split; [done|]. split; [|lia].
    intros _.
    assert (Htake : take (Z.to_nat n) (take (Z.to_nat n) l ++ drop (Z.to_nat n) (stack_buf s))
                    = take (Z.to_nat n) l).
    { rewrite take_app_le by (rewrite length_take; lia). by rewrite take_take, Nat.min_id. }
    repeat split; try done.
    rewrite (elements_holds _ _ _ _ Hh'); rewrite Hn'; [by rewrite Htake|].
    rewrite length_app, length_take, length_drop. lia.
  - (* inline to allocated *)
    destruct (alloc_ok m) eqn:Hok.
    2:{ rewrite (wp_exact _ _ _ _ (resize_inline_to_heap_fail m a s n Hs Hd Hhb ltac:(lia) Hok))
          in Hrun. done. }
    destruct (proj1 (wp_run _ _ _)
                (resize_inline_to_heap m a s n Hs Hd Hhb ltac:(rewrite Hsb; lia) ltac:(lia)
                   ltac:(lia) ltac:(done) Hok))
      as (r & m'' & Hrun' & _ & s' & Hh' & [= Hn' Hc' Hhb' Hd'] & _).
    rewrite Hrun in Hrun'. injection Hrun' as <- <-.
    eexists s', _. split; [done|]. split; [done|]. split; [lia|].
    intros _.
    assert (Htake : forall k, (k <= Z.to_nat (count s))%nat ->
              take k (take (Z.to_nat (count s)) (stack_buf s)
                      ++ replicate (Z.to_nat (n - count s)) None)
              = take k (stack_buf s)).
    { intros k Hk. rewrite take_app_le by (rewrite length_take; lia).
      rewrite take_take. f_equal. lia. }
    split; [congruence|]. split; [by eexists|].
    split; [rewrite length_app, length_take, length_replicate; lia|].
    split; [done|]. split; [done|].
    split; [apply Htake; lia|].
    intros Hcn. rewrite (elements_holds _ _ _ _ Hh').
    + rewrite Hn', Htake by lia. done.
    + rewrite Hn', length_app, length_take, length_replicate. lia.
  - (* allocated to allocated *)
    destruct (alloc_ok m) eqn:Hok.
    2:{ rewrite (wp_exact _ _ _ _ (resize_heap_to_heap_fail m a s l b n Hh Hd Hhb ltac:(lia) Hok))
          in Hrun. done. }
    destruct (proj1 (wp_run _ _ _)
                (resize_heap_to_heap m a s l b n Hh Hd Hhb ltac:(lia) ltac:(done) Hok))
      as (r & m'' & Hrun' & _ & s' & Hh' & [= Hn' Hc' Hhb' Hd'] & _).
    rewrite Hrun in Hrun'. injection Hrun' as <- <-.
    eexists s', _. split; [done|]. split; [done|]. split; [lia|].
    intros _.
    assert (Htake : forall k, (k <= Z.to_nat n)%nat -> (k <= length l)%nat ->
              take k (take (Z.to_nat n) l ++ replicate (Z.to_nat n - length l) None)
              = take k l).
    { intros k Hk Hkl. rewrite take_app_le by (rewrite length_take; lia).
      rewrite take_take. f_equal. lia. }
    split; [congruence|]. split; [by eexists|].
    split; [rewrite length_app, length_take, length_replicate; lia|].
    split; [done|]. split; [done|].
    split; [apply Htake; lia|].
    intros Hcn. rewrite (elements_holds _ _ _ _ Hh').
    + rewrite Hn', Htake by lia. done.
    + rewrite Hn', length_app, length_take, length_replicate. lia.
Qed.

Lemma resize_effect_witness :
  exists s l s' l',
    holds allocated_123 0 s l /\ holds allocated_123_resized 0 s' l'
    /\ (20 <= MC_VECTOR_BUFSIZE ->
          data s' = Inline 0 /\ heap_buf s' = NULL
          /\ capacity s' = MC_VECTOR_BUFSIZE /\ count s' = 20
          /\ take (Z.to_nat 20) l' = take (Z.to_nat 20) l
          /\ elements allocated_123_resized 0 = Some (take (Z.to_nat 20) l))
    /\ (MC_VECTOR_BUFSIZE < 20 ->
          data s' = heap_buf s' /\ (exists b, data s' = Block b)
          /\ Z.of_nat (length l') = 20
          /\ capacity s' = 20 /\ count s' = count s
          /\ take (Z.to_nat (Z.min 20 (count s))) l' = take (Z.to_nat (Z.min 20 (count s))) l
          /\ (count s <= 20 -> elements allocated_123_resized 0 = elements allocated_123 0)).
Proof.
  apply (resize_effect allocated_123 allocated_123_resized 0 20).
  - compute_done.
  - compute_done.
  - vm_compute. reflexivity.
Defined.

(** ** Insertion and removal before the last position *)

Lemma read_range_middle (pre mid post : list (option Z)) :
  read_range (pre ++ mid ++ post) (Z.of_nat (length pre)) (Z.of_nat (length mid)) = Some mid.
Proof.
  unfold read_range. rewrite bool_decide_eq_true_2 by (rewrite !length_app; lia).
  f_equal. rewrite !Nat2Z.id. rewrite drop_app_length. by rewrite take_app_length.
Qed.

Lemma write_range_middle (pre old post new : list (option Z)) :
  length new = length old ->
  write_range (pre ++ old ++ post) (Z.of_nat (length pre)) new = Some (pre ++ new ++ post).
Proof.
  intros Hlen. unfold write_range.
  rewrite bool_decide_eq_true_2 by (rewrite !length_app; lia).
  f_equal. rewrite !Nat2Z.id. rewrite take_app_length. f_equal. f_equal.
  rewrite drop_app_add. rewrite Hlen. by rewrite drop_app_length.
Qed.

(** A list cut where an element is inserted or removed: at [i], and at the
    count [n]. *)
Lemma split_at_index_and_count (l : list (option Z)) (i n : nat) :
  (i < n)%nat -> (n + 2 <= length l)%nat ->
  exists pre m0 mid p0 p1 post,
    l = pre ++ (m0 :: mid) ++ p0 :: p1 :: post
    /\ length pre = i /\ length (m0 :: mid) = (n - i)%nat
    /\ take n l = pre ++ m0 :: mid.
Proof.
  intros Hi Hn.
  destruct (drop i (take n l)) as [|m0 mid] eqn:Hmid.
  { apply (f_equal length) in Hmid. rewrite length_drop, length_take in Hmid. simpl in Hmid. lia. }
  destruct (drop n l) as [|p0 [|p1 post]] eqn:Hpost.
  1-2: apply (f_equal length) in Hpost; rewrite length_drop in Hpost; simpl in Hpost; lia.
  exists (take i l), m0, mid, p0, p1, post.
  assert (Htake : take n l = take i l ++ m0 :: mid).
  { rewrite <- Hmid. rewrite <- (take_drop i (take n l)) at 1.
    rewrite take_take. f_equal. f_equal. lia. }
  split; [|split; [|split]].
  - rewrite <- (take_drop n l) at 1. rewrite Hpost, Htake. by rewrite <- app_assoc.
  - rewrite length_take. lia.
  - rewrite <- Hmid. rewrite length_drop, length_take. lia.
  - done.
Qed.

Lemma well_formed_grown m a s l len m' :
  well_formed m a -> holds m a s l -> 0 <= len ->
  representable (capacity s * 2 + len) -> grown m a s l len m' ->
  well_formed m' a.
Proof.
  intros Hwf Hh Hlen Hrep (Hh' & _).
  destruct (well_formed_elim _ _ Hwf) as (s0 & l0 & [Hs0 Hl0] & Hsb & Hc & Hpos & Hd).
  destruct Hh as [Hs Hl]. assert (s0 = s) as -> by congruence.
  assert (l0 = l) as -> by congruence.
  pose proof (well_formed_count_le _ _ _ _ Hwf (conj Hs Hl)) as [_ Hcl].
  eapply well_formed_intro; [exact Hh'|done|simpl; lia|simpl; lia|].
  right. eexists. simpl. repeat split; try done.
  - rewrite length_app, length_take, length_replicate. lia.
  - by destruct Hrep.
  - by destruct Hrep.
Qed.

(** [vec_ensure_capacity] on a well-formed vector, when it has room or can
    allocate. *)
Lemma ensure_ready m a s l len :
  well_formed m a -> holds m a s l -> 0 <= len ->
  count s + len < capacity s
  \/ (representable (capacity s * 2 + len) /\ alloc_ok m = true) ->
  wp (vec_ensure_capacity (Some a) len) m (fun r m' =>
    r = 1 /\ exists s' l',
      holds m' a s' l' /\ well_formed m' a
      /\ count s' = count s
      /\ (count s + len < capacity s' /\ capacity s <= capacity s'
          /\ errno m' = errno m)
      /\ take (Z.to_nat (count s)) l' = take (Z.to_nat (count s)) l
      /\ (forall p x, p <> heap_buf s -> p <> data s -> array_at m p = Some x ->
            array_at m' p = Some x /\ p <> data s')).
Proof.
  intros Hwf Hh Hlen Hroom.
  destruct (well_formed_elim _ _ Hwf) as (s0 & l0 & [Hs0 Hl0] & Hsb & Hc & Hpos & Hd).
  pose proof Hh as [Hs Hl]. assert (s0 = s) as -> by congruence.
  assert (l0 = l) as -> by congruence.
  pose proof (well_formed_count_le _ _ _ _ Hwf Hh) as [_ Hcl].
  assert (Hmax : capacity s * sizeof_long <= SIZE_MAX).
  { destruct Hd as [(_ & _ & ? & _)|(b & _ & _ & _ & [_ ?])]; [|done].
    rewrite SIZE_MAX_eq. unfold MC_VECTOR_BUFSIZE, sizeof_long in *. lia. }
  unfold sizeof_long in Hmax.
  destruct (decide (count s + len < capacity s)) as [Hlt|Hge].
  - eapply wp_mono; [apply (ensure_enough m a s); [done|]|].
    { rewrite size_wrap_small by lia. lia. }
    intros r m' [-> ->]. split; [done|]. exists s, l. repeat split; done || lia.
  - destruct Hroom as [?|[Hrep Hok]]; [lia|].
    pose proof (representable_size _ Hrep).
    assert (Hgrow : wp (vec_ensure_capacity (Some a) len) m
                      (fun r m' => r = 1 /\ grown m a s l len m')).
    { destruct Hd as [(Hd & Hhb & Hcap & ->)|(b & Hd & Hhb & Hlen' & _)].
      - apply ensure_grow_inline; try done.
        + rewrite size_wrap_small by lia. lia.
        + rewrite Hsb. unfold MC_VECTOR_BUFSIZE in *. lia.
      - rewrite Hd in Hl. eapply ensure_grow_heap; try done.
        rewrite size_wrap_small by lia. lia. }
    eapply wp_mono; [exact Hgrow|].
    intros r m' [-> Hgrown]. split; [done|].
    pose proof (well_formed_grown _ _ _ _ _ _ Hwf Hh Hlen Hrep Hgrown) as Hwf'.
    destruct Hgrown as (Hh' & _ & Herr & _ & Hframe).
    eexists _, _. split; [exact Hh'|]. split; [done|]. simpl.
    split; [done|]. split; [repeat split; done || lia|]. split.
    + rewrite take_app_le by (rewrite length_take; lia).
      rewrite take_take. f_equal. lia.
    + intros p x Hp _ Hx. split; [by apply Hframe|].
      intros ->. apply array_at_lt in Hx. lia.
Qed.

(** [mc_vector_insert] once [vec_ensure_capacity] has returned, strictly
    before the last live position: the elements from [index] on move one slot
    to the right, over the slot after the last, and the value takes their
    place. *)
Lemma insert_shift m a s pre m0 mid p0 post index x :
  holds m a s (pre ++ (m0 :: mid) ++ p0 :: post) ->
  index = Z.of_nat (length pre) -> mid <> [] ->
  count s = index + Z.of_nat (length (m0 :: mid)) ->
  representable (count s + 1) ->
  wp (n ← field count (Some a);
      if bool_decide (index = size_wrap (n - 1)) then
        mc_vector_push (Some a) x
      else
        d ← field data (Some a);
        n ← field count (Some a);
        memmove d (index + 1) d index (bytes_of (size_wrap (n - index)));;
        d ← field data (Some a);
        store d index (Some x);;
        n ← field count (Some a);
        assign (Some a) (with_count (size_wrap (n + 1)));;
        mret 1) m
    (fun r m' =>
       r = 1 /\ exists s',
         holds m' a s' (pre ++ Some x :: (m0 :: mid) ++ post)
         /\ header s' = (count s + 1, capacity s, heap_buf s, data s)
         /\ length (stack_buf s') = length (stack_buf s)
         /\ allocator m' = allocator m).
Proof.
  intros Hh -> Hmid Hn Hrep. pose proof Hh as [Hs Hl].
  pose proof (representable_size _ Hrep) as Hmax.
  assert (length mid <> 0%nat) by (by destruct mid).
  simpl in Hn.
  repeat wp_step.
  rewrite (size_wrap_small (count s - 1)) by lia.
  rewrite bool_decide_eq_false_2 by lia.
  repeat wp_step.
  rewrite (size_wrap_small (count s - _)) by lia.
  assert (Hcells : cells_of (bytes_of (count s - Z.of_nat (length pre)))
                   = Z.of_nat (length (m0 :: mid))).
  { rewrite cells_of_bytes_of by (eapply representable_le; [done|lia]). simpl. lia. }
  set (l1 := (pre ++ [m0]) ++ (m0 :: mid) ++ post).
  wp_apply wp_memmove; [done| |done| |].
  { rewrite Hcells. apply read_range_middle. }
  { instantiate (1 := l1). unfold l1.
    replace (pre ++ (m0 :: mid) ++ p0 :: post) with ((pre ++ [m0]) ++ (mid ++ [p0]) ++ post)
      by (by rewrite <- !app_assoc).
    replace (Z.of_nat (length pre) + 1) with (Z.of_nat (length (pre ++ [m0])))
      by (rewrite length_app; simpl; lia).
    apply write_range_middle. rewrite length_app. simpl. lia. }
  destruct (holds_put_array m a s _ l1 Hh) as (s1 & Hh1 & [= Hn1 Hc1 Hhb1 Hd1] & Hsb1).
  pose proof Hh1 as [Hs1 Hl1].
  repeat wp_step.
  set (l2 := pre ++ Some x :: (m0 :: mid) ++ post).
  assert (Hl2 : <[Z.to_nat (Z.of_nat (length pre)) := Some x]> l1 = l2).
  { unfold l1, l2. rewrite Nat2Z.id. rewrite <- !app_assoc.
    rewrite insert_app_r_alt by lia. by rewrite Nat.sub_diag. }
  wp_apply wp_store; [exact Hl1| |].
  { unfold l1. rewrite !length_app. simpl. lia. }
  rewrite Hl2.
  destruct (holds_put_array _ a s1 _ l2 Hh1) as (s2 & Hh2 & [= Hn2 Hc2 Hhb2 Hd2] & Hsb2).
  pose proof Hh2 as [Hs2 _].
  repeat wp_step. split; [done|].
  rewrite Hn2, Hn1. rewrite size_wrap_small by lia.
  exists (with_count (count s + 1) s2).
  split; [by eapply holds_put_struct|].
  split; [unfold header; simpl; congruence|].
  split.
  - simpl. rewrite Hsb2, Hsb1. rewrite Hd1.
    destruct (decide (data s = Inline a)) as [Hda|]; [|done].
    rewrite Hda in Hl. simpl in Hl. rewrite Hs in Hl. injection Hl as Hl.
    rewrite Hl. unfold l2. rewrite !length_app. simpl. rewrite !length_app. simpl. lia.
  - simpl. by rewrite !allocator_put_array.
Qed.

(** [mc_vector_remove] strictly before the last live position: the elements
    after [index], and the slot after the last one, move one slot to the
    left. *)
Lemma remove_shift m a s pre y mid q post index :
  holds m a s (pre ++ y :: mid ++ q :: post) ->
  index = Z.of_nat (length pre) -> mid <> [] ->
  count s = index + 1 + Z.of_nat (length mid) ->
  representable (count s) ->
  wp (mc_vector_remove (Some a) index) m
    (fun r m' =>
       r = 1 /\ exists s',
         holds m' a s' (pre ++ mid ++ q :: q :: post)
         /\ header s' = (count s - 1, capacity s, heap_buf s, data s)
         /\ allocator m' = allocator m).
Proof.
  intros Hh -> Hmid Hn Hrep. pose proof Hh as [Hs Hl].
  pose proof (representable_size _ Hrep) as Hmax.
  assert (length mid <> 0%nat) by (by destruct mid).
  unfold mc_vector_remove.
  repeat wp_step.
  rewrite (size_wrap_small (count s - 1)) by lia.
  rewrite bool_decide_eq_false_2 by lia.
  repeat wp_step.
  rewrite (size_wrap_small (count s - _)) by lia.
  assert (Hcells : cells_of (bytes_of (count s - Z.of_nat (length pre)))
                   = Z.of_nat (length (mid ++ [q]))).
  { rewrite cells_of_bytes_of by (eapply representable_le; [done|lia]).
    rewrite length_app. simpl. lia. }
  set (l1 := pre ++ (mid ++ [q]) ++ q :: post).
  wp_apply wp_memmove; [done| |done| |].
  { rewrite Hcells.
    replace (pre ++ y :: mid ++ q :: post) with ((pre ++ [y]) ++ (mid ++ [q]) ++ post)
      by (by rewrite <- !app_assoc).
    replace (Z.of_nat (length pre) + 1) with (Z.of_nat (length (pre ++ [y])))
      by (rewrite length_app; simpl; lia).
    apply read_range_middle. }
  { instantiate (1 := l1). unfold l1.
    change (pre ++ y :: mid ++ q :: post) with (pre ++ (y :: mid) ++ q :: post).
    apply write_range_middle. rewrite length_app. simpl. lia. }
  destruct (holds_put_array m a s _ l1 Hh) as (s1 & Hh1 & [= Hn1 Hc1 Hhb1 Hd1] & Hsb1).
  pose proof Hh1 as [Hs1 Hl1].
  repeat wp_step. split; [done|].
  rewrite Hn1. rewrite size_wrap_small by lia.
  exists (with_count (count s - 1) s1).
  split.
  - replace (pre ++ mid ++ q :: q :: post) with l1
      by (unfold l1; by rewrite <- !app_assoc).
    by eapply holds_put_struct.
  - split; [unfold header; simpl; congruence|].
    simpl. by rewrite !allocator_put_array.
Qed.

Lemma well_formed_representable m a s l :
  well_formed m a -> holds m a s l -> representable (capacity s).
Proof.
  intros (s' & l' & [Hs' Hl'] & Hsb & Hc & Hpos & Hd)%well_formed_elim [Hs Hl].
  assert (s' = s) as -> by congruence.
  destruct Hd as [(_ & _ & Hcap & _)|(b & _ & _ & _ & Hrep)]; [|done].
  apply representable_small. lia.
Qed.

(** X29: where [mc_vector_insert] does insert at the position it is given,
    which is every live position but the last, [mc_vector_remove] at the same
    position undoes it: both calls return 1, the count and the live elements
    are those before the two calls. *)
Lemma insert_then_remove m a s l index x :
  well_formed m a -> holds m a s l ->
  0 <= index -> index + 1 < count s ->
  count s + 1 < capacity s
  \/ (representable (capacity s * 2 + 1) /\ alloc_ok m = true) ->
  wp (r1 ← mc_vector_insert (Some a) index x;
      r2 ← mc_vector_remove (Some a) index;
      mret (r1, r2)) m
    (fun r m' =>
       r = (1, 1) /\ exists s',
         struct_at m' a = Some s' /\ count s' = count s
         /\ elements m' a = elements m a).
Proof.
  intros Hwf Hh Hi Hlt Hroom. pose proof Hh as [Hs Hl].
  pose proof (well_formed_count_le _ _ _ _ Hwf Hh) as [Hc Hcl].
  rewrite (elements_holds _ _ _ _ Hh) by lia.
  unfold mc_vector_insert.
  repeat wp_step.
  wp_apply wp_mono; [by apply (ensure_ready m a s l 1)|].
  intros ok m1 (-> & s1 & l1 & Hh1 & Hwf1 & Hn1 & Hcap1 & Htake & _).
  pose proof (well_formed_count_le _ _ _ _ Hwf1 Hh1) as [Hc1 Hcl1].
  pose proof (well_formed_representable _ _ _ _ Hwf1 Hh1) as Hrep1.
  destruct (split_at_index_and_count l1 (Z.to_nat index) (Z.to_nat (count s)))
    as (pre & m0 & mid & p0 & p1 & post & -> & Hpre & Hmid & Htake1); [lia|lia|].
  assert (mid <> []) as Hne.
  { intros ->. simpl in Hmid. lia. }
  wp_step.
  eapply wp_mono.
  { apply (insert_shift m1 a s1 pre m0 mid p0 (p1 :: post) index x); try done.
    - lia.
    - rewrite Hmid, Hn1. lia.
    - eapply representable_le; [exact Hrep1|lia]. }
  intros r1 m2 (-> & s2 & Hh2 & [= Hn2 Hc2 Hhb2 Hd2] & _ & _).
  wp_apply wp_mono.
  { apply (remove_shift m2 a s2 pre (Some x) (m0 :: mid) p1 post index); try done.
    - lia.
    - rewrite Hn2, Hn1. rewrite Hmid. lia.
    - rewrite Hn2. eapply representable_le; [exact Hrep1|lia]. }
  intros r2 m3 (-> & s3 & Hh3 & [= Hn3 Hc3 Hhb3 Hd3] & _).
  wp_step. split; [done|]. exists s3.
  split; [by destruct Hh3|]. split; [lia|].
  rewrite (elements_holds _ _ _ _ Hh3).
  - f_equal. rewrite Hn3, Hn2, Hn1. replace (count s + 1 - 1) with (count s) by lia.
    rewrite <- Htake, Htake1.
    replace (pre ++ (m0 :: mid) ++ p1 :: p1 :: post)
      with ((pre ++ m0 :: mid) ++ p1 :: p1 :: post) by (by rewrite <- app_assoc).
    apply take_app_length'. rewrite length_app. simpl in Hmid. simpl. lia.
  - rewrite !length_app. simpl. rewrite ?length_app. simpl.
    simpl in Hmid. lia.
Qed.

(** The vector [1, 2, 3] with an allocated buffer of 30 elements: inserting
    at index 1 and removing at index 1 gives [1, 2, 3] back. *)
Lemma insert_then_remove_allocated_123 :
  wp (r1 ← mc_vector_insert (Some 0%nat) 1 9;
      r2 ← mc_vector_remove (Some 0%nat) 1;
      mret (r1, r2)) allocated_123
    (fun r m' =>
       r = (1, 1) /\ exists s',
         struct_at m' 0 = Some s' /\ count s' = 3
         /\ elements m' 0 = Some [Some 1; Some 2; Some 3]).
Proof.
  eapply wp_mono.
  - eapply (insert_then_remove allocated_123 0 _ _ 1 9).
    + compute_done.
    + split; reflexivity.
    + lia.
    + simpl. lia.
    + left. simpl. lia.
  - intros r m' (-> & s' & Hs' & Hn & He). split; [done|]. by exists s'.
Defined.

Lemma inserts_layout (l1 xs : list (option Z)) (i n k : nat) :
  (i <= n)%nat -> (n + k <= length l1)%nat -> length xs = k ->
  let tail := take (n - i) (drop i l1) in
  let l2 := take (i + k) l1 ++ tail ++ drop (i + k + length tail) l1 in
  let l3 := take i l2 ++ xs ++ drop (i + length xs) l2 in
  take (n + k) l3 = take i (take n l1) ++ xs ++ drop i (take n l1).
Proof.
  intros Hi Hn Hk tail l2 l3.
  assert (Htl : length tail = (n - i)%nat).
  { unfold tail. rewrite length_take, length_drop. lia. }
  assert (H2 : take i l2 = take i l1).
  { unfold l2. rewrite take_app_le by (rewrite length_take; lia).
    rewrite take_take. f_equal. lia. }
  assert (H3 : drop (i + length xs) l2 = tail ++ drop (i + k + length tail) l1).
  { unfold l2. rewrite Hk. apply drop_app_length'. rewrite length_take. lia. }
  unfold l3. rewrite H2, H3.
  rewrite take_take. replace (i `min` n)%nat with i by lia.
  rewrite skipn_firstn_comm. fold tail.
  replace (take i l1 ++ xs ++ tail ++ drop (i + k + length tail) l1)
    with ((take i l1 ++ xs ++ tail) ++ drop (i + k + length tail) l1)
    by (by rewrite <- !app_assoc).
  apply take_app_length'. rewrite !length_app, length_take. lia.
Qed.

(** X30: [mc_vector_inserts] on a well-formed vector, at a position up to
    the count that is not the last live one, from a source array that is not
    a buffer of the vector: the call returns the length (as a [short]), the
    count grows by the length, the source elements are inserted before the
    element at [index] and the elements from [index] on follow them. *)
Lemma inserts_shift m a s l index src srcl len :
  well_formed m a -> holds m a s l ->
  src <> data s -> src <> heap_buf s -> array_at m src = Some srcl ->
  0 < len <= Z.of_nat (length srcl) ->
  0 <= index <= count s -> index <> count s - 1 ->
  index + len < capacity s ->
  count s + len < capacity s
  \/ (representable (capacity s * 2 + len) /\ alloc_ok m = true) ->
  wp (mc_vector_inserts (Some a) index src len) m
    (fun r m' =>
       r = to_short len /\ exists s' els,
         struct_at m' a = Some s' /\ count s' = count s + len
         /\ elements m a = Some els
         /\ elements m' a
            = Some (take (Z.to_nat index) els ++ take (Z.to_nat len) srcl
                    ++ drop (Z.to_nat index) els)).
Proof.
  intros Hwf Hh Hsd Hsh Hsrc Hlen Hi Hlast Hcap Hroom. pose proof Hh as [Hs Hl].
  pose proof (well_formed_count_le _ _ _ _ Hwf Hh) as [Hc Hcl].
  pose proof (representable_size _ (well_formed_representable _ _ _ _ Hwf Hh)) as Hmax.
  assert (src <> NULL) as Hnull by (by intros ->).
  unfold mc_vector_inserts.
  rewrite bool_decide_eq_false_2 by (intros [?|?]; done).
  repeat wp_step.
  rewrite (size_wrap_small (index + len)) by lia.
  rewrite bool_decide_eq_false_2 by lia.
  wp_apply wp_mono; [apply (ensure_ready m a s l len); [done|done|lia|done]|].
  intros ok m1 (-> & s1 & l1 & Hh1 & Hwf1 & Hn1 & Hcap1 & Htake & Hframe).
  destruct (Hframe src srcl Hsh Hsd Hsrc) as [Hsrc1 Hsd1].
  pose proof Hh1 as [Hs1 Hl1].
  pose proof (well_formed_count_le _ _ _ _ Hwf1 Hh1) as [Hc1 Hcl1].
  pose proof (well_formed_representable _ _ _ _ Hwf1 Hh1) as Hrep1.
  pose proof (representable_size _ Hrep1) as Hmax1.
  repeat wp_step. rewrite Hn1.
  assert (index <> size_wrap (count s - 1)) as Hne.
  { destruct (decide (count s = 0)) as [->|].
    - change (size_wrap (0 - 1)) with SIZE_MAX. lia.
    - rewrite size_wrap_small by lia. lia. }
  rewrite bool_decide_eq_true_2 by done.
  repeat wp_step. rewrite Hn1.
  rewrite (size_wrap_small (count s - index)) by lia.
  set (tail := take (Z.to_nat (count s - index)) (drop (Z.to_nat index) l1)).
  assert (Htl : length tail = Z.to_nat (count s - index)).
  { unfold tail. rewrite length_take, length_drop. lia. }
  set (l2 := take (Z.to_nat (index + len)) l1 ++ tail
             ++ drop (Z.to_nat (index + len) + length tail) l1).
  eapply wp_memmove; [exact Hl1| |exact Hl1| |].
  { instantiate (1 := tail).
    rewrite cells_of_bytes_of by (eapply representable_le; [exact Hrep1|lia]).
    unfold read_range. by rewrite bool_decide_eq_true_2 by lia. }
  { instantiate (1 := l2). unfold write_range.
    by rewrite bool_decide_eq_true_2 by lia. }
  destruct (holds_put_array m1 a s1 _ l2 Hh1) as (s2 & Hh2 & [= Hn2 Hc2 Hhb2 Hd2] & _).
  pose proof Hh2 as [Hs2 Hl2].
  assert (Hsrc2 : array_at (put_array (data s1) l2 m1) src = Some srcl).
  { by rewrite array_at_put_array_ne by done. }
  assert (Hlen2 : length l2 = length l1).
  { unfold l2. rewrite !length_app, length_take, length_drop. lia. }
  repeat wp_step.
  set (xs := take (Z.to_nat len) srcl).
  set (l3 := take (Z.to_nat index) l2 ++ xs ++ drop (Z.to_nat index + length xs) l2).
  assert (Hxs : length xs = Z.to_nat len).
  { unfold xs. rewrite length_take. lia. }
  wp_apply wp_memcpy; [congruence|exact Hsrc2| |exact Hl2| |].
  { instantiate (1 := xs).
    rewrite cells_of_bytes_of by (eapply representable_le; [exact Hrep1|lia]).
    apply read_range_prefix. lia. }
  { instantiate (1 := l3). unfold write_range.
    by rewrite bool_decide_eq_true_2 by lia. }
  destruct (holds_put_array _ a s2 _ l3 Hh2) as (s3 & Hh3 & [= Hn3 Hc3 Hhb3 Hd3] & _).
  pose proof Hh3 as [Hs3 Hl3].
  repeat wp_step. split; [done|].
  rewrite Hn3, Hn2, Hn1. rewrite size_wrap_small by lia.
  eexists _, _. split; [by eapply struct_at_put_struct|].
  split; [done|].
  split; [by apply (elements_holds _ _ _ _ Hh); lia|].
  assert (Hh4 : holds (put_struct a (with_count (count s + len) s3)
                         (put_array (data s2) l3 (put_array (data s1) l2 m1)))
                  a (with_count (count s + len) s3) l3)
    by (by eapply holds_put_struct).
  rewrite (elements_holds _ _ _ _ Hh4).
  2:{ simpl. unfold l3. rewrite !length_app, length_take, length_drop. lia. }
  f_equal. simpl. rewrite <- Htake.
  pose proof (inserts_layout l1 xs (Z.to_nat index) (Z.to_nat (count s)) (Z.to_nat len))
    as Hlay.
  cbv zeta in Hlay.
  rewrite <- Z2Nat.inj_sub, <- !Z2Nat.inj_add in Hlay by lia.
  apply Hlay; [lia|lia|done].
Qed.

(** The vector [1, 2, 3] with an allocated buffer of 30 elements and the
    source array [7, 8]: inserting the array at index 1 gives
    [1, 7, 8, 2, 3]. *)
Lemma inserts_shift_allocated_123 :
  wp (mc_vector_inserts (Some 0%nat) 1 (Block 1) 2)
    (Memory [Some (Vector_s 3 30 (replicate 10 None) (Block 0) (Block 0))]
       [Some ([Some 1; Some 2; Some 3] ++ replicate 27 None); Some [Some 7; Some 8]]
       None [])
    (fun r m' =>
       r = 2 /\ exists s',
         struct_at m' 0 = Some s' /\ count s' = 5
         /\ elements m' 0 = Some [Some 1; Some 7; Some 8; Some 2; Some 3]).
Proof.
  eapply wp_mono.
  - eapply inserts_shift with (srcl := [Some 7; Some 8]);
      [compute_done|split; reflexivity|done|done|reflexivity|simpl; lia
      |simpl; lia|simpl; lia|simpl; lia|left; simpl; lia].
  - intros r m' (-> & s' & els & Hs' & Hn & [= <-] & He).
    split; [done|]. by exists s'.
Defined.

(** ** The null vector *)

(** C10: [mc_vector_to_array], [mc_vector_fill] and [mc_vector_shrink] read
    [vec->count] before any test of [vec]: on the null pointer they are
    undefined, on every store, and report nothing. Every other function of the
    interface tests [vec] first: on the null pointer it returns, having set
    [errno] to [EFAULT], except [mc_vector_free], which does nothing, and
    [mc_vector_get_unchecked], which returns [LONG_MAX]. *)
Theorem null_vector (m : memory) :
  (forall buffer, mc_vector_to_array None buffer m = None)
  /\ (forall value, mc_vector_fill None value m = None)
  /\ mc_vector_shrink None m = None
  /\ mc_vector_clone None m = Some (None, set_errno EFAULT m)
  /\ mc_vector_free None m = Some (tt, m)
  /\ (forall buffer index length,
        mc_vector_extract None buffer index length m = Some (0, set_errno EFAULT m))
  /\ (forall index out, mc_vector_get None index out m = Some (0, set_errno EFAULT m))
  /\ (forall index, mc_vector_get_unchecked None index m = Some (Some LONG_MAX, m))
  /\ (forall index value, mc_vector_set None index value m = Some (0, set_errno EFAULT m))
  /\ mc_vector_size None m = Some (0, set_errno EFAULT m)
  /\ mc_vector_capacity None m = Some (0, set_errno EFAULT m)
  /\ mc_vector_empty None m = Some (1, set_errno EFAULT m)
  /\ mc_vector_is_stack None m = Some (0, set_errno EFAULT m)
  /\ (forall value, mc_vector_push None value m = Some (0, set_errno EFAULT m))
  /\ mc_vector_pop None m = Some (Some LONG_MIN, set_errno EFAULT m)
  /\ (forall index value, mc_vector_insert None index value m = Some (0, set_errno EFAULT m))
  /\ (forall index src length,
        mc_vector_inserts None index src length m = Some (0, set_errno EFAULT m))
  /\ (forall index, mc_vector_remove None index m = Some (0, set_errno EFAULT m))
  /\ (forall index length, mc_vector_erase None index length m = Some (0, set_errno EFAULT m))
  /\ (forall vec2, mc_vector_swap None vec2 m = Some (0, set_errno EFAULT m))
  /\ (forall vec1, mc_vector_swap vec1 None m = Some (0, set_errno EFAULT m))
  /\ (forall index length value,
        mc_vector_fill_range None index length value m = Some (0, set_errno EFAULT m))
  /\ (forall newSize, mc_vector_resize None newSize m = Some (0, set_errno EFAULT m))
  /\ mc_vector_clear None m = Some (0, set_errno EFAULT m)
  /\ (forall fprintf stream option,
        mc_vector_fprint fprintf None stream option m = Some (0, set_errno EFAULT m))
  /\ (forall sprintf buffer buflen option,
        mc_vector_sprint sprintf None buffer buflen option m = Some (0, set_errno EFAULT m))
  /\ (forall swprintf buffer buflen option,
        mc_vector_wprint swprintf None buffer buflen option m = Some (0, set_errno EFAULT m)).
Proof.
  repeat split; try reflexivity.
  - intros [a|]; [|reflexivity]. unfold mc_vector_swap.
    by rewrite bool_decide_eq_true_2 by tauto.
  - by intros fprintf [f|] option.
  - by intros sprintf [buf|] buflen option.
  - by intros swprintf [buf|] buflen option.
Qed.

(** ** Headers *)

Lemma same_headers_refl m : same_headers m m.
Proof. done. Qed.

Lemma same_headers_trans m1 m2 m3 :
  same_headers m1 m2 -> same_headers m2 m3 -> same_headers m1 m3.
Proof. intros H12 H23 a. by rewrite H23. Qed.

Lemma same_headers_vectors m m' : vectors m' = vectors m -> same_headers m m'.
Proof. intros H a. unfold hdr, struct_at. by rewrite H. Qed.

Lemma same_headers_put_array p l m : same_headers m (put_array p l m).
Proof.
  intros a. unfold hdr. destruct (struct_at m a) as [s|] eqn:Hs.
  - destruct (struct_at_put_array m p l a s Hs) as (s' & -> & Hh & _). simpl. by f_equal.
  - assert (struct_at (put_array p l m) a = None) as ->; [|done].
    destruct p as [|v|b]; [done| |done]. unfold put_array.
    destruct (struct_at m v) as [sv|] eqn:Hv; [|done].
    fold (put_struct v (with_stack_buf l sv) m).
    by rewrite struct_at_put_struct_ne by congruence.
Qed.

Lemma hdr_spare m a n c hb d : hdr m a = Some (n, c, hb, d) -> n < c -> spare m a.
Proof.
  unfold hdr, spare. destruct (struct_at m a) as [s|]; [|done].
  intros [= <- <- _ _] Hlt. by exists s.
Qed.

Lemma spare_hdr m a : spare m a -> exists n c hb d, hdr m a = Some (n, c, hb, d) /\ n < c.
Proof.
  intros (s & Hs & Hlt). exists (count s), (capacity s), (heap_buf s), (data s).
  unfold hdr. by rewrite Hs.
Qed.

Lemma spare_same_headers m m' a : same_headers m m' -> spare m a -> spare m' a.
Proof.
  intros Hsame (n & c & hb & d & Hh & Hlt)%spare_hdr.
  eapply hdr_spare; [|done]. by rewrite Hsame.
Qed.

(** ** Rules of partial correctness *)

Section wlp_rules.
Context {A B : Type}.
Implicit Types (m : memory) (a : nat) (s : vector_s).

Lemma wlp_ret (x : A) m Q : Q x m -> wlp (mret x) m Q.
Proof. intros HQ x' m' [= <- <-]. done. Qed.

Lemma wlp_bind (c : M A) (k : A -> M B) m Q :
  wlp c m (fun x m' => wlp (k x) m' Q) -> wlp (c ≫= k) m Q.
Proof.
  unfold wlp, mbind, M_bind. intros H y m'.
  destruct (c m) as [[x m1]|]; [|done]. by apply H.
Qed.

Lemma wlp_fmap (f : A -> B) (c : M A) m Q :
  wlp c m (fun x m' => Q (f x) m') -> wlp (f <$> c) m Q.
Proof.
  intros H. unfold fmap, M_fmap. apply wlp_bind.
  intros x m' Hrun y m'' [= <- <-]. by apply H.
Qed.

Lemma wlp_mono (c : M A) m (Q Q' : A -> memory -> Prop) :
  wlp c m Q -> (forall x m', Q x m' -> Q' x m') -> wlp c m Q'.
Proof. unfold wlp. eauto. Qed.

Lemma wlp_keeps (c : M A) m Q :
  keeps_headers c -> (forall x m', same_headers m m' -> Q x m') -> wlp c m Q.
Proof. unfold wlp, keeps_headers. eauto. Qed.

Lemma wlp_field (f : vector_s -> A) a h x m Q :
  hdr m a = Some h -> (forall s, header s = h -> f s = x) -> Q x m ->
  wlp (field f (Some a)) m Q.
Proof.
  unfold wlp, field, hdr. intros Hh Hf HQ y m'.
  destruct (struct_at m a) as [s|]; [|done]. intros [= <- <-].
  injection Hh as Hh. by rewrite (Hf s Hh).
Qed.
End wlp_rules.

Lemma hdr_put_struct m a s0 s : struct_at m a = Some s0 -> hdr (put_struct a s m) a = Some (header s).
Proof. intros H. unfold hdr. by erewrite struct_at_put_struct. Qed.

Lemma hdr_put_struct_ne m a a' s : a <> a' -> hdr (put_struct a s m) a' = hdr m a'.
Proof. intros H. unfold hdr. by rewrite struct_at_put_struct_ne. Qed.

Lemma wlp_assign a u h h' m Q :
  hdr m a = Some h -> (forall s, header s = h -> header (u s) = h') ->
  (forall m', hdr m' a = Some h' -> (forall a', a' <> a -> hdr m' a' = hdr m a') -> Q tt m') ->
  wlp (assign (Some a) u) m Q.
Proof.
  unfold wlp, assign. intros Hh Hu HQ [] m'.
  destruct (struct_at m a) as [s|] eqn:Hs; [|done]. intros [= <-].
  fold (put_struct a (u s) m). apply HQ.
  - erewrite hdr_put_struct by done. f_equal. apply Hu.
    unfold hdr in Hh. rewrite Hs in Hh. by injection Hh.
  - intros a' Hne. by rewrite hdr_put_struct_ne.
Qed.

Lemma wlp_stack_buf_ptr a m Q :
  Q (Inline a) m -> wlp (stack_buf_ptr (Some a)) m Q.
Proof.
  unfold wlp, stack_buf_ptr. intros HQ y m'.
  destruct (struct_at m a); [|done]. by intros [= <- <-].
Qed.

Lemma wlp_memmove dst doff src soff bytes ls m Q :
  array_at m src = Some ls ->
  (forall m', 0 <= soff -> 0 <= cells_of bytes ->
              soff + cells_of bytes <= Z.of_nat (length ls) ->
              same_headers m m' -> Q tt m') ->
  wlp (memmove dst doff src soff bytes) m Q.
Proof.
  unfold wlp, memmove. intros -> HQ [] m'. unfold read_range.
  case_bool_decide as Hr; [|done].
  destruct (array_at m dst) as [ld|]; [|done].
  destruct (write_range ld doff _) as [ld'|]; [|done]. intros [= <-].
  apply HQ; [lia..|]. apply same_headers_put_array.
Qed.

Lemma hdr_lt m a h : hdr m a = Some h -> (a < length (vectors m))%nat.
Proof.
  unfold hdr. destruct (struct_at m a) as [s|] eqn:Hs; [|done].
  intros _. by eapply struct_at_lt.
Qed.

Lemma wlp_malloc_struct m Q :
  (forall m', same_headers m m' -> Q None m') ->
  (forall m', hdr m' (length (vectors m)) = Some (0, 0, NULL, NULL) ->
              (forall a, a <> length (vectors m) -> hdr m' a = hdr m a) ->
              Q (Some (length (vectors m))) m') ->
  wlp malloc_struct m Q.
Proof.
  unfold wlp, malloc_struct. intros Hnone Hsome y m'.
  destruct (alloc_ok m); intros [= <- <-].
  - apply Hsome.
    + unfold hdr. by rewrite struct_at_new.
    + intros a Hne. unfold hdr. by rewrite struct_at_new_ne.
  - apply Hnone. by apply same_headers_vectors.
Qed.

Lemma wlp_free_struct vec m Q :
  (forall m', Q tt m') -> wlp (free_struct vec) m Q.
Proof. intros HQ [] m' _. apply HQ. Qed.

(** ** Computations that keep the headers *)

Lemma keeps_ret {A} (x : A) : keeps_headers (mret x).
Proof. intros m y m' [= <- <-]. done. Qed.

Lemma keeps_bind {A B} (c : M A) (k : A -> M B) :
  keeps_headers c -> (forall x, keeps_headers (k x)) -> keeps_headers (c ≫= k).
Proof.
  unfold keeps_headers, mbind, M_bind. intros Hc Hk m y m'.
  destruct (c m) as [[x m1]|] eqn:Hrun; [|done]. intros Hrun'.
  eapply same_headers_trans; eauto.
Qed.

Lemma keeps_fmap {A B} (f : A -> B) (c : M A) :
  keeps_headers c -> keeps_headers (f <$> c).
Proof. intros H. apply keeps_bind; [done|]. intros x. apply keeps_ret. Qed.

Lemma keeps_undefined {A} : keeps_headers (@undefined A).
Proof. intros m y m' [=]. Qed.

Lemma keeps_field {A} (f : vector_s -> A) vec : keeps_headers (field f vec).
Proof.
  intros m y m'. unfold field. destruct vec as [a|]; [|done].
  destruct (struct_at m a); [|done]. by intros [= <- <-].
Qed.

Lemma keeps_stack_buf_ptr vec : keeps_headers (stack_buf_ptr vec).
Proof.
  intros m y m'. unfold stack_buf_ptr. destruct vec as [a|]; [|done].
  destruct (struct_at m a); [|done]. by intros [= <- <-].
Qed.

Lemma keeps_raise e : keeps_headers (raise e).
Proof. intros m [] m' [= <-]. by apply same_headers_vectors. Qed.

Lemma keeps_load p i : keeps_headers (load p i).
Proof.
  intros m y m'. unfold load. destruct (array_at m p); [|done].
  case_bool_decide; [|done]. destruct (_ !! _); [|done]. by intros [= <- <-].
Qed.

Lemma keeps_store p i x : keeps_headers (store p i x).
Proof.
  intros m [] m'. unfold store. destruct (array_at m p); [|done].
  case_bool_decide; [|done]. intros [= <-]. apply same_headers_put_array.
Qed.

Lemma keeps_memmove dst doff src soff bytes : keeps_headers (memmove dst doff src soff bytes).
Proof.
  intros m [] m'. unfold memmove. destruct (array_at m src); [|done].
  destruct (read_range _ _ _); [|done]. destruct (array_at m dst); [|done].
  destruct (write_range _ _ _); [|done]. intros [= <-]. apply same_headers_put_array.
Qed.

Lemma keeps_memcpy dst doff src soff bytes : keeps_headers (memcpy dst doff src soff bytes).
Proof.
  unfold memcpy. case_bool_decide; [apply keeps_undefined|apply keeps_memmove].
Qed.

Lemma keeps_malloc bytes : keeps_headers (malloc bytes).
Proof.
  intros m y m'. unfold malloc.
  by destruct (alloc_ok m); intros [= <- <-]; apply same_headers_vectors.
Qed.

Lemma keeps_free p : keeps_headers (free p).
Proof.
  intros m [] m'. unfold free. destruct p as [|v|b]; [by intros [= <-]|done|].
  destruct (mjoin _); [|done]. intros [= <-]. by apply same_headers_vectors.
Qed.

Lemma keeps_realloc p bytes : keeps_headers (realloc p bytes).
Proof.
  intros m y m'. unfold realloc. destruct p as [|v|b]; [apply keeps_malloc|done|].
  destruct (mjoin _); [|done].
  by destruct (alloc_ok m); intros [= <- <-]; apply same_headers_vectors.
Qed.

Lemma keeps_for_loop_from body k : forall i,
  (forall i, keeps_headers (body i)) -> keeps_headers (for_loop_from i k body).
Proof.
  induction k as [|k IH]; intros i Hbody; simpl.
  - apply keeps_ret.
  - apply keeps_bind; [done|]. intros _. by apply IH.
Qed.

Lemma keeps_for_loop lo hi body :
  (forall i, keeps_headers (body i)) -> keeps_headers (for_loop lo hi body).
Proof. apply keeps_for_loop_from. Qed.

Ltac solve_keeps :=
  repeat first
    [ apply keeps_ret | apply keeps_field | apply keeps_stack_buf_ptr
    | apply keeps_raise | apply keeps_load | apply keeps_store
    | apply keeps_memmove | apply keeps_memcpy | apply keeps_malloc
    | apply keeps_realloc | apply keeps_free | apply keeps_undefined
    | apply keeps_for_loop; intros ?
    | apply keeps_fmap
    | apply keeps_bind; [|intros ?]
    | case_bool_decide ].

Lemma keeps_extract vec buffer index length :
  keeps_headers (mc_vector_extract vec buffer index length).
Proof. unfold mc_vector_extract. solve_keeps. Qed.

Lemma keeps_to_array vec buffer : keeps_headers (mc_vector_to_array vec buffer).
Proof. unfold mc_vector_to_array. solve_keeps. apply keeps_extract. Qed.

Lemma keeps_get vec index out : keeps_headers (mc_vector_get vec index out).
Proof. unfold mc_vector_get. solve_keeps. Qed.

Lemma keeps_get_unchecked vec index : keeps_headers (mc_vector_get_unchecked vec index).
Proof. unfold mc_vector_get_unchecked. solve_keeps. Qed.

Lemma keeps_set vec index value : keeps_headers (mc_vector_set vec index value).
Proof. unfold mc_vector_set. solve_keeps. Qed.

Lemma keeps_size vec : keeps_headers (mc_vector_size vec).
Proof. unfold mc_vector_size. solve_keeps. Qed.

Lemma keeps_capacity vec : keeps_headers (mc_vector_capacity vec).
Proof. unfold mc_vector_capacity. solve_keeps. Qed.

Lemma keeps_empty vec : keeps_headers (mc_vector_empty vec).
Proof. unfold mc_vector_empty. solve_keeps. Qed.

Lemma keeps_is_stack vec : keeps_headers (mc_vector_is_stack vec).
Proof. unfold mc_vector_is_stack. solve_keeps. Qed.

Lemma keeps_fill_range vec index length value :
  keeps_headers (mc_vector_fill_range vec index length value).
Proof. unfold mc_vector_fill_range. solve_keeps. Qed.

Lemma keeps_fill vec value : keeps_headers (mc_vector_fill vec value).
Proof. unfold mc_vector_fill. solve_keeps. apply keeps_fill_range. Qed.

(** ** Symbolic execution, partial *)

Ltac solve_header :=
  let s := fresh "s" in let Hs := fresh "Hs" in
  let H1 := fresh in let H2 := fresh in let H3 := fresh in let H4 := fresh in
  intros s Hs; unfold header in *; simpl; injection Hs as H1 H2 H3 H4;
  rewrite ?H1, ?H2, ?H3, ?H4; reflexivity.

(** Moves what is known of the headers of [m] to [m'], which has the same. *)
Ltac move_hdrs m Hsame :=
  repeat match goal with
         | H : hdr m ?a = _ |- _ => rewrite <- (Hsame a) in H
         end;
  clear Hsame.

(** The same after an assignment to a member of the structure at [a]. *)
Ltac move_other_hdrs m a Hothers :=
  repeat match goal with
         | H : hdr m a = _ |- _ => clear H
         | H : hdr m ?a' = _ |- _ => rewrite <- (Hothers a') in H by congruence
         end;
  clear Hothers.

Ltac wlp_intro_same m :=
  let m' := fresh "m" in let Hsame := fresh "Hsame" in
  intros m' Hsame; move_hdrs m Hsame.

Ltac wlp_keep lem :=
  lazymatch goal with
  | |- wlp _ ?m _ =>
      apply wlp_keeps; [apply lem|];
      let x := fresh "x" in intros x; wlp_intro_same m
  end.

Ltac wlp_prim :=
  lazymatch goal with
  | |- wlp (mret _) _ _ => apply wlp_ret
  | |- wlp (fmap _ _) _ _ => apply wlp_fmap
  | |- wlp (field _ (Some _)) _ _ => eapply wlp_field; [eassumption|solve_header|]
  | |- wlp (assign (Some ?a) _) ?m _ =>
      eapply wlp_assign; [eassumption|solve_header|];
      let m' := fresh "m" in let Hh := fresh "Hhdr" in let Ho := fresh "Hothers" in
      intros m' Hh Ho; move_other_hdrs m a Ho
  | |- wlp (stack_buf_ptr (Some _)) _ _ => apply wlp_stack_buf_ptr
  | |- wlp (raise _) _ _ => wlp_keep keeps_raise
  | |- wlp (load _ _) _ _ => wlp_keep keeps_load
  | |- wlp (store _ _ _) _ _ => wlp_keep keeps_store
  | |- wlp (memmove _ _ _ _ _) ?m _ =>
      first [ eapply wlp_memmove; [eassumption|];
              let m' := fresh "m" in let Hsame := fresh "Hsame" in
              intros m' ? ? ? Hsame; move_hdrs m Hsame
            | wlp_keep keeps_memmove ]
  | |- wlp (memcpy _ _ _ _ _) _ _ => wlp_keep keeps_memcpy
  | |- wlp (malloc _) _ _ => wlp_keep keeps_malloc
  | |- wlp (realloc _ _) _ _ => wlp_keep keeps_realloc
  | |- wlp (free _) _ _ => wlp_keep keeps_free
  | |- wlp (malloc_struct) ?m _ =>
      apply wlp_malloc_struct;
      [ wlp_intro_same m
      | let m' := fresh "m" in let Hh := fresh "Hhdr" in let Ho := fresh "Hothers" in
        intros m' Hh Ho;
        repeat match goal with
               | H : hdr m ?a' = Some _ |- _ =>
                   rewrite <- (Ho a') in H by (apply Nat.lt_neq, (hdr_lt _ _ _ H))
               end;
        clear Ho ]
  | |- wlp (free_struct _) _ _ => apply wlp_free_struct; intros ?
  | |- wlp (if true then ?c else _) ?m ?Q => change (wlp c m Q)
  | |- wlp (if false then _ else ?c) ?m ?Q => change (wlp c m Q)
  | |- wlp (if bool_decide _ then _ else _) _ _ => case_bool_decide; try done
  end.

Ltac wlp_step :=
  lazymatch goal with
  | |- wlp (mbind _ _) _ _ => apply wlp_bind; wlp_step
  | |- _ => wlp_prim
  end.

Lemma well_formed_hdr m a :
  well_formed m a ->
  exists n c hb d l, hdr m a = Some (n, c, hb, d) /\ sized_header n c
    /\ array_at m d = Some l /\ Z.of_nat (length l) * sizeof_long <= SIZE_MAX.
Proof.
  intros Hwf.
  destruct (well_formed_elim _ _ Hwf) as (s & l & [Hs Hl] & Hsb & Hc & Hpos & Hd).
  exists (count s), (capacity s), (heap_buf s), (data s), l.
  unfold hdr. rewrite Hs. split; [done|]. split; [|split; [done|]].
  - unfold sized_header. split; [done|]. split; [done|].
    destruct Hd as [(_ & _ & ? & _)|(b & _ & _ & _ & [_ ?])]; [|done].
    rewrite SIZE_MAX_eq. unfold sizeof_long, MC_VECTOR_BUFSIZE in *. lia.
  - destruct Hd as [(_ & _ & ? & ->)|(b & _ & _ & -> & [_ ?])]; [|done].
    rewrite Hsb, SIZE_MAX_eq. unfold sizeof_long, MC_VECTOR_BUFSIZE in *. lia.
Qed.


Ltac finish_room :=
  unfold room_kept; do 4 eexists; split; [eassumption|];
  unfold sizeof_long, is_size in *;
  rewrite ?size_wrap_small in * by lia; lia.

Lemma pop_room m a n c hb d :
  hdr m a = Some (n, c, hb, d) -> sized_header n c ->
  wlp (mc_vector_pop (Some a)) m (fun _ m' => room_kept n c a m').
Proof.
  intros Hh (Hn & Hc & Hc8).
  unfold mc_vector_pop. repeat wlp_step; finish_room.
Qed.

Lemma clear_room m a n c hb d :
  hdr m a = Some (n, c, hb, d) -> sized_header n c ->
  wlp (mc_vector_clear (Some a)) m (fun _ m' => room_kept n c a m').
Proof.
  intros Hh (Hn & Hc & Hc8).
  unfold mc_vector_clear. repeat wlp_step; unfold MC_VECTOR_BUFSIZE in *; finish_room.
Qed.

Lemma remove_room m a n c hb d index :
  hdr m a = Some (n, c, hb, d) -> sized_header n c -> is_size index ->
  wlp (mc_vector_remove (Some a) index) m (fun _ m' => room_kept n c a m').
Proof.
  intros Hh (Hn & Hc & Hc8) Hi.
  unfold mc_vector_remove. repeat wlp_step; try finish_room.
  - apply wlp_bind. eapply wlp_mono; [by eapply pop_room|].
    intros x m' (n' & c' & hb' & d' & Hh' & Hlt). 
    destruct x; [apply wlp_ret|intros ? ? [=]]; unfold room_kept; eauto 10.
Qed.

Lemma erase_room m a n c hb d l index length :
  hdr m a = Some (n, c, hb, d) -> sized_header n c ->
  array_at m d = Some l -> Z.of_nat (List.length l) * sizeof_long <= SIZE_MAX ->
  is_size index -> is_size length -> index + length <= SIZE_MAX ->
  wlp (mc_vector_erase (Some a) index length) m (fun _ m' => room_kept n c a m').
Proof.
  intros Hh (Hn & Hc & Hc8) Hl Hl8 Hi Hlen Hsum.
  unfold mc_vector_erase. repeat wlp_step; finish_room.
Qed.

(** [vec_ensure_capacity] either gives up and leaves the header as it is, or
    returns with room for [len] more elements. *)
Lemma ensure_room m a n c hb d len :
  hdr m a = Some (n, c, hb, d) -> 0 <= n <= c -> 0 < c -> is_size len ->
  n + len <= SIZE_MAX -> (n + len < c \/ c * 2 + len <= SIZE_MAX) ->
  wlp (vec_ensure_capacity (Some a) len) m (fun r m' =>
    (r = 0 /\ hdr m' a = Some (n, c, hb, d))
    \/ (r = 1 /\ exists c' hb' d', hdr m' a = Some (n, c', hb', d') /\ n + len < c' /\ c <= c')).
Proof.
  intros Hh Hn Hc Hlen Hnl Hgrow.
  unfold vec_ensure_capacity. repeat wlp_step.
  all: unfold is_size in *; rewrite ?size_wrap_small in * by lia.
  all: try rewrite (size_wrap_small (c * 2)) in * by lia.
  all: rewrite ?size_wrap_small in * by lia.
  all: first [ by left | right; split; [done|]; do 3 eexists; split; [eassumption|]; lia ].
Qed.

Ltac finish_made :=
  unfold room_made; do 4 eexists; split; [eassumption|];
  unfold sizeof_long, is_size in *;
  rewrite ?size_wrap_small in * by lia; split; first [ done | lia ].

Lemma push_room m a n c hb d x :
  hdr m a = Some (n, c, hb, d) -> 0 <= n <= c -> 0 < c ->
  n + 1 <= SIZE_MAX -> (n + 1 < c \/ c * 2 + 1 <= SIZE_MAX) ->
  wlp (mc_vector_push (Some a) x) m (fun r m' => room_made n c a r m').
Proof.
  intros Hh Hn Hc Hn1 Hgrow.
  unfold mc_vector_push. wlp_step.
  apply wlp_bind. eapply wlp_mono; [by eapply ensure_room; rewrite ?SIZE_MAX_eq|].
  intros r m1 [[-> Hh1]|(-> & c' & hb' & d' & Hh1 & Hlt & Hcc)]; clear Hh.
  - repeat wlp_step. finish_made.
  - repeat wlp_step. finish_made.
Qed.

Lemma insert_room m a n c hb d index x :
  hdr m a = Some (n, c, hb, d) -> 0 <= n <= c -> 0 < c -> is_size index ->
  c * 2 + 1 <= SIZE_MAX ->
  wlp (mc_vector_insert (Some a) index x) m (fun r m' => room_made n c a r m').
Proof.
  intros Hh Hn Hc Hi Hgrow.
  unfold mc_vector_insert. repeat wlp_step; try finish_made.
  apply wlp_bind. eapply wlp_mono; [eapply ensure_room; try done; rewrite ?SIZE_MAX_eq in *; lia|].
  intros r m1 [[-> Hh1]|(-> & c' & hb' & d' & Hh1 & Hlt & Hcc)]; clear Hh.
  - repeat wlp_step. finish_made.
  - repeat wlp_step; try finish_made.
    eapply wlp_mono; [eapply push_room; try done; lia|].
    intros r m2 (n2 & c2 & hb2 & d2 & Hh2 & Hkept & Hmade).
    unfold room_made. do 4 eexists. split; [done|]. lia.
Qed.

Lemma inserts_room m a n c hb d index src length :
  hdr m a = Some (n, c, hb, d) -> 0 <= n <= c -> 0 < c -> is_size index ->
  representable length -> c * sizeof_long <= SIZE_MAX ->
  wlp (mc_vector_inserts (Some a) index src length) m (fun r m' => room_made n c a r m').
Proof.
  intros Hh Hn Hc Hi [Hl0 Hl8] Hc8. unfold sizeof_long in *.
  unfold mc_vector_inserts. repeat wlp_step; try finish_made.
  apply wlp_bind.
  eapply wlp_mono; [eapply ensure_room; try done; unfold is_size; rewrite ?SIZE_MAX_eq in *; lia|].
  intros r m1 [[-> Hh1]|(-> & c' & hb' & d' & Hh1 & Hlt & Hcc)]; clear Hh.
  - repeat wlp_step. finish_made.
  - repeat wlp_step; finish_made.
Qed.

(** ** Construction, partial *)

Lemma make_room m cap :
  is_size cap ->
  wlp (mc_vector_make cap) m (fun r m' => forall a, r = Some a -> spare m' a).
Proof.
  intros Hcap. unfold mc_vector_make. repeat wlp_step.
  all: intros a0 Hr; try discriminate Hr; injection Hr as <-.
  all: eapply hdr_spare; [eassumption|]; unfold MC_VECTOR_BUFSIZE in *; lia.
Qed.

Lemma from_array_room m src length :
  representable length ->
  wlp (mc_vector_from_array src length) m (fun r m' => forall a, r = Some a -> spare m' a).
Proof.
  intros [Hl0 Hl8]. unfold mc_vector_from_array, mc_vector_make. repeat wlp_step.
  all: intros a0 Hr; try discriminate Hr; injection Hr as <-.
  all: eapply hdr_spare; [eassumption|].
  all: unfold sizeof_long in *; rewrite size_wrap_small by lia; lia.
Qed.

Lemma clone_room m a0 n c hb d :
  hdr m a0 = Some (n, c, hb, d) -> n < c ->
  wlp (mc_vector_clone (Some a0)) m (fun r m' =>
    forall a, r = Some a -> spare m' a /\ spare m' a0).
Proof.
  intros Hh Hlt. pose proof (hdr_lt _ _ _ Hh) as Hlive.
  assert (Hfresh : a0 <> length (vectors m)) by lia.
  unfold mc_vector_clone, mc_vector_make. repeat wlp_step.
  all: intros a1 Hr; try discriminate Hr; injection Hr as <-.
  all: split; eapply hdr_spare; eassumption.
Qed.

Lemma swap_room m a1 a2 n1 c1 hb1 d1 n2 c2 hb2 d2 :
  hdr m a1 = Some (n1, c1, hb1, d1) -> hdr m a2 = Some (n2, c2, hb2, d2) ->
  n1 < c1 -> n2 < c2 ->
  wlp (mc_vector_swap (Some a1) (Some a2)) m (fun _ m' => spare m' a1 /\ spare m' a2).
Proof.
  intros Hh1 Hh2 Hlt1 Hlt2. unfold mc_vector_swap.
  destruct (decide (a1 = a2)) as [->|Hne].
  - assert (n2 = n1 /\ c2 = c1) as [-> ->] by (split; congruence). clear Hh2.
    repeat wlp_step; try tauto.
    all: split; eapply hdr_spare; eassumption.
  - repeat wlp_step; try tauto.
    all: split; eapply hdr_spare; eassumption.
Qed.

(** ** Count and capacity after a push *)

(** C9: a successful push can leave the count equal to the capacity.
    [mc_vector_resize] to a size above [MC_VECTOR_BUFSIZE] and below the count
    leaves the count above the capacity: the vector made of 22 elements with
    capacity 30 has count 22 and capacity 11 after a resize to 11.
    [vec_ensure_capacity] then computes the new capacity from the stale one,
    [11 * 2 + 1]: the next push returns 1 and leaves count and capacity both
    at 23, where the elements above the first eleven, the pushed one apart,
    were never written. *)
Lemma push_after_resize_fills_capacity :
  result (v ← mc_vector_make_filled 30 22 7;
          made ← observe v;
          r1 ← mc_vector_resize v 11;
          resized ← observe v;
          r2 ← mc_vector_push v 1;
          pushed ← observe v;
          after ← contents v;
          mret (made, r1, resized, r2, pushed, after)) empty_memory
  = Some ((22, 30, 0), 1, (22, 11, 0), 1, (23, 23, 0),
          Some (replicate 11 (Some 7) ++ replicate 11 None ++ [Some 1])).
Proof. vm_compute. reflexivity. Qed.

(** A full buffer is also reached, by design, through the branch of
    [mc_vector_resize] that reallocates: a vector of 12 elements and capacity
    20, with an allocated buffer, has capacity 12 after [mc_vector_shrink]. *)
Lemma shrink_allocated_fills_capacity :
  result (v ← mc_vector_make 20;
          push_list v [1; 2; 3; 4; 5; 6; 7; 8; 9; 10; 11; 12];;
          before ← observe v;
          r ← mc_vector_shrink v;
          after ← observe v;
          mret (before, r, after)) empty_memory
  = Some ((12, 20, 0), 1, (12, 12, 0)).
Proof. vm_compute. reflexivity. Qed.

(** * Further properties of the interface *)

(** ** Well-formed vectors *)

(** What a well-formed vector consists of, with the view a caller has of
    it. *)
Lemma well_formed_view m a :
  well_formed m a ->
  exists s l,
    holds m a s l
    /\ view_of m a = Some (View (count s) (capacity s) (bool_decide (data s <> heap_buf s))
                             (take (Z.to_nat (count s)) l))
    /\ length (stack_buf s) = Z.to_nat MC_VECTOR_BUFSIZE
    /\ 0 <= count s <= capacity s /\ 0 < capacity s
    /\ capacity s <= Z.of_nat (length l) /\ representable (capacity s)
    /\ ((data s = Inline a /\ heap_buf s = NULL /\ capacity s <= MC_VECTOR_BUFSIZE
         /\ l = stack_buf s)
        \/ (exists b, data s = Block b /\ heap_buf s = Block b
                      /\ Z.of_nat (length l) = capacity s)).
Proof.
  intros Hwf.
  destruct (well_formed_elim _ _ Hwf) as (s & l & Hh & Hsb & Hc & Hpos & Hd).
  destruct (well_formed_count_le _ _ _ _ Hwf Hh) as [_ Hcl].
  exists s, l. split; [done|].
  split; [apply view_of_holds; [done|lia]|].
  repeat (split; [done || lia|]).
  split; [by eapply well_formed_representable|].
  destruct Hd as [?|(b & ? & ? & ? & _)]; [by left|right; by exists b].
Qed.

(** A store that has the same objects has the same well-formed vectors. *)
Lemma well_formed_same_objects m m' a :
  vectors m' = vectors m -> arrays m' = arrays m ->
  (well_formed m a -> well_formed m' a) /\ view_of m' a = view_of m a.
Proof.
  intros Hv Ha.
  assert (Hs : forall a, struct_at m' a = struct_at m a)
    by (intros; unfold struct_at; by rewrite Hv).
  assert (Hp : forall p, array_at m' p = array_at m p).
  { intros [|?|?]; simpl; [done|by rewrite Hs|by rewrite Ha]. }
  split.
  - unfold well_formed. rewrite Hs. destruct (struct_at m a) as [s|]; [|done].
    destruct (data s); [done|done|]. by rewrite Hp.
  - unfold view_of, elements. rewrite Hs. destruct (struct_at m a) as [s|]; [|done].
    simpl. by rewrite Hp.
Qed.

(** The vector after its count is set to a value within its capacity. *)
Lemma well_formed_put_count m a s l n :
  well_formed m a -> holds m a s l -> 0 <= n <= capacity s ->
  well_formed (put_struct a (with_count n s) m) a
  /\ holds (put_struct a (with_count n s) m) a (with_count n s) l.
Proof.
  intros Hwf Hh Hn.
  destruct (well_formed_elim _ _ Hwf) as (s0 & l0 & [Hs0 Hl0] & Hsb & Hc & Hpos & Hd).
  pose proof Hh as [Hs Hl].
  assert (s0 = s) as -> by congruence. assert (l0 = l) as -> by congruence.
  assert (Hh' : holds (put_struct a (with_count n s) m) a (with_count n s) l)
    by (by eapply holds_put_struct).
  split; [|done].
  eapply well_formed_intro; [exact Hh'|done|simpl; lia|done|].
  destruct Hd as [(? & ? & ? & _)|(b & ? & ? & ? & ?)]; [by left|right; by exists b].
Qed.

(** The vector after its active array is overwritten by one of the same
    length. *)
Lemma well_formed_put_array m a s l l' :
  well_formed m a -> holds m a s l -> length l' = length l ->
  exists s', well_formed (put_array (data s) l' m) a
    /\ holds (put_array (data s) l' m) a s' l'
    /\ header s' = header s.
Proof.
  intros Hwf Hh Hlen.
  destruct (well_formed_elim _ _ Hwf) as (s0 & l0 & [Hs0 Hl0] & Hsb & Hc & Hpos & Hd).
  pose proof Hh as [Hs Hl].
  assert (s0 = s) as -> by congruence. assert (l0 = l) as -> by congruence.
  destruct (holds_put_array m a s l l' Hh) as (s' & Hh' & Hhd & Hsb').
  exists s'. split; [|done].
  pose proof Hhd as [= Hn' Hc' Hhb' Hd'].
  eapply well_formed_intro; [exact Hh'| |lia|lia|].
  - rewrite Hsb'. case_decide as Hdec; [|done].
    destruct Hd as [(_ & _ & _ & ->)|(b & ? & _)]; [|congruence]. by rewrite Hlen.
  - rewrite Hd', Hhb', Hc', Hlen.
    destruct Hd as [(? & ? & ? & _)|(b & ? & ? & ? & ?)]; [by left|right; by exists b].
Qed.

(** ** Pushing and popping *)

(** X1: on a well-formed vector whose doubled capacity is representable,
    [mc_vector_push] either returns 1, having appended the value (the count
    is one more, the elements are the old ones followed by the value, the
    capacity has not decreased), or returns 0 with [errno] set to [ENOMEM],
    the caller's view of the vector being what it was. In both cases the
    vector is still well-formed. *)
Theorem push_all_or_nothing (m : memory) (a : nat) (v : view) (x : Z) :
  well_formed m a -> view_of m a = Some v ->
  representable (v_capacity v * 2 + 1) ->
  wp (mc_vector_push (Some a) x) m (fun r m' =>
    well_formed m' a
    /\ ((r = 1 /\ exists v', view_of m' a = Some v'
                  /\ v_count v' = v_count v + 1
                  /\ v_elements v' = v_elements v ++ [Some x]
                  /\ v_capacity v <= v_capacity v')
        \/ (r = 0 /\ errno m' = Some ENOMEM /\ view_of m' a = Some v))).
Proof.
  intros Hwf Hv Hrep.
  destruct (decide (v_count v + 1 < v_capacity v)) as [Hlt|Hge].
  - eapply wp_mono; [by apply (push_enough m a v x)|].
    intros r m' (-> & Hwf' & Hv' & _). split; [done|]. left. split; [done|].
    eexists. split; [exact Hv'|]. simpl. repeat split; lia.
  - destruct (alloc_ok m) eqn:Hok.
    + eapply wp_mono; [apply (push_grow m a v x); [done|done|lia|done|done]|].
      intros r m' (-> & Hwf' & Hv' & _). split; [done|]. left. split; [done|].
      eexists. split; [exact Hv'|]. simpl.
      destruct (well_formed_view _ _ Hwf) as (s & l & _ & Hv0 & _ & _ & Hpos & _).
      rewrite Hv in Hv0. injection Hv0 as ->. simpl. repeat split; lia.
    + eapply wp_mono; [apply (push_fail m a v x); [done|done|lia|done]|].
      intros r m' (-> & ->).
      destruct (well_formed_same_objects m (set_errno ENOMEM (next_alloc m)) a)
        as [Hkeep Hview]; [done|done|].
      split; [by apply Hkeep|]. right. by rewrite Hview.
Qed.

Lemma push_all_or_nothing_witness :
  wp (mc_vector_push (Some 0%nat) 4) allocated_123 (fun r m' =>
    well_formed m' 0
    /\ ((r = 1 /\ exists v', view_of m' 0 = Some v'
                  /\ v_count v' = 3 + 1
                  /\ v_elements v' = [Some 1; Some 2; Some 3] ++ [Some 4]
                  /\ 30 <= v_capacity v')
        \/ (r = 0 /\ errno m' = Some ENOMEM
            /\ view_of m' 0 = Some (View 3 30 false [Some 1; Some 2; Some 3])))).
Proof.
  apply (push_all_or_nothing allocated_123 0 (View 3 30 false [Some 1; Some 2; Some 3]) 4).
  - compute_done.
  - reflexivity.
  - compute_done.
Defined.

(** [mc_vector_pop] on a vector that is not empty. *)
Lemma pop_last m a s l :
  holds m a s l -> 0 < count s <= Z.of_nat (length l) -> count s <= SIZE_MAX ->
  wp (mc_vector_pop (Some a)) m (fun r m' =>
    l !! Z.to_nat (count s - 1) = Some r
    /\ m' = put_struct a (with_count (count s - 1) s) m).
Proof.
  intros Hh Hc Hmax. pose proof Hh as [Hs Hl].
  destruct (lookup_lt_is_Some_2 l (Z.to_nat (count s - 1))) as [c Hc']; [lia|].
  unfold mc_vector_pop. repeat wp_step.
  rewrite size_wrap_small by lia.
  assert (Hh' : holds (put_struct a (with_count (count s - 1) s) m) a
                  (with_count (count s - 1) s) l) by (by eapply holds_put_struct).
  destruct Hh' as [_ Hl'].
  eapply wp_load; [exact Hl'|lia|exact Hc'|]. done.
Qed.

(** X2: on a well-formed vector that is not empty, [mc_vector_pop] returns
    the last element and removes it: the count is one less and the elements
    are the former ones without the last. The capacity and the buffer in use
    are the same: popping never gives storage back. *)
Theorem pop_returns_last (m : memory) (a : nat) (v : view) :
  well_formed m a -> view_of m a = Some v -> 0 < v_count v ->
  wp (mc_vector_pop (Some a)) m (fun r m' =>
    v_elements v !! Z.to_nat (v_count v - 1) = Some r
    /\ well_formed m' a
    /\ view_of m' a = Some (View (v_count v - 1) (v_capacity v) (v_is_stack v)
                              (take (Z.to_nat (v_count v - 1)) (v_elements v)))
    /\ errno m' = errno m /\ allocator m' = allocator m).
Proof.
  intros Hwf Hv Hpos.
  destruct (well_formed_view _ _ Hwf)
    as (s & l & Hh & Hv0 & Hsb & Hc & Hcpos & Hcl & Hrep & Hd).
  rewrite Hv in Hv0. injection Hv0 as ->. simpl in *.
  pose proof (representable_size _ Hrep).
  eapply wp_mono; [apply (pop_last m a s l); [done|lia|lia]|].
  intros r m' (Hr & ->).
  destruct (well_formed_put_count m a s l (count s - 1) Hwf Hh) as [Hwf' Hh']; [lia|].
  split; [|split; [done|split; [|done]]].
  - rewrite lookup_take_lt by lia. done.
  - rewrite (view_of_holds _ _ _ _ Hh') by (simpl; lia). simpl.
    rewrite take_take. do 3 f_equal. lia.
Qed.

Lemma pop_returns_last_witness :
  wp (mc_vector_pop (Some 0%nat)) allocated_123 (fun r m' =>
    [Some 1; Some 2; Some 3] !! Z.to_nat (3 - 1) = Some r
    /\ well_formed m' 0
    /\ view_of m' 0 = Some (View (3 - 1) 30 false
                              (take (Z.to_nat (3 - 1)) [Some 1; Some 2; Some 3]))
    /\ errno m' = errno allocated_123 /\ allocator m' = allocator allocated_123).
Proof.
  apply (pop_returns_last allocated_123 0 (View 3 30 false [Some 1; Some 2; Some 3])).
  - compute_done.
  - reflexivity.
  - simpl. lia.
Defined.

(** [mc_vector_push] when the vector has room or can grow. *)
Lemma push_ok m a v x :
  well_formed m a -> view_of m a = Some v ->
  v_count v + 1 < v_capacity v
  \/ (representable (v_capacity v * 2 + 1) /\ alloc_ok m = true) ->
  wp (mc_vector_push (Some a) x) m (fun r m' =>
    r = 1 /\ well_formed m' a
    /\ exists c', view_of m' a
         = Some (View (v_count v + 1) c' (bool_decide (c' = v_capacity v) && v_is_stack v)
                   (v_elements v ++ [Some x]))
       /\ (c' = v_capacity v /\ allocator m' = allocator m
           \/ c' = v_capacity v * 2 + 1 /\ allocator m' = tl (allocator m)
              /\ v_capacity v <= v_count v + 1)).
Proof.
  intros Hwf Hv Hroom.
  destruct (well_formed_view _ _ Hwf) as (s & l & _ & Hv0 & _ & _ & Hpos & _).
  rewrite Hv in Hv0.
  destruct (decide (v_count v + 1 < v_capacity v)) as [Hlt|Hge].
  - eapply wp_mono; [by apply (push_enough m a v x)|].
    intros r m' (-> & Hwf' & Hv' & Hal & _). split; [done|]. split; [done|].
    exists (v_capacity v). rewrite bool_decide_eq_true_2 by done. split; [done|].
    by left.
  - destruct Hroom as [?|[Hrep Hok]]; [lia|].
    eapply wp_mono; [apply (push_grow m a v x); [done|done|lia|done|done]|].
    intros r m' (-> & Hwf' & Hv' & Hal & _). split; [done|]. split; [done|].
    exists (v_capacity v * 2 + 1). split.
    + rewrite Hv'. do 2 f_equal. injection Hv0 as ->. simpl in *.
      rewrite bool_decide_eq_false_2 by lia. done.
    + right. split; [done|]. split; [done|]. lia.
Qed.

(** X3: a value pushed onto a well-formed vector that has room, or can grow,
    is the value [mc_vector_pop] returns next; after the two calls the count
    and the elements are those before them. The capacity is not given back
    if the push has grown it. *)
Theorem push_then_pop (m : memory) (a : nat) (v : view) (x : Z) :
  well_formed m a -> view_of m a = Some v ->
  v_count v + 1 < v_capacity v
  \/ (representable (v_capacity v * 2 + 1) /\ alloc_ok m = true) ->
  wp (r ← mc_vector_push (Some a) x;
      y ← mc_vector_pop (Some a);
      mret (r, y)) m
    (fun r m' =>
       r = (1, Some x) /\ well_formed m' a
       /\ exists v', view_of m' a = Some v'
            /\ v_count v' = v_count v /\ v_elements v' = v_elements v
            /\ v_capacity v <= v_capacity v').
Proof.
  intros Hwf Hv Hroom.
  destruct (well_formed_view _ _ Hwf) as (s0 & l0 & _ & Hv0 & _ & Hc0 & Hpos0 & Hcl0 & _).
  rewrite Hv in Hv0. injection Hv0 as Hv0.
  wp_apply wp_mono; [by apply (push_ok m a v x)|].
  intros r m1 (-> & Hwf1 & c' & Hv1 & Hc').
  destruct (well_formed_view _ _ Hwf1)
    as (s & l & Hh & Hv1' & Hsb & Hc & Hcpos & Hcl & Hrep & Hd).
  rewrite Hv1 in Hv1'. injection Hv1' as Hn1 Hc1 Hst1 He1.
  pose proof (representable_size _ Hrep).
  assert (Hn0 : 0 <= v_count v) by (rewrite Hv0; simpl; lia).
  wp_apply wp_mono; [apply (pop_last m1 a s l); [done|lia|lia]|].
  intros y m2 (Hy & ->). wp_step.
  destruct (well_formed_put_count m1 a s l (count s - 1) Hwf1 Hh) as [Hwf2 Hh2]; [lia|].
  assert (Hlen : length (v_elements v) = Z.to_nat (v_count v)).
  { rewrite Hv0. simpl. rewrite length_take. lia. }
  split; [|split; [done|]].
  - f_equal.
    assert (take (Z.to_nat (count s)) l !! Z.to_nat (count s - 1) = Some (Some x)) as Hx.
    { rewrite <- He1, <- Hn1.
      replace (Z.to_nat (v_count v + 1 - 1)) with (length (v_elements v)) by lia.
      apply list_lookup_middle. done. }
    rewrite lookup_take_lt in Hx by lia. congruence.
  - eexists. split; [apply (view_of_holds _ _ _ _ Hh2); simpl; lia|]. simpl.
    split; [lia|]. split; [|destruct Hc' as [[-> _]|(-> & _)]; rewrite <- Hc1; lia].
    replace (take (Z.to_nat (count s - 1)) l)
      with (take (Z.to_nat (count s - 1)) (take (Z.to_nat (count s)) l))
      by (rewrite take_take; f_equal; lia).
    rewrite <- He1, <- Hn1.
    replace (Z.to_nat (v_count v + 1 - 1)) with (length (v_elements v)) by lia.
    by rewrite take_app_length.
Qed.

Lemma push_then_pop_witness :
  wp (r ← mc_vector_push (Some 0%nat) 4;
      y ← mc_vector_pop (Some 0%nat);
      mret (r, y)) allocated_123
    (fun r m' =>
       r = (1, Some 4) /\ well_formed m' 0
       /\ exists v', view_of m' 0 = Some v'
            /\ v_count v' = 3 /\ v_elements v' = [Some 1; Some 2; Some 3]
            /\ 30 <= v_capacity v').
Proof.
  apply (push_then_pop allocated_123 0 (View 3 30 false [Some 1; Some 2; Some 3]) 4).
  - compute_done.
  - reflexivity.
  - left. simpl. lia.
Defined.

Lemma allocs_succeed_allocator k m m' :
  allocator m' = allocator m -> allocs_succeed k m' = allocs_succeed k m.
Proof. unfold allocs_succeed. by intros ->. Qed.

Lemma allocs_succeed_fewer k m :
  allocs_succeed (S k) m = true -> allocs_succeed k m = true.
Proof.
  unfold allocs_succeed. generalize (allocator m). clear m.
  induction k as [|k IH]; intros l; [done|].
  destruct l as [|b l]; [done|].
  change (take (S (S k)) (b :: l)) with (b :: take (S k) l).
  change (take (S k) (b :: l)) with (b :: take k l).
  simpl. intros [-> Hl]%andb_prop. simpl. by apply IH.
Qed.

(** X4: pushing the values of a list onto a well-formed vector, while every
    allocation succeeds and the capacity that repeated growth can reach is
    representable, appends them in order: the count grows by the length of
    the list and the elements are the old ones followed by the values. *)
Theorem push_list_appends (xs : list Z) (m : memory) (a : nat) (v : view) :
  well_formed m a -> view_of m a = Some v ->
  representable ((v_capacity v + 1) * 2 ^ Z.of_nat (length xs)) ->
  allocs_succeed (length xs) m = true ->
  wp (push_list (Some a) xs) m (fun r m' =>
    r = 1 /\ well_formed m' a
    /\ exists v', view_of m' a = Some v'
         /\ v_count v' = v_count v + Z.of_nat (length xs)
         /\ v_elements v' = v_elements v ++ (Some <$> xs)
         /\ v_capacity v <= v_capacity v').
Proof.
  revert m v. induction xs as [|x xs IH]; intros m v Hwf Hv Hrep Hal.
  - apply wp_ret. split; [done|]. split; [done|]. exists v.
    rewrite Z.add_0_r, app_nil_r. repeat split; [done|lia].
  - destruct (well_formed_view _ _ Hwf) as (s & l & _ & Hv0 & _ & _ & Hpos & _).
    rewrite Hv in Hv0. injection Hv0 as Hv0.
    assert (Hcap : 0 < v_capacity v) by (rewrite Hv0; done).
    change (length (x :: xs)) with (S (length xs)) in Hrep, Hal.
    rewrite Nat2Z.inj_succ, Z.pow_succ_r in Hrep by lia.
    pose proof (Z.pow_pos_nonneg 2 (Z.of_nat (length xs))) as Hpow.
    destruct (alloc_ok_next _ _ Hal) as [Hok Hal'].
    simpl. wp_apply wp_mono.
    { apply (push_ok m a v x); [done|done|]. right. split; [|done].
      eapply representable_le; [exact Hrep|]. nia. }
    intros r m1 (-> & Hwf1 & c' & Hv1 & Hc'). wp_step.
    eapply wp_mono.
    { apply (IH m1 _ Hwf1 Hv1).
      - simpl. eapply representable_le; [exact Hrep|].
        destruct Hc' as [[-> _]|(-> & _)]; nia.
      - destruct Hc' as [[_ Hal1]|(_ & Hal1 & _)].
        + rewrite (allocs_succeed_allocator _ m) by done. by apply allocs_succeed_fewer.
        + by rewrite (allocs_succeed_allocator _ (next_alloc m)). }
    intros r m' (-> & Hwf' & v' & Hv' & Hn' & He' & Hle). simpl in *.
    split; [done|]. split; [done|]. exists v'. split; [done|].
    split; [lia|]. split; [by rewrite He', <- app_assoc|].
    destruct Hc' as [[-> _]|(-> & _)]; lia.
Qed.

Lemma push_list_appends_witness :
  wp (push_list (Some 0%nat) [4; 5]) allocated_123 (fun r m' =>
    r = 1 /\ well_formed m' 0
    /\ exists v', view_of m' 0 = Some v'
         /\ v_count v' = 3 + Z.of_nat (length [4; 5])
         /\ v_elements v' = [Some 1; Some 2; Some 3] ++ (Some <$> [4; 5])
         /\ 30 <= v_capacity v').
Proof.
  apply (push_list_appends [4; 5] allocated_123 0
           (View 3 30 false [Some 1; Some 2; Some 3])).
  - compute_done.
  - reflexivity.
  - compute_done.
  - reflexivity.
Defined.

(** ** Edge cases *)

(** X5: on an empty vector, [mc_vector_empty] returns 1 and the functions
    that need an element fail without touching the vector:
    [mc_vector_pop] returns [LONG_MIN] and sets [ENOMEM];
    [mc_vector_to_array], [mc_vector_fill] and [mc_vector_shrink] return 0
    and set [EINVAL]. *)
Theorem empty_vector (m : memory) (a : nat) (s : vector_s) (buffer : ptr) (value : Z) :
  struct_at m a = Some s -> count s = 0 -> buffer <> NULL ->
  mc_vector_empty (Some a) m = Some (1, m)
  /\ mc_vector_pop (Some a) m = Some (Some LONG_MIN, set_errno ENOMEM m)
  /\ mc_vector_to_array (Some a) buffer m = Some (0, set_errno EINVAL m)
  /\ mc_vector_fill (Some a) value m = Some (0, set_errno EINVAL m)
  /\ mc_vector_shrink (Some a) m = Some (0, set_errno EINVAL m).
Proof.
  intros Hs Hn Hb. repeat split; apply wp_exact.
  - unfold mc_vector_empty. repeat wp_step. by rewrite Hn.
  - unfold mc_vector_pop. repeat wp_step. done.
  - unfold mc_vector_to_array, mc_vector_extract. repeat wp_step. done.
  - unfold mc_vector_fill, mc_vector_fill_range. repeat wp_step. done.
  - unfold mc_vector_shrink, mc_vector_resize. repeat wp_step. done.
Qed.

Lemma empty_vector_witness :
  mc_vector_empty (Some 0%nat) inline_empty = Some (1, inline_empty)
  /\ mc_vector_pop (Some 0%nat) inline_empty
     = Some (Some LONG_MIN, set_errno ENOMEM inline_empty)
  /\ mc_vector_to_array (Some 0%nat) (Block 0) inline_empty
     = Some (0, set_errno EINVAL inline_empty)
  /\ mc_vector_fill (Some 0%nat) 7 inline_empty = Some (0, set_errno EINVAL inline_empty)
  /\ mc_vector_shrink (Some 0%nat) inline_empty = Some (0, set_errno EINVAL inline_empty).
Proof.
  eapply (empty_vector inline_empty 0 _ (Block 0) 7); [reflexivity|reflexivity|done].
Defined.

(** X6: an index that is not below the count is rejected by
    [mc_vector_set], [mc_vector_insert], [mc_vector_remove],
    [mc_vector_erase], [mc_vector_extract] and [mc_vector_fill_range]: each
    returns 0, sets [errno] to [EINVAL] and leaves every object as it was. In
    particular nothing can be inserted at the end of a vector, nor into an
    empty one. *)
Theorem index_beyond_count (m : memory) (a : nat) (s : vector_s)
    (index value length : Z) (buffer : ptr) :
  struct_at m a = Some s -> count s <= index -> buffer <> NULL ->
  mc_vector_set (Some a) index value m = Some (0, set_errno EINVAL m)
  /\ mc_vector_insert (Some a) index value m = Some (0, set_errno EINVAL m)
  /\ mc_vector_remove (Some a) index m = Some (0, set_errno EINVAL m)
  /\ mc_vector_erase (Some a) index length m = Some (0, set_errno EINVAL m)
  /\ mc_vector_extract (Some a) buffer index length m = Some (0, set_errno EINVAL m)
  /\ mc_vector_fill_range (Some a) index length value m = Some (0, set_errno EINVAL m).
Proof.
  intros Hs Hn Hb. repeat split; apply wp_exact.
  - unfold mc_vector_set. repeat wp_step. done.
  - unfold mc_vector_insert. repeat wp_step. done.
  - unfold mc_vector_remove. repeat wp_step. done.
  - unfold mc_vector_erase. repeat wp_step. done.
  - unfold mc_vector_extract. repeat wp_step. done.
  - unfold mc_vector_fill_range. repeat wp_step. done.
Qed.

Lemma index_beyond_count_witness :
  mc_vector_set (Some 0%nat) 3 9 inline_123 = Some (0, set_errno EINVAL inline_123)
  /\ mc_vector_insert (Some 0%nat) 3 9 inline_123 = Some (0, set_errno EINVAL inline_123)
  /\ mc_vector_remove (Some 0%nat) 3 inline_123 = Some (0, set_errno EINVAL inline_123)
  /\ mc_vector_erase (Some 0%nat) 3 1 inline_123 = Some (0, set_errno EINVAL inline_123)
  /\ mc_vector_extract (Some 0%nat) (Block 0) 3 1 inline_123
     = Some (0, set_errno EINVAL inline_123)
  /\ mc_vector_fill_range (Some 0%nat) 3 1 9 inline_123
     = Some (0, set_errno EINVAL inline_123).
Proof.
  eapply (index_beyond_count inline_123 0 _ 3 9 1 (Block 0)); [reflexivity|simpl; lia|done].
Defined.

(** ** Element access *)

(** X7: on a well-formed vector, [mc_vector_set] at an index below the count
    returns 1 and stores the value there, and [mc_vector_get_unchecked] at
    that index then returns it; the other elements, the count and the
    capacity are unchanged. *)
Theorem set_then_get (m : memory) (a : nat) (v : view) (index x : Z) :
  well_formed m a -> view_of m a = Some v -> 0 <= index < v_count v ->
  wp (r ← mc_vector_set (Some a) index x;
      y ← mc_vector_get_unchecked (Some a) index;
      mret (r, y)) m
    (fun r m' =>
       r = (1, Some x) /\ well_formed m' a
       /\ view_of m' a = Some (View (v_count v) (v_capacity v) (v_is_stack v)
                                 (<[Z.to_nat index := Some x]> (v_elements v)))).
Proof.
  intros Hwf Hv Hi.
  destruct (well_formed_view _ _ Hwf)
    as (s & l & Hh & Hv0 & Hsb & Hc & Hcpos & Hcl & Hrep & Hd).
  rewrite Hv in Hv0. injection Hv0 as ->. simpl in *.
  pose proof Hh as [Hs Hl].
  unfold mc_vector_set. repeat wp_step.
  wp_apply wp_store; [done|lia|].
  destruct (well_formed_put_array m a s l (<[Z.to_nat index := Some x]> l) Hwf Hh)
    as (s' & Hwf' & Hh' & [= Hn' Hc' Hhb' Hd']); [by rewrite length_insert|].
  pose proof Hh' as [Hs' Hl'].
  repeat wp_step.
  unfold mc_vector_get_unchecked. repeat wp_step.
  wp_apply wp_load; [done|lia| |].
  { apply list_lookup_insert_eq. lia. }
  wp_step. split; [done|]. split; [done|].
  rewrite (view_of_holds _ _ _ _ Hh') by (rewrite length_insert; lia).
  rewrite Hn', Hc', Hhb', Hd'. do 2 f_equal.
  by rewrite take_insert_lt by lia.
Qed.

Lemma set_then_get_witness :
  wp (r ← mc_vector_set (Some 0%nat) 1 9;
      y ← mc_vector_get_unchecked (Some 0%nat) 1;
      mret (r, y)) allocated_123
    (fun r m' =>
       r = (1, Some 9) /\ well_formed m' 0
       /\ view_of m' 0 = Some (View 3 30 false
                                 (<[Z.to_nat 1 := Some 9]> [Some 1; Some 2; Some 3]))).
Proof.
  apply (set_then_get allocated_123 0 (View 3 30 false [Some 1; Some 2; Some 3]) 1 9).
  - compute_done.
  - reflexivity.
  - simpl. lia.
Defined.

(** X8: [mc_vector_get] checks the index against the capacity, not the
    count: for every index below the capacity of a well-formed vector it
    returns 1 and copies the slot to the object [out] points to, also when
    the index is at or beyond the count and the slot holds no element. The
    vector is unchanged. At or beyond the capacity it returns 0 and sets
    [EINVAL]. *)
Theorem get_checks_capacity (m : memory) (a : nat) (s : vector_s) (l buf : list cell)
    (index : Z) (out : ptr) :
  well_formed m a -> holds m a s l ->
  array_at m out = Some buf -> buf <> [] -> out <> data s ->
  0 <= index ->
  wp (mc_vector_get (Some a) index out) m (fun r m' =>
    if bool_decide (index < capacity s)
    then r = 1 /\ (exists c, l !! Z.to_nat index = Some c
                             /\ array_at m' out = Some (<[0%nat := c]> buf))
         /\ view_of m' a = view_of m a
    else r = 0 /\ m' = set_errno EINVAL m).
Proof.
  intros Hwf Hh Hout Hbuf Hne Hi.
  destruct (well_formed_count_le _ _ _ _ Hwf Hh) as [Hc Hcl].
  pose proof Hh as [Hs Hl].
  assert (out <> NULL) by (by intros ->).
  unfold mc_vector_get. repeat wp_step.
  destruct (decide (index < capacity s)) as [Hlt|Hge].
  - rewrite bool_decide_eq_false_2 by lia. repeat wp_step.
    rewrite bool_decide_eq_true_2 by done.
    destruct (lookup_lt_is_Some_2 l (Z.to_nat index)) as [c Hc']; [lia|].
    wp_apply wp_load; [done|lia|exact Hc'|].
    wp_apply wp_store; [done|destruct buf; [done|simpl; lia]|].
    wp_step. split; [done|]. split.
    + exists c. split; [done|]. by erewrite array_at_put_array_same.
    + destruct (holds_put_array_other m a s l out (<[Z.to_nat 0 := c]> buf) Hh Hne)
        as (s' & Hh' & [= Hn' Hc'' Hhb' Hd']).
      rewrite (view_of_holds _ _ _ _ Hh') by lia.
      rewrite (view_of_holds _ _ _ _ Hh) by lia.
      by rewrite Hn', Hc'', Hhb', Hd'.
  - rewrite bool_decide_eq_true_2 by lia. repeat wp_step.
    by rewrite bool_decide_eq_false_2 by done.
Qed.

Lemma get_checks_capacity_witness :
  wp (mc_vector_get (Some 0%nat) 7 (Block 0)) inline_123 (fun r m' =>
    if bool_decide (7 < 10)
    then r = 1 /\ (exists c, ([Some 1; Some 2; Some 3] ++ replicate 7 None) !! Z.to_nat 7
                             = Some c
                             /\ array_at m' (Block 0) = Some (<[0%nat := c]> [None; None; None]))
         /\ view_of m' 0 = view_of inline_123 0
    else r = 0 /\ m' = set_errno EINVAL inline_123).
Proof.
  apply (get_checks_capacity inline_123 0
           (Vector_s 3 10 ([Some 1; Some 2; Some 3] ++ replicate 7 None) NULL (Inline 0))).
  - compute_done.
  - split; reflexivity.
  - reflexivity.
  - done.
  - done.
  - lia.
Defined.

(** ** Removal *)

(** X9: on a well-formed vector that is not full, [mc_vector_remove]
    strictly before the last position returns 1 and removes the element at
    the index: the count is one less and the elements are those before the
    index followed by those after it. The capacity is unchanged. *)
Theorem remove_before_last (m : memory) (a : nat) (v : view) (index : Z) :
  well_formed m a -> view_of m a = Some v ->
  0 <= index -> index + 1 < v_count v -> v_count v < v_capacity v ->
  wp (mc_vector_remove (Some a) index) m (fun r m' =>
    r = 1 /\ well_formed m' a
    /\ view_of m' a
       = Some (View (v_count v - 1) (v_capacity v) (v_is_stack v)
                 (take (Z.to_nat index) (v_elements v)
                  ++ drop (S (Z.to_nat index)) (v_elements v)))).
Proof.
  intros Hwf Hv Hi Hlt Hroom.
  destruct (well_formed_view _ _ Hwf)
    as (s & l & Hh & Hv0 & Hsb & Hc & Hcpos & Hcl & Hrep & Hd).
  rewrite Hv in Hv0. injection Hv0 as ->. simpl in *.
  pose proof Hh as [Hs Hl]. pose proof (representable_size _ Hrep).
  unfold mc_vector_remove. repeat wp_step.
  rewrite (size_wrap_small (count s - 1)) by lia.
  rewrite bool_decide_eq_false_2 by lia.
  repeat wp_step.
  rewrite (size_wrap_small (count s - index)) by lia.
  set (tail := take (Z.to_nat (count s - index)) (drop (Z.to_nat (index + 1)) l)).
  assert (Htl : length tail = Z.to_nat (count s - index)).
  { unfold tail. rewrite length_take, length_drop. lia. }
  set (l' := take (Z.to_nat index) l ++ tail ++ drop (Z.to_nat index + length tail) l).
  assert (Hlen : length l' = length l).
  { unfold l'. rewrite !length_app, length_take, length_drop. lia. }
  wp_apply wp_memmove; [exact Hl| |exact Hl| |].
  { instantiate (1 := tail).
    rewrite cells_of_bytes_of by (eapply representable_le; [exact Hrep|lia]).
    unfold read_range. by rewrite bool_decide_eq_true_2 by lia. }
  { instantiate (1 := l'). unfold write_range.
    by rewrite bool_decide_eq_true_2 by lia. }
  destruct (well_formed_put_array m a s l l' Hwf Hh Hlen)
    as (s' & Hwf' & Hh' & [= Hn' Hc' Hhb' Hd']).
  pose proof Hh' as [Hs' _].
  repeat wp_step. split; [done|].
  rewrite Hn', size_wrap_small by lia.
  destruct (well_formed_put_count _ a s' l' (count s - 1) Hwf' Hh') as [Hwf2 Hh2]; [lia|].
  split; [done|].
  rewrite (view_of_holds _ _ _ _ Hh2) by (simpl; lia). simpl.
  rewrite Hc', Hhb', Hd'. do 2 f_equal.
  unfold l', tail.
  rewrite take_take, skipn_firstn_comm.
  replace (Z.to_nat index `min` Z.to_nat (count s))%nat with (Z.to_nat index) by lia.
  rewrite take_app_ge by (rewrite length_take; lia). f_equal.
  rewrite length_take.
  rewrite take_app_le by (rewrite length_take, length_drop; lia).
  rewrite take_take.
  replace (Z.to_nat (index + 1)) with (S (Z.to_nat index)) by lia.
  f_equal. lia.
Qed.

Lemma remove_before_last_witness :
  wp (mc_vector_remove (Some 0%nat) 0) allocated_123 (fun r m' =>
    r = 1 /\ well_formed m' 0
    /\ view_of m' 0
       = Some (View (3 - 1) 30 false
                 (take (Z.to_nat 0) [Some 1; Some 2; Some 3]
                  ++ drop (S (Z.to_nat 0)) [Some 1; Some 2; Some 3]))).
Proof.
  apply (remove_before_last allocated_123 0 (View 3 30 false [Some 1; Some 2; Some 3]) 0).
  - compute_done.
  - reflexivity.
  - lia.
  - simpl. lia.
  - simpl. lia.
Defined.

(** [filled_12] is what the library builds. *)
Lemma filled_12_made :
  mc_vector_make_filled 12 12 7 empty_memory = Some (Some 0%nat, filled_12).
Proof. vm_compute. reflexivity. Qed.

(** X10: [mc_vector_remove] moves [count - index] elements, one more than
    there are after the index. On a vector whose active buffer is an
    allocated one that its count fills (as [mc_vector_make_filled] with equal
    capacity and length, above [MC_VECTOR_BUFSIZE], leaves it), removing at
    any position but the last reads one element past the end of the
    allocation: the call is undefined. *)
Theorem remove_reads_past_full (m : memory) (a : nat) (s : vector_s) (l : list cell)
    (b : nat) (index : Z) :
  holds m a s l -> data s = Block b ->
  count s = Z.of_nat (length l) -> representable (count s) ->
  0 <= index -> index + 1 < count s ->
  mc_vector_remove (Some a) index m = None.
Proof.
  intros Hh Hb Hn Hrep Hi Hlt. pose proof Hh as [Hs Hl].
  pose proof (representable_size _ Hrep).
  unfold mc_vector_remove. repeat undef_step.
  rewrite (size_wrap_small (count s - 1)) by lia.
  rewrite bool_decide_eq_false_2 by lia.
  repeat undef_step.
  apply undefined_bind_l.
  unfold memmove. rewrite Hl.
  rewrite (size_wrap_small (count s - index)) by lia.
  rewrite cells_of_bytes_of by (eapply representable_le; [exact Hrep|lia]).
  unfold read_range. by rewrite bool_decide_eq_false_2 by lia.
Qed.

Lemma remove_reads_past_full_witness :
  mc_vector_remove (Some 0%nat) 3 filled_12 = None.
Proof.
  apply (remove_reads_past_full filled_12 0
           (Vector_s 12 12 (replicate 10 None) (Block 0) (Block 0))
           (replicate 12 (Some 7)) 0 3).
  - split; reflexivity.
  - reflexivity.
  - reflexivity.
  - compute_done.
  - lia.
  - simpl. lia.
Defined.

(** X11: at the last position [mc_vector_remove] pops the element and
    compares it with [LONG_MIN], the error value of [mc_vector_pop]: the
    element is removed in any case, but the call returns 0 when the removed
    value is [LONG_MIN], and 1 otherwise. *)
Theorem remove_last (m : memory) (a : nat) (v : view) (x : Z) :
  well_formed m a -> view_of m a = Some v -> 0 < v_count v ->
  v_elements v !! Z.to_nat (v_count v - 1) = Some (Some x) ->
  wp (mc_vector_remove (Some a) (v_count v - 1)) m (fun r m' =>
    r = (if bool_decide (x = LONG_MIN) then 0 else 1)
    /\ well_formed m' a
    /\ view_of m' a = Some (View (v_count v - 1) (v_capacity v) (v_is_stack v)
                              (take (Z.to_nat (v_count v - 1)) (v_elements v)))
    /\ errno m' = errno m).
Proof.
  intros Hwf Hv Hpos Hx.
  destruct (well_formed_view _ _ Hwf)
    as (s & l & Hh & Hv0 & Hsb & Hc & Hcpos & Hcl & Hrep & Hd).
  rewrite Hv in Hv0. injection Hv0 as ->. simpl in *.
  pose proof Hh as [Hs Hl]. pose proof (representable_size _ Hrep).
  rewrite lookup_take_lt in Hx by lia.
  unfold mc_vector_remove. repeat wp_step.
  rewrite (size_wrap_small (count s - 1)) by lia.
  rewrite bool_decide_eq_true_2 by done.
  wp_apply wp_mono; [apply (pop_last m a s l); [done|lia|lia]|].
  intros r m' (Hr & ->). rewrite Hx in Hr. injection Hr as <-.
  wp_step.
  destruct (well_formed_put_count m a s l (count s - 1) Hwf Hh) as [Hwf' Hh']; [lia|].
  split; [by repeat case_bool_decide|]. split; [done|]. split; [|done].
  rewrite (view_of_holds _ _ _ _ Hh') by (simpl; lia). simpl.
  rewrite take_take. do 3 f_equal. lia.
Qed.

Lemma remove_last_witness :
  wp (mc_vector_remove (Some 0%nat) (3 - 1)) allocated_123 (fun r m' =>
    r = (if bool_decide (3 = LONG_MIN) then 0 else 1)
    /\ well_formed m' 0
    /\ view_of m' 0 = Some (View (3 - 1) 30 false
                              (take (Z.to_nat (3 - 1)) [Some 1; Some 2; Some 3]))
    /\ errno m' = errno allocated_123).
Proof.
  apply (remove_last allocated_123 0 (View 3 30 false [Some 1; Some 2; Some 3]) 3).
  - compute_done.
  - reflexivity.
  - simpl. lia.
  - reflexivity.
Defined.

(** X12: on a well-formed vector, [mc_vector_erase] of a range that ends
    strictly before the last element returns the length of the range (as a
    [short]) and removes the range: the count is less by the length, and the
    elements are those before the range followed by those after it. *)
Theorem erase_range (m : memory) (a : nat) (v : view) (index len : Z) :
  well_formed m a -> view_of m a = Some v ->
  0 <= index -> 0 < len -> index + len < v_count v ->
  wp (mc_vector_erase (Some a) index len) m (fun r m' =>
    r = to_short len /\ well_formed m' a
    /\ view_of m' a
       = Some (View (v_count v - len) (v_capacity v) (v_is_stack v)
                 (take (Z.to_nat index) (v_elements v)
                  ++ drop (Z.to_nat (index + len)) (v_elements v)))).
Proof.
  intros Hwf Hv Hi Hlen Hlt.
  destruct (well_formed_view _ _ Hwf)
    as (s & l & Hh & Hv0 & Hsb & Hc & Hcpos & Hcl & Hrep & Hd).
  rewrite Hv in Hv0. injection Hv0 as ->. simpl in *.
  pose proof Hh as [Hs Hl]. pose proof (representable_size _ Hrep).
  unfold mc_vector_erase. repeat wp_step.
  rewrite (size_wrap_small (index + len)) by lia.
  rewrite bool_decide_eq_false_2 by lia.
  repeat wp_step.
  rewrite (size_wrap_small (count s - index)) by lia.
  rewrite (size_wrap_small (count s - index - len)) by lia.
  set (tail := take (Z.to_nat (count s - index - len)) (drop (Z.to_nat (index + len)) l)).
  assert (Htl : length tail = Z.to_nat (count s - index - len)).
  { unfold tail. rewrite length_take, length_drop. lia. }
  set (l' := take (Z.to_nat index) l ++ tail ++ drop (Z.to_nat index + length tail) l).
  assert (Hlen' : length l' = length l).
  { unfold l'. rewrite !length_app, length_take, length_drop. lia. }
  wp_apply wp_memmove; [exact Hl| |exact Hl| |].
  { instantiate (1 := tail).
    rewrite cells_of_bytes_of by (eapply representable_le; [exact Hrep|lia]).
    unfold read_range. by rewrite bool_decide_eq_true_2 by lia. }
  { instantiate (1 := l'). unfold write_range.
    by rewrite bool_decide_eq_true_2 by lia. }
  destruct (well_formed_put_array m a s l l' Hwf Hh Hlen')
    as (s' & Hwf' & Hh' & [= Hn' Hc' Hhb' Hd']).
  pose proof Hh' as [Hs' _].
  repeat wp_step. split; [done|].
  rewrite Hn', size_wrap_small by lia.
  destruct (well_formed_put_count _ a s' l' (count s - len) Hwf' Hh') as [Hwf2 Hh2]; [lia|].
  split; [done|].
  rewrite (view_of_holds _ _ _ _ Hh2) by (simpl; lia). simpl.
  rewrite Hc', Hhb', Hd'. do 2 f_equal.
  unfold l', tail.
  rewrite take_take, skipn_firstn_comm.
  replace (Z.to_nat index `min` Z.to_nat (count s))%nat with (Z.to_nat index) by lia.
  rewrite take_app_ge by (rewrite length_take; lia). f_equal.
  rewrite length_take.
  rewrite take_app_ge by (rewrite length_take, length_drop; lia).
  rewrite length_take, length_drop.
  replace (Z.to_nat (count s - len) - Z.to_nat index `min` length l
           - Z.to_nat (count s - index - len) `min` (length l - Z.to_nat (index + len)))%nat
    with 0%nat by lia.
  rewrite take_0, app_nil_r. f_equal. lia.
Qed.

Lemma erase_range_witness :
  wp (mc_vector_erase (Some 0%nat) 0 2) allocated_123 (fun r m' =>
    r = to_short 2 /\ well_formed m' 0
    /\ view_of m' 0
       = Some (View (3 - 2) 30 false
                 (take (Z.to_nat 0) [Some 1; Some 2; Some 3]
                  ++ drop (Z.to_nat (0 + 2)) [Some 1; Some 2; Some 3]))).
Proof.
  apply (erase_range allocated_123 0 (View 3 30 false [Some 1; Some 2; Some 3]) 0 2).
  - compute_done.
  - reflexivity.
  - lia.
  - lia.
  - simpl. lia.
Defined.

(** X13: [mc_vector_erase] rejects every range that reaches the last
    element and whose end [index + length] does not exceed [SIZE_MAX]: when
    [index + length] is the count or more, and at most [SIZE_MAX], it returns
    0, sets [errno] to [EINVAL] and changes nothing else, so the last element
    of a vector cannot be erased by this function. *)
Theorem erase_rejects_tail (m : memory) (a : nat) (s : vector_s) (index len : Z) :
  struct_at m a = Some s -> 0 <= index -> 0 <= len ->
  count s <= index + len <= SIZE_MAX ->
  mc_vector_erase (Some a) index len m = Some (0, set_errno EINVAL m).
Proof.
  intros Hs Hi Hlen Hge. apply wp_exact.
  unfold mc_vector_erase. repeat wp_step.
  rewrite (size_wrap_small (index + len)) by lia.
  rewrite bool_decide_eq_true_2 by lia.
  repeat wp_step. done.
Qed.

Lemma erase_rejects_tail_witness :
  mc_vector_erase (Some 0%nat) 1 2 allocated_123
  = Some (0, set_errno EINVAL allocated_123).
Proof.
  eapply (erase_rejects_tail allocated_123 0 _ 1 2); [reflexivity|lia|lia|].
  simpl. rewrite SIZE_MAX_eq. lia.
Defined.

(** The bound on [index + length] is needed: the check of
    [mc_vector_erase] compares the sum reduced modulo [SIZE_MAX + 1]. On the
    vector of 1 to 9, in its inline buffer of capacity 10, the range of
    length [SIZE_MAX] from index 1 passes the check, the sum being 0: the
    call moves the nine elements one place up, adds one to the count and
    returns -1, [SIZE_MAX] as a [short]. *)
Lemma erase_wrapped_range :
  result (v ← mc_vector_make 5;
          push_list v [1; 2; 3; 4; 5; 6; 7; 8; 9];;
          before ← observe v;
          r ← mc_vector_erase v 1 SIZE_MAX;
          after ← observe v;
          l ← contents v;
          mret (before, r, after, l)) empty_memory
  = Some ((9, 10, 1), -1, (10, 10, 1),
          Some [Some 1; Some 1; Some 2; Some 3; Some 4; Some 5; Some 6; Some 7;
                Some 8; Some 9]).
Proof. vm_compute. reflexivity. Qed.

(** ** Insertion *)

(** X14: on a well-formed vector that has room, or can grow,
    [mc_vector_insert] strictly before the last position returns 1 and
    inserts the value before the element at the index: the count is one
    more, and the elements are those before the index, the value, and those
    from the index on. *)
Theorem insert_before_last (m : memory) (a : nat) (v : view) (index x : Z) :
  well_formed m a -> view_of m a = Some v ->
  0 <= index -> index + 1 < v_count v ->
  v_count v + 1 < v_capacity v
  \/ (representable (v_capacity v * 2 + 1) /\ alloc_ok m = true) ->
  wp (mc_vector_insert (Some a) index x) m (fun r m' =>
    r = 1 /\ well_formed m' a
    /\ exists v', view_of m' a = Some v'
         /\ v_count v' = v_count v + 1
         /\ v_elements v' = take (Z.to_nat index) (v_elements v)
                            ++ Some x :: drop (Z.to_nat index) (v_elements v)
         /\ v_capacity v <= v_capacity v').
Proof.
  intros Hwf Hv Hi Hlt Hroom.
  destruct (well_formed_view _ _ Hwf) as (s & l & Hh & Hv0 & _ & Hc & _ & Hcl & _).
  rewrite Hv in Hv0. injection Hv0 as ->. simpl in *.
  pose proof Hh as [Hs Hl].
  unfold mc_vector_insert. repeat wp_step.
  wp_apply wp_mono; [by apply (ensure_ready m a s l 1)|].
  intros ok m1 (-> & s1 & l1 & Hh1 & Hwf1 & Hn1 & (Hcap1 & Hle1 & _) & Htake & _).
  destruct (well_formed_view _ _ Hwf1)
    as (s1' & l1' & [Hs1' Hl1'] & _ & _ & Hc1 & _ & Hcl1 & Hrep1 & _).
  pose proof Hh1 as [Hs1 Hl1].
  assert (s1' = s1) as -> by congruence. assert (l1' = l1) as -> by congruence.
  pose proof (representable_size _ Hrep1).
  repeat wp_step. rewrite Hn1.
  rewrite (size_wrap_small (count s - 1)) by lia.
  rewrite bool_decide_eq_false_2 by lia.
  repeat wp_step. rewrite Hn1.
  rewrite (size_wrap_small (count s - index)) by lia.
  set (tail := take (Z.to_nat (count s - index)) (drop (Z.to_nat index) l1)).
  assert (Htl : length tail = Z.to_nat (count s - index)).
  { unfold tail. rewrite length_take, length_drop. lia. }
  set (l2 := take (Z.to_nat (index + 1)) l1 ++ tail
             ++ drop (Z.to_nat (index + 1) + length tail) l1).
  assert (Hlen2 : length l2 = length l1).
  { unfold l2. rewrite !length_app, length_take, length_drop. lia. }
  wp_apply wp_memmove; [exact Hl1| |exact Hl1| |].
  { instantiate (1 := tail).
    rewrite cells_of_bytes_of by (eapply representable_le; [exact Hrep1|lia]).
    unfold read_range. by rewrite bool_decide_eq_true_2 by lia. }
  { instantiate (1 := l2). unfold write_range.
    by rewrite bool_decide_eq_true_2 by lia. }
  destruct (well_formed_put_array m1 a s1 l1 l2 Hwf1 Hh1 Hlen2)
    as (s2 & Hwf2 & Hh2 & [= Hn2 Hc2 Hhb2 Hd2]).
  pose proof Hh2 as [Hs2 Hl2].
  repeat wp_step.
  wp_apply wp_store; [exact Hl2|lia|].
  set (l3 := <[Z.to_nat index := Some x]> l2).
  destruct (well_formed_put_array _ a s2 l2 l3 Hwf2 Hh2)
    as (s3 & Hwf3 & Hh3 & [= Hn3 Hc3 Hhb3 Hd3]); [by unfold l3; rewrite length_insert|].
  pose proof Hh3 as [Hs3 _].
  repeat wp_step. split; [done|].
  rewrite Hn3, Hn2, Hn1, size_wrap_small by lia.
  destruct (well_formed_put_count _ a s3 l3 (count s + 1) Hwf3 Hh3) as [Hwf4 Hh4]; [lia|].
  split; [done|]. eexists. split.
  { apply (view_of_holds _ _ _ _ Hh4). simpl. unfold l3. rewrite length_insert. lia. }
  simpl. split; [done|]. split; [|lia].
  rewrite <- Htake.
  pose proof (inserts_layout l1 [Some x] (Z.to_nat index) (Z.to_nat (count s)) 1) as Hlay.
  cbv zeta in Hlay.
  replace (Z.to_nat (count s) - Z.to_nat index)%nat
    with (Z.to_nat (count s - index)) in Hlay by lia.
  replace (Z.to_nat index + 1)%nat with (Z.to_nat (index + 1)) in Hlay by lia.
  replace (Z.to_nat (count s) + 1)%nat with (Z.to_nat (count s + 1)) in Hlay by lia.
  fold tail in Hlay. fold l2 in Hlay.
  etrans; [|apply Hlay; done || lia]. f_equal.
  unfold l3. rewrite insert_take_drop by lia. simpl.
  do 3 f_equal. lia.
Qed.

Lemma insert_before_last_witness :
  wp (mc_vector_insert (Some 0%nat) 1 9) allocated_123 (fun r m' =>
    r = 1 /\ well_formed m' 0
    /\ exists v', view_of m' 0 = Some v'
         /\ v_count v' = 3 + 1
         /\ v_elements v' = take (Z.to_nat 1) [Some 1; Some 2; Some 3]
                            ++ Some 9 :: drop (Z.to_nat 1) [Some 1; Some 2; Some 3]
         /\ 30 <= v_capacity v').
Proof.
  apply (insert_before_last allocated_123 0 (View 3 30 false [Some 1; Some 2; Some 3]) 1 9).
  - compute_done.
  - reflexivity.
  - lia.
  - simpl. lia.
  - left. simpl. lia.
Defined.




(** ** Swapping *)

(** Two stores with the same components are the same store. *)
Lemma memory_eq m m' :
  vectors m' = vectors m -> arrays m' = arrays m -> errno m' = errno m ->
  allocator m' = allocator m -> m' = m.
Proof. destruct m, m'. simpl. by intros -> -> -> ->. Qed.

(** The store after [mc_vector_swap] on two distinct vectors. *)
Lemma swap_spec m a1 a2 s1 s2 :
  a1 <> a2 -> struct_at m a1 = Some s1 -> struct_at m a2 = Some s2 ->
  mc_vector_swap (Some a1) (Some a2) m
  = Some (1, put_struct a2
               (Vector_s (count s1) (capacity s1) (stack_buf s2) (heap_buf s2) (data s1))
               (put_struct a1
                  (Vector_s (count s2) (capacity s2) (stack_buf s1) (heap_buf s1) (data s2))
                  m)).
Proof.
  intros Hne Hs1 Hs2. apply wp_exact. unfold mc_vector_swap.
  assert (forall s m0, struct_at m0 a2 = Some s2 -> struct_at (put_struct a1 s m0) a2 = Some s2)
    as Hkeep by (intros; by rewrite struct_at_put_struct_ne).
  wp_step. wp_step. wp_step. wp_step.
  wp_apply wp_field; [exact Hs2|]. wp_step.
  wp_apply wp_field; [by apply Hkeep|]. wp_step.
  wp_apply wp_field; [by do 2 apply Hkeep|]. wp_step.
  wp_apply wp_assign; [by do 3 apply Hkeep|].
  wp_apply wp_assign; [eapply struct_at_put_struct; by do 3 apply Hkeep|].
  wp_apply wp_assign; [do 2 eapply struct_at_put_struct; by do 3 apply Hkeep|].
  wp_step. split; [done|].
  by rewrite !put_struct_put_struct.
Qed.

Lemma put_struct_same m a s : struct_at m a = Some s -> put_struct a s m = m.
Proof.
  intros Hs. apply memory_eq; try done. simpl.
  apply list_insert_id. unfold struct_at in Hs.
  destruct (vectors m !! a) as [[s'|]|] eqn:E; simpl in Hs; congruence.
Qed.

Lemma put_struct_comm m a1 a2 s1 s2 :
  a1 <> a2 -> put_struct a1 s1 (put_struct a2 s2 m) = put_struct a2 s2 (put_struct a1 s1 m).
Proof.
  intros Hne. apply memory_eq; try done. simpl. by apply list_insert_insert_ne.
Qed.

Lemma wp_eq {A} (c : M A) m x m' Q : c m = Some (x, m') -> Q x m' -> wp c m Q.
Proof. unfold wp. by intros ->. Qed.

(** X16: [mc_vector_swap] applied twice to the same two live vectors
    returns 1 both times and leaves the store exactly as it was. *)
Theorem swap_twice (m : memory) (a1 a2 : nat) (s1 s2 : vector_s) :
  struct_at m a1 = Some s1 -> struct_at m a2 = Some s2 ->
  (mc_vector_swap (Some a1) (Some a2);; mc_vector_swap (Some a1) (Some a2)) m
  = Some (1, m).
Proof.
  intros Hs1 Hs2. apply wp_exact.
  destruct (decide (a1 = a2)) as [->|Hne].
  - assert (s2 = s1) as -> by congruence.
    unfold mc_vector_swap. repeat wp_step. split; [done|].
    rewrite !put_struct_put_struct. destruct s1. by apply put_struct_same.
  - wp_apply wp_eq; [by apply (swap_spec m a1 a2 s1 s2)|].
    eapply wp_eq.
    { eapply (swap_spec _ a1 a2).
      - done.
      - rewrite struct_at_put_struct_ne by done. by eapply struct_at_put_struct.
      - eapply struct_at_put_struct. by rewrite struct_at_put_struct_ne. }
    split; [done|]. simpl.
    rewrite (put_struct_comm _ a1 a2) by done.
    rewrite !put_struct_put_struct.
    destruct s1, s2. simpl in *.
    rewrite (put_struct_same _ a1) by done. by apply put_struct_same.
Qed.

Lemma swap_twice_witness :
  (mc_vector_swap (Some 0%nat) (Some 1%nat);; mc_vector_swap (Some 0%nat) (Some 1%nat))
    two_vectors
  = Some (1, two_vectors).
Proof. eapply (swap_twice two_vectors 0 1); reflexivity. Defined.

(** X17: [mc_vector_swap] on two distinct live vectors returns 1 and
    exchanges their counts, their capacities and their elements. Their
    [heap_buf] members are not exchanged: each vector keeps the allocated
    buffer it owned. No array is modified. *)
Theorem swap_exchanges_contents (m : memory) (a1 a2 : nat) (s1 s2 : vector_s) :
  a1 <> a2 -> struct_at m a1 = Some s1 -> struct_at m a2 = Some s2 ->
  wp (mc_vector_swap (Some a1) (Some a2)) m (fun r m' =>
    r = 1
    /\ (exists s1' s2',
          struct_at m' a1 = Some s1' /\ struct_at m' a2 = Some s2'
          /\ count s1' = count s2 /\ capacity s1' = capacity s2
          /\ count s2' = count s1 /\ capacity s2' = capacity s1
          /\ heap_buf s1' = heap_buf s1 /\ heap_buf s2' = heap_buf s2)
    /\ elements m' a1 = elements m a2
    /\ elements m' a2 = elements m a1
    /\ (forall p, array_at m' p = array_at m p)).
Proof.
  intros Hne Hs1 Hs2.
  eapply wp_eq; [by apply swap_spec|].
  set (s1' := Vector_s (count s2) (capacity s2) (stack_buf s1) (heap_buf s1) (data s2)).
  set (s2' := Vector_s (count s1) (capacity s1) (stack_buf s2) (heap_buf s2) (data s1)).
  assert (H1 : struct_at (put_struct a2 s2' (put_struct a1 s1' m)) a1 = Some s1').
  { rewrite struct_at_put_struct_ne by done. by eapply struct_at_put_struct. }
  assert (H2 : struct_at (put_struct a2 s2' (put_struct a1 s1' m)) a2 = Some s2').
  { eapply struct_at_put_struct. by rewrite struct_at_put_struct_ne. }
  assert (Hp : forall p, array_at (put_struct a2 s2' (put_struct a1 s1' m)) p = array_at m p).
  { intros [|a|b]; [done| |done]. simpl.
    destruct (decide (a = a2)) as [->|]; [by rewrite H2, Hs2|].
    rewrite struct_at_put_struct_ne by done.
    destruct (decide (a = a1)) as [->|]; [|by rewrite struct_at_put_struct_ne].
    erewrite struct_at_put_struct by done. by rewrite Hs1. }
  split; [done|]. split; [by exists s1', s2'|].
  unfold elements. rewrite H1, H2, Hs1, Hs2. simpl. by rewrite !Hp.
Qed.

Lemma swap_exchanges_contents_witness :
  wp (mc_vector_swap (Some 0%nat) (Some 1%nat)) two_vectors (fun r m' =>
    r = 1
    /\ (exists s1' s2',
          struct_at m' 0 = Some s1' /\ struct_at m' 1 = Some s2'
          /\ count s1' = 1 /\ capacity s1' = 10
          /\ count s2' = 3 /\ capacity s2' = 20
          /\ heap_buf s1' = Block 0 /\ heap_buf s2' = NULL)
    /\ elements m' 0 = elements two_vectors 1
    /\ elements m' 1 = elements two_vectors 0
    /\ (forall p, array_at m' p = array_at two_vectors p)).
Proof.
  apply (swap_exchanges_contents two_vectors 0 1
           (Vector_s 3 20 (replicate 10 None) (Block 0) (Block 0))
           (Vector_s 1 10 (Some 7 :: replicate 9 None) NULL (Inline 1)));
    [done|reflexivity|reflexivity].
Defined.

(** ** Filling *)

Lemma struct_at_put_array_ne m p l a :
  p <> Inline a -> struct_at (put_array p l m) a = struct_at m a.
Proof.
  intros Hne. destruct p as [|v|b]; [done| |done].
  unfold put_array. destruct (struct_at m v) as [s|] eqn:Hs; [|done].
  fold (put_struct v (with_stack_buf l s) m).
  apply struct_at_put_struct_ne. congruence.
Qed.

(** The active array of a well-formed vector is not the inline buffer of
    another vector. *)
Lemma well_formed_data_ne m a s a' :
  well_formed m a -> struct_at m a = Some s -> a' <> a -> data s <> Inline a'.
Proof.
  intros Hwf Hs Hne Hd.
  destruct (well_formed_view _ _ Hwf) as (s0 & l0 & [Hs0 _] & _ & _ & _ & _ & _ & _ & Hsh).
  assert (s0 = s) as -> by congruence.
  destruct Hsh as [(Hda & _)|(b & Hda & _)]; congruence.
Qed.

(** The loop of [mc_vector_fill_range] and [mc_vector_make_filled]. *)
Lemma fill_loop a x k : forall i m s l,
  well_formed m a -> holds m a s l ->
  0 <= i -> i + Z.of_nat k <= Z.of_nat (length l) ->
  wp (for_loop_from i k (fun i =>
        d ← field data (Some a);
        store d i (Some x))) m
    (fun _ m' =>
       well_formed m' a
       /\ (exists s', holds m' a s'
                        (take (Z.to_nat i) l ++ replicate k (Some x)
                         ++ drop (Z.to_nat i + k) l)
                      /\ header s' = header s)
       /\ allocator m' = allocator m /\ errno m' = errno m
       /\ (forall a', a' <> a -> struct_at m' a' = struct_at m a')
       /\ (forall p c, p <> data s -> array_at m p = Some c -> array_at m' p = Some c)).
Proof.
  induction k as [|k IH]; intros i m s l Hwf Hh Hi Hk.
  - apply wp_ret. split; [done|]. split; [|done].
    exists s. split; [|done]. simpl. rewrite Nat.add_0_r. by rewrite take_drop.
  - pose proof Hh as [Hs Hl]. cbn [for_loop_from].
    repeat wp_step. wp_apply wp_store; [done|lia|].
    set (l1 := <[Z.to_nat i := Some x]> l).
    destruct (well_formed_put_array m a s l l1 Hwf Hh)
      as (s1 & Hwf1 & Hh1 & Hhd1); [by unfold l1; rewrite length_insert|].
    pose proof Hhd1 as [= _ _ _ Hd1].
    eapply wp_mono; [apply (IH (i + 1) _ s1 l1 Hwf1 Hh1); [lia|]|].
    { unfold l1. rewrite length_insert. lia. }
    intros [] m' (Hwf' & (s' & Hh' & Hhd') & Hal & Herr & Hst & Har).
    split; [done|]. split; [|split; [|split; [|split]]].
    + exists s'. split; [|congruence].
      replace (take (Z.to_nat i) l ++ replicate (S k) (Some x) ++ drop (Z.to_nat i + S k) l)
        with (take (Z.to_nat (i + 1)) l1 ++ replicate k (Some x)
              ++ drop (Z.to_nat (i + 1) + k) l1); [done|].
      unfold l1. replace (Z.to_nat (i + 1)) with (S (Z.to_nat i)) by lia.
      rewrite take_insert_snoc by lia. rewrite drop_insert_lt by lia.
      rewrite <- app_assoc. simpl. repeat f_equal. lia.
    + by rewrite Hal, allocator_put_array.
    + by rewrite Herr, errno_put_array.
    + intros a' Ha'. rewrite Hst by done.
      apply struct_at_put_array_ne. exact (well_formed_data_ne m a s a' Hwf Hs Ha').
    + intros p c Hp Hc. apply Har; [congruence|].
      by rewrite array_at_put_array_ne by congruence.
Qed.

(** X18: on a well-formed vector, [mc_vector_fill_range] on a range of live
    elements returns 1 and sets every element of the range to the value; the
    elements outside of the range, the count and the capacity are unchanged.
    [mc_vector_fill] does so for all the elements of a vector that is not
    empty. *)
Theorem fill_range_sets (m : memory) (a : nat) (v : view) (index len x : Z) :
  well_formed m a -> view_of m a = Some v ->
  0 <= index -> 0 < len -> index + len <= v_count v ->
  wp (mc_vector_fill_range (Some a) index len x) m (fun r m' =>
    r = 1 /\ well_formed m' a
    /\ view_of m' a
       = Some (View (v_count v) (v_capacity v) (v_is_stack v)
                 (take (Z.to_nat index) (v_elements v)
                  ++ replicate (Z.to_nat len) (Some x)
                  ++ drop (Z.to_nat (index + len)) (v_elements v))))
  /\ wp (mc_vector_fill (Some a) x) m (fun r m' =>
       r = 1 /\ well_formed m' a
       /\ view_of m' a
          = Some (View (v_count v) (v_capacity v) (v_is_stack v)
                    (replicate (Z.to_nat (v_count v)) (Some x)))).
Proof.
  intros Hwf Hv Hi Hlen Hle.
  destruct (well_formed_view _ _ Hwf)
    as (s & l & Hh & Hv0 & Hsb & Hc & Hcpos & Hcl & Hrep & Hd).
  rewrite Hv in Hv0. injection Hv0 as ->. simpl in *.
  pose proof Hh as [Hs Hl]. pose proof (representable_size _ Hrep).
  assert (Hrange : forall i k, 0 <= i -> 0 < k -> i + k <= count s ->
    wp (mc_vector_fill_range (Some a) i k x) m (fun r m' =>
      r = 1 /\ well_formed m' a
      /\ view_of m' a
         = Some (View (count s) (capacity s) (bool_decide (data s <> heap_buf s))
                   (take (Z.to_nat (count s))
                      (take (Z.to_nat i) l ++ replicate (Z.to_nat k) (Some x)
                       ++ drop (Z.to_nat i + Z.to_nat k) l))))).
  { intros i k Hi' Hk Hik.
    unfold mc_vector_fill_range. repeat wp_step.
    rewrite (size_wrap_small (i + k)) by lia.
    rewrite bool_decide_eq_false_2 by lia.
    unfold for_loop. replace (i + k - i) with k by lia.
    wp_apply wp_mono; [apply (fill_loop a x (Z.to_nat k) i m s l Hwf Hh); lia|].
    intros [] m' (Hwf' & (s' & Hh' & [= Hn' Hc' Hhb' Hd']) & _).
    wp_step. split; [done|]. split; [done|].
    rewrite (view_of_holds _ _ _ _ Hh').
    2:{ rewrite !length_app, length_take, length_replicate, length_drop. lia. }
    by rewrite Hn', Hc', Hhb', Hd'. }
  split.
  - eapply wp_mono; [by apply (Hrange index len)|].
    intros r m' (-> & Hwf' & ->). split; [done|]. split; [done|]. do 2 f_equal.
    rewrite take_app_ge by (rewrite length_take; lia).
    rewrite take_take, length_take.
    replace (Z.to_nat index `min` Z.to_nat (count s))%nat with (Z.to_nat index) by lia.
    f_equal.
    rewrite take_app_ge by (rewrite length_replicate; lia).
    f_equal. rewrite length_replicate, skipn_firstn_comm.
    replace (Z.to_nat (index + len)) with (Z.to_nat index + Z.to_nat len)%nat by lia.
    f_equal. lia.
  - unfold mc_vector_fill. wp_step.
    eapply wp_mono; [apply (Hrange 0 (count s)); lia|].
    intros r m' (-> & Hwf' & ->). split; [done|]. split; [done|]. do 2 f_equal.
    simpl. rewrite take_app_length'; [done|]. by rewrite length_replicate.
Qed.

Lemma fill_range_sets_witness :
  wp (mc_vector_fill_range (Some 0%nat) 1 2 9) allocated_123 (fun r m' =>
    r = 1 /\ well_formed m' 0
    /\ view_of m' 0
       = Some (View 3 30 false
                 (take (Z.to_nat 1) [Some 1; Some 2; Some 3]
                  ++ replicate (Z.to_nat 2) (Some 9)
                  ++ drop (Z.to_nat (1 + 2)) [Some 1; Some 2; Some 3])))
  /\ wp (mc_vector_fill (Some 0%nat) 9) allocated_123 (fun r m' =>
       r = 1 /\ well_formed m' 0
       /\ view_of m' 0 = Some (View 3 30 false (replicate (Z.to_nat 3) (Some 9)))).
Proof.
  apply (fill_range_sets allocated_123 0 (View 3 30 false [Some 1; Some 2; Some 3]) 1 2 9).
  - compute_done.
  - reflexivity.
  - lia.
  - lia.
  - simpl. lia.
Defined.

(** ** Construction *)

(** [mc_vector_make] when the allocations it needs succeed. *)
Lemma make_ok m cap :
  0 < cap -> representable cap -> allocs_succeed 2 m = true ->
  wp (mc_vector_make cap) m (fun r m' =>
    let a := length (vectors m) in
    r = Some a /\ well_formed m' a
    /\ view_of m' a
       = Some (View 0 (Z.max cap MC_VECTOR_BUFSIZE) (bool_decide (cap <= MC_VECTOR_BUFSIZE)) [])
    /\ errno m' = errno m
    /\ (forall s, struct_at m' a = Some s -> array_at m (data s) = None)
    /\ (forall p x, array_at m p = Some x -> array_at m' p = Some x)
    /\ (forall a', a' <> a -> struct_at m' a' = struct_at m a')).
Proof.
  intros Hcap Hrep Hal.
  destruct (decide (cap <= MC_VECTOR_BUFSIZE)) as [Hle|Hgt].
  - eapply wp_mono; [apply (make_inline m cap); [lia|]|].
    { apply allocs_succeed_fewer in Hal. by apply alloc_ok_next in Hal as [? _]. }
    cbv zeta. intros r m' (-> & Hwf & Hv & _ & Herr & Hfresh & Har & Hst).
    rewrite Z.max_r by lia. rewrite bool_decide_eq_true_2 by done. done.
  - eapply wp_mono; [apply (make_heap m cap); [lia|done|done]|].
    cbv zeta. intros r m' (-> & Hwf & Hv & _ & Herr & Hfresh & Har & Hst).
    rewrite Z.max_l by lia. rewrite bool_decide_eq_false_2 by done. done.
Qed.



Lemma wp_free_struct a s m Q :
  struct_at m a = Some s -> Q tt (set_vectors <[a := None]> m) ->
  wp (free_struct (Some a)) m Q.
Proof. unfold wp, free_struct. by intros ->. Qed.

(** X20: when the structure is allocated and the allocation of the buffer
    fails, [mc_vector_make] releases the structure before it returns the null
    pointer with [errno] set to [ENOBUFS]: the store has no live object that
    it had not before, and those it had are unchanged. *)
Theorem make_failure_releases (m : memory) (cap : Z) :
  MC_VECTOR_BUFSIZE < cap -> alloc_ok m = true -> alloc_ok (next_alloc m) = false ->
  wp (mc_vector_make cap) m (fun r m' =>
    r = None /\ errno m' = Some ENOBUFS
    /\ arrays m' = arrays m
    /\ (forall a, struct_at m' a = struct_at m a)).
Proof.
  intros Hcap Hok Hfail.
  unfold mc_vector_make. repeat wp_step.
  wp_apply wp_malloc_struct_ok; [done|].
  repeat wp_step.
  wp_apply wp_malloc_fail; [done|].
  repeat wp_step.
  wp_apply wp_free_struct; [solve_struct|].
  repeat wp_step. repeat split.
  intros a. unfold struct_at. cbn.
  destruct (decide (a = length (vectors m))) as [->|Hne].
  - rewrite list_lookup_insert_eq by (rewrite length_insert, length_app; simpl; lia).
    rewrite lookup_ge_None_2 by lia. done.
  - rewrite list_lookup_insert_ne by done. rewrite list_lookup_insert_ne by done.
    destruct (decide (a < length (vectors m))%nat).
    + by rewrite lookup_app_l by lia.
    + rewrite !lookup_ge_None_2; [done|lia|rewrite length_app; simpl; lia].
Qed.

Lemma make_failure_releases_witness :
  wp (mc_vector_make 20) (Memory [] [] None [true; false]) (fun r m' =>
    r = None /\ errno m' = Some ENOBUFS
    /\ arrays m' = arrays (Memory [] [] None [true; false])
    /\ (forall a, struct_at m' a = struct_at (Memory [] [] None [true; false]) a)).
Proof.
  apply (make_failure_releases (Memory [] [] None [true; false]) 20);
    [compute_done|reflexivity|reflexivity].
Defined.



(** ** Cloning and destruction *)

(** A vector is the same in a store where its structure and its active array
    are the same. *)
Lemma well_formed_frame m m' a s :
  struct_at m a = Some s -> struct_at m' a = Some s ->
  array_at m' (data s) = array_at m (data s) ->
  (well_formed m a -> well_formed m' a) /\ view_of m' a = view_of m a.
Proof.
  intros Hs Hs' Hp. split.
  - unfold well_formed. rewrite Hs, Hs'. destruct (data s); [done|done|].
    by rewrite Hp.
  - unfold view_of, elements. rewrite Hs, Hs'. simpl. by rewrite Hp.
Qed.

(** X22: when the allocations succeed, [mc_vector_clone] of a well-formed
    vector returns a new well-formed vector with the same count, the same
    capacity and the same elements, whose active array is not that of the
    source; the source is unchanged. *)
Theorem clone_copies (m : memory) (a : nat) (v : view) :
  well_formed m a -> view_of m a = Some v -> allocs_succeed 2 m = true ->
  wp (mc_vector_clone (Some a)) m (fun r m' =>
    let a' := length (vectors m) in
    r = Some a' /\ a' <> a /\ well_formed m' a'
    /\ (exists v', view_of m' a' = Some v'
          /\ v_count v' = v_count v /\ v_capacity v' = v_capacity v
          /\ v_elements v' = v_elements v)
    /\ well_formed m' a /\ view_of m' a = Some v
    /\ (forall s s', struct_at m' a = Some s -> struct_at m' a' = Some s' ->
          data s' <> data s)).
Proof.
  intros Hwf Hv Hal.
  destruct (well_formed_view _ _ Hwf)
    as (s & l & Hh & Hv0 & Hsb & Hc & Hcpos & Hcl & Hrep & Hd).
  rewrite Hv in Hv0. injection Hv0 as Hv0.
  pose proof Hh as [Hs Hl]. pose proof (representable_size _ Hrep).
  pose proof (struct_at_lt _ _ _ Hs) as Hlt.
  set (a' := length (vectors m)). assert (Hne : a' <> a) by (unfold a'; lia).
  unfold mc_vector_clone. repeat wp_step.
  wp_apply wp_mono; [apply (make_ok m (capacity s)); [lia|done|done]|]. cbv zeta.
  fold a'. intros r m1 (-> & Hwf1 & Hv1 & _ & Hfresh & Har1 & Hst1).
  destruct (well_formed_view _ _ Hwf1)
    as (s1 & l1 & Hh1 & Hv1' & Hsb1 & Hc1 & Hcpos1 & Hcl1 & Hrep1 & Hd1).
  rewrite Hv1 in Hv1'. injection Hv1' as Hn1 Hcap1 Hstack1 _.
  pose proof Hh1 as [Hs1 Hl1].
  assert (Hsa1 : struct_at m1 a = Some s) by (rewrite Hst1 by done; done).
  assert (Hdd : data s1 <> data s).
  { intros E. pose proof (Hfresh s1 Hs1) as F. rewrite E in F. congruence. }
  repeat wp_step.
  set (l2 := take (Z.to_nat (count s)) l ++ drop (Z.to_nat (count s)) l1).
  assert (Hlen2 : length l2 = length l1).
  { unfold l2. rewrite length_app, length_take, length_drop. lia. }
  wp_apply wp_memcpy; [exact Hdd|by apply Har1| |exact Hl1| |].
  { rewrite cells_of_bytes_of by (eapply representable_le; [exact Hrep|lia]).
    apply read_range_prefix. lia. }
  { instantiate (1 := l2). unfold l2.
    replace (drop (Z.to_nat (count s)) l1)
      with (drop (length (take (Z.to_nat (count s)) l)) l1)
      by (rewrite length_take; f_equal; lia).
    apply write_range_prefix. rewrite length_take. lia. }
  destruct (well_formed_put_array m1 a' s1 l1 l2 Hwf1 Hh1 Hlen2)
    as (s2 & Hwf2 & Hh2 & [= Hn2 Hc2 Hhb2 Hd2]).
  pose proof Hh2 as [Hs2 Hl2].
  set (m2 := put_array (data s1) l2 m1) in *.
  assert (Hsa2 : struct_at m2 a = Some s).
  { unfold m2. rewrite struct_at_put_array_ne; [done|].
    by apply (well_formed_data_ne m1 a' s1 a Hwf1 Hs1). }
  assert (Hla2 : array_at m2 (data s) = Some l).
  { unfold m2. rewrite array_at_put_array_ne by done. by apply Har1. }
  repeat wp_step.
  wp_apply wp_field; [by rewrite struct_at_put_struct_ne|].
  wp_apply wp_assign; [by eapply struct_at_put_struct|].
  wp_step. rewrite put_struct_put_struct.
  set (s3 := with_count (count s) (with_capacity (capacity s) s2)).
  assert (Hh3 : holds (put_struct a' s3 m2) a' s3 l2) by (by eapply holds_put_struct).
  assert (Hinl : data s1 <> Inline a).
  { by apply (well_formed_data_ne m1 a' s1 a Hwf1 Hs1). }
  destruct (well_formed_frame m (put_struct a' s3 m2) a s Hs) as [Hkeep Hview].
  { by rewrite struct_at_put_struct_ne. }
  { rewrite array_at_put_struct_ne; [by rewrite Hla2|].
    intros E. rewrite E in Hl. simpl in Hl. unfold a' in Hl.
    destruct (struct_at m (length (vectors m))) eqn:E'; [|done].
    apply struct_at_lt in E'. lia. }
  split; [done|]. split; [done|]. split; [|split; [|split; [by apply Hkeep|split]]].
  - eapply well_formed_intro; [exact Hh3|simpl|simpl; lia|simpl; lia|simpl].
    + destruct (well_formed_view _ _ Hwf2) as (s2' & l2' & [Hs2' _] & _ & Hsb2 & _).
      assert (s2' = s2) as -> by congruence. done.
    + rewrite Hd2, Hhb2, Hlen2.
      destruct Hd1 as [(Hda & Hha & Hca & _)|(b & Hda & Hha & Hlb)];
        rewrite Hda, Hha in Hstack1.
      * left. repeat split; try done.
        rewrite (bool_decide_eq_true_2 (Inline a' <> NULL)) in Hstack1 by done.
        by apply bool_decide_eq_true_1 in Hstack1.
      * right. exists b. repeat split; try done; try apply Hrep.
        rewrite (bool_decide_eq_false_2 (Block b <> Block b)) in Hstack1 by tauto.
        apply bool_decide_eq_false_1 in Hstack1. lia.
  - eexists. split; [apply (view_of_holds _ _ _ _ Hh3); simpl; lia|].
    rewrite Hv0. simpl. repeat split.
    unfold l2. rewrite take_app_length'; [done|]. rewrite length_take. lia.
  - by rewrite Hview.
  - intros sa sb Hsa Hsb'. rewrite struct_at_put_struct_ne in Hsa by done.
    assert (sa = s) as -> by congruence.
    erewrite struct_at_put_struct in Hsb' by done. injection Hsb' as <-.
    simpl. congruence.
Qed.

Lemma clone_copies_witness :
  wp (mc_vector_clone (Some 0%nat)) allocated_123 (fun r m' =>
    let a' := length (vectors allocated_123) in
    r = Some a' /\ a' <> 0%nat /\ well_formed m' a'
    /\ (exists v', view_of m' a' = Some v'
          /\ v_count v' = 3 /\ v_capacity v' = 30
          /\ v_elements v' = [Some 1; Some 2; Some 3])
    /\ well_formed m' 0 /\ view_of m' 0 = Some (View 3 30 false [Some 1; Some 2; Some 3])
    /\ (forall s s', struct_at m' 0 = Some s -> struct_at m' a' = Some s' ->
          data s' <> data s)).
Proof.
  apply (clone_copies allocated_123 0 (View 3 30 false [Some 1; Some 2; Some 3])).
  - compute_done.
  - reflexivity.
  - reflexivity.
Defined.

(** X23: [mc_vector_free] on a well-formed vector releases its structure
    and its allocated buffer, if it has one, and nothing else: the other
    structures and arrays are unchanged. Afterwards the vector cannot be
    used: freeing it again, or asking for its size, is undefined. *)
Theorem free_releases (m : memory) (a : nat) (s : vector_s) :
  well_formed m a -> struct_at m a = Some s ->
  wp (mc_vector_free (Some a)) m (fun _ m' =>
    struct_at m' a = None
    /\ array_at m' (heap_buf s) = None
    /\ (forall a', a' <> a -> struct_at m' a' = struct_at m a')
    /\ (forall b, Block b <> heap_buf s -> array_at m' (Block b) = array_at m (Block b))
    /\ errno m' = errno m
    /\ mc_vector_free (Some a) m' = None
    /\ mc_vector_size (Some a) m' = None).
Proof.
  intros Hwf Hs.
  destruct (well_formed_view _ _ Hwf) as (s0 & l & [Hs0 Hl] & _ & _ & _ & _ & _ & _ & Hd).
  assert (s0 = s) as -> by congruence.
  assert (Hdead : forall m', struct_at m' a = None ->
            mc_vector_free (Some a) m' = None /\ mc_vector_size (Some a) m' = None).
  { intros m' Hn. unfold mc_vector_free, mc_vector_size.
    rewrite !bool_decide_eq_false_2 by done.
    unfold mbind, M_bind, field. by rewrite Hn. }
  assert (Hgone : forall m0, struct_at (set_vectors <[a := None]> m0) a = None).
  { intros m0. unfold struct_at. simpl.
    destruct (decide (a < length (vectors m0))%nat).
    - by rewrite list_lookup_insert_eq.
    - by rewrite lookup_ge_None_2 by (rewrite length_insert; lia). }
  assert (Hother : forall m0 a', a' <> a ->
            struct_at (set_vectors <[a := None]> m0) a' = struct_at m0 a').
  { intros m0 a' Ha'. unfold struct_at. simpl. by rewrite list_lookup_insert_ne. }
  unfold mc_vector_free. repeat wp_step.
  destruct Hd as [(Hda & Hha & _)|(b & Hda & Hha & _)]; rewrite Hha.
  - repeat wp_step. wp_apply wp_free_struct; [done|].
    destruct (Hdead _ (Hgone m)) as [? ?].
    repeat split; try done. by apply Hother.
  - rewrite bool_decide_eq_true_2 by done. rewrite Hda in Hl.
    wp_apply wp_free; [done|].
    wp_apply wp_free_struct; [by rewrite struct_at_set_arrays|].
    destruct (Hdead _ (Hgone (set_arrays <[b := None]> m))) as [? ?].
    repeat split; try done.
    + simpl. apply array_at_lt in Hl. by rewrite list_lookup_insert_eq.
    + intros a' Ha'. rewrite Hother by done. by rewrite struct_at_set_arrays.
    + intros b' Hb'. simpl. rewrite list_lookup_insert_ne; [done|congruence].
Qed.

Lemma free_releases_witness :
  wp (mc_vector_free (Some 0%nat)) allocated_123 (fun _ m' =>
    struct_at m' 0 = None
    /\ array_at m' (Block 0) = None
    /\ (forall a', a' <> 0%nat -> struct_at m' a' = struct_at allocated_123 a')
    /\ (forall b, Block b <> Block 0 ->
          array_at m' (Block b) = array_at allocated_123 (Block b))
    /\ errno m' = errno allocated_123
    /\ mc_vector_free (Some 0%nat) m' = None
    /\ mc_vector_size (Some 0%nat) m' = None).
Proof.
  apply (free_releases allocated_123 0
           (Vector_s 3 30 (replicate 10 None) (Block 0) (Block 0))).
  - compute_done.
  - reflexivity.
Defined.

(** ** Copying out a range *)

(** X24: on a well-formed vector, [mc_vector_extract] of a range of live
    elements into an array of the caller, distinct from the active array of
    the vector and long enough, returns the length of the range (as an [int])
    and copies the elements of the range to the start of the array; the rest
    of the array and the vector are unchanged. *)
Theorem extract_copies_range (m : memory) (a : nat) (v : view) (s : vector_s)
    (out : ptr) (buf : list cell) (index len : Z) :
  well_formed m a -> view_of m a = Some v -> struct_at m a = Some s ->
  array_at m out = Some buf -> out <> data s ->
  0 <= index -> 0 < len -> index + len <= v_count v -> len <= Z.of_nat (length buf) ->
  wp (mc_vector_extract (Some a) out index len) m (fun r m' =>
    r = to_int len
    /\ array_at m' out
       = Some (take (Z.to_nat len) (drop (Z.to_nat index) (v_elements v))
               ++ drop (Z.to_nat len) buf)
    /\ view_of m' a = Some v
    /\ errno m' = errno m).
Proof.
  intros Hwf Hv Hs Hout Hne Hi Hlen Hle Hbuf.
  destruct (well_formed_view _ _ Hwf)
    as (s0 & l & Hh & Hv0 & Hsb & Hc & Hcpos & Hcl & Hrep & Hd).
  pose proof Hh as [Hs0 Hl]. assert (s0 = s) as -> by congruence.
  rewrite Hv in Hv0. injection Hv0 as ->. simpl in *.
  pose proof (representable_size _ Hrep).
  eapply wp_mono; [apply (extract_spec m a s l out buf index len); done || lia|].
  intros r m' (-> & (s' & Hh' & [= Hn' Hc' Hhb' Hd']) & Hout' & _ & Herr).
  split; [done|]. split; [|split; [|done]].
  - rewrite Hout'. do 2 f_equal.
    rewrite skipn_firstn_comm, take_take. f_equal. lia.
  - rewrite (view_of_holds _ _ _ _ Hh') by lia. by rewrite Hn', Hc', Hhb', Hd'.
Qed.

Lemma extract_copies_range_witness :
  wp (mc_vector_extract (Some 0%nat) (Block 0) 1 2) inline_123 (fun r m' =>
    r = to_int 2
    /\ array_at m' (Block 0)
       = Some (take (Z.to_nat 2) (drop (Z.to_nat 1) [Some 1; Some 2; Some 3])
               ++ drop (Z.to_nat 2) [None; None; None])
    /\ view_of m' 0 = Some (View 3 10 true [Some 1; Some 2; Some 3])
    /\ errno m' = errno inline_123).
Proof.
  apply (extract_copies_range inline_123 0 (View 3 10 true [Some 1; Some 2; Some 3])
           (Vector_s 3 10 ([Some 1; Some 2; Some 3] ++ replicate 7 None) NULL (Inline 0))).
  - compute_done.
  - reflexivity.
  - reflexivity.
  - reflexivity.
  - done.
  - lia.
  - lia.
  - simpl. lia.
  - simpl. lia.
Defined.

(** X25: the range checks of [mc_vector_extract] and [mc_vector_fill_range]
    add the index and the length in [size_t]. When the sum exceeds
    [SIZE_MAX] it wraps around to a value below the index, the check passes
    and the loop does not run: [mc_vector_extract] returns the length
    converted to [int] and [mc_vector_fill_range] returns 1, although
    nothing was copied or filled and the store is unchanged. *)
Theorem range_check_wraps (m : memory) (a : nat) (s : vector_s)
    (index len x : Z) (out : ptr) :
  struct_at m a = Some s -> out <> NULL ->
  0 <= index < count s -> count s <= SIZE_MAX ->
  0 < len <= SIZE_MAX -> SIZE_MAX < index + len ->
  mc_vector_extract (Some a) out index len m = Some (to_int len, m)
  /\ mc_vector_fill_range (Some a) index len x m = Some (1, m).
Proof.
  intros Hs Hout Hi Hn Hlen Hover.
  assert (Hw : size_wrap (index + len) = index + len - (SIZE_MAX + 1)).
  { unfold size_wrap. symmetry. apply (Z.mod_unique_pos _ _ 1). lia. lia. }
  split; apply wp_exact.
  - unfold mc_vector_extract. repeat wp_step. rewrite Hw.
    unfold for_loop. replace (Z.to_nat _) with 0%nat by lia.
    repeat wp_step. done.
  - unfold mc_vector_fill_range. repeat wp_step. rewrite Hw.
    unfold for_loop. replace (Z.to_nat _) with 0%nat by lia.
    repeat wp_step. done.
Qed.

Lemma range_check_wraps_witness :
  mc_vector_extract (Some 0%nat) (Block 0) 1 SIZE_MAX inline_123
  = Some (to_int SIZE_MAX, inline_123)
  /\ mc_vector_fill_range (Some 0%nat) 1 SIZE_MAX 9 inline_123 = Some (1, inline_123).
Proof.
  eapply (range_check_wraps inline_123 0 _ 1 SIZE_MAX 9 (Block 0));
    [reflexivity|done|simpl; lia|simpl; rewrite SIZE_MAX_eq; lia
    |rewrite SIZE_MAX_eq; lia|lia].
Defined.

(** ** Clearing and shrinking *)

(** X26: [mc_vector_clear] on a well-formed vector returns 1 and leaves it
    empty, well-formed and on its inline buffer. An allocated buffer is
    released and the capacity becomes [MC_VECTOR_BUFSIZE]; a vector that was
    on its inline buffer keeps its capacity. *)
Theorem clear_empties (m : memory) (a : nat) (v : view) (s : vector_s) :
  well_formed m a -> view_of m a = Some v -> struct_at m a = Some s ->
  wp (mc_vector_clear (Some a)) m (fun r m' =>
    r = 1 /\ well_formed m' a
    /\ view_of m' a
       = Some (View 0 (if v_is_stack v then v_capacity v else MC_VECTOR_BUFSIZE) true [])
    /\ array_at m' (heap_buf s) = None
    /\ errno m' = errno m).
Proof.
  intros Hwf Hv Hs.
  destruct (well_formed_view _ _ Hwf)
    as (s0 & l & Hh & Hv0 & Hsb & Hc & Hcpos & Hcl & Hrep & Hd).
  pose proof Hh as [Hs0 Hl]. assert (s0 = s) as -> by congruence.
  rewrite Hv in Hv0. injection Hv0 as ->. simpl.
  unfold mc_vector_clear. repeat wp_step.
  destruct Hd as [(Hda & Hha & Hca & Hls)|(b & Hda & Hha & Hlb)]; rewrite Hda, Hha.
  - repeat wp_step. split; [done|].
    destruct (well_formed_put_count m a s l 0 Hwf Hh) as [Hwf' Hh']; [lia|].
    split; [done|]. split; [|done].
    rewrite (view_of_holds _ _ _ _ Hh') by (simpl; lia). simpl.
    rewrite Hda, Hha. by rewrite !bool_decide_eq_true_2 by done.
  - rewrite bool_decide_eq_true_2 by done. rewrite Hda in Hl.
    repeat wp_step. rewrite Hha.
    wp_apply wp_free; [done|].
    repeat wp_step. rewrite !put_struct_put_struct.
    match goal with |- context [put_struct a ?s1 ?m1] => set (s' := s1); set (m' := m1) end.
    assert (Hs' : struct_at (put_struct a s' m') a = Some s').
    { eapply struct_at_put_struct. unfold m'. by rewrite struct_at_set_arrays. }
    assert (Hh' : holds (put_struct a s' m') a s' (stack_buf s)).
    { split; [done|]. simpl. by rewrite Hs'. }
    split; [done|]. split; [|split; [|split; [|done]]].
    + eapply well_formed_intro;
        [exact Hh'|done|unfold s', MC_VECTOR_BUFSIZE; simpl; lia
        |unfold s', MC_VECTOR_BUFSIZE; simpl; lia|].
      left. unfold s'. simpl. done.
    + rewrite (view_of_holds _ _ _ _ Hh') by (unfold s'; simpl; lia). unfold s'. simpl.
      by rewrite bool_decide_eq_false_2 by tauto.
    + simpl. apply array_at_lt in Hl. by rewrite list_lookup_insert_eq.
Qed.

Lemma clear_empties_witness :
  wp (mc_vector_clear (Some 0%nat)) allocated_123 (fun r m' =>
    r = 1 /\ well_formed m' 0
    /\ view_of m' 0 = Some (View 0 (if false then 30 else MC_VECTOR_BUFSIZE) true [])
    /\ array_at m' (Block 0) = None
    /\ errno m' = errno allocated_123).
Proof.
  apply (clear_empties allocated_123 0 (View 3 30 false [Some 1; Some 2; Some 3])
           (Vector_s 3 30 (replicate 10 None) (Block 0) (Block 0))).
  - compute_done.
  - reflexivity.
  - reflexivity.
Defined.

(** [mc_vector_resize] of a vector with an allocated buffer to a size above
    [MC_VECTOR_BUFSIZE] and not below the count, when the reallocation
    succeeds. *)
Lemma resize_allocated m a s l n :
  well_formed m a -> holds m a s l -> data s = heap_buf s ->
  MC_VECTOR_BUFSIZE < n -> count s <= n -> representable n -> alloc_ok m = true ->
  wp (mc_vector_resize (Some a) n) m (fun r m' =>
    r = 1 /\ well_formed m' a
    /\ view_of m' a = Some (View (count s) n false (take (Z.to_nat (count s)) l))
    /\ errno m' = errno m).
Proof.
  intros Hwf Hh Hdh Hn Hcn Hrep Hok.
  destruct (well_formed_view _ _ Hwf)
    as (s0 & l0 & [Hs0 Hl0] & _ & Hsb & Hc & Hcpos & Hcl & _ & Hd).
  pose proof Hh as [Hs Hl].
  assert (s0 = s) as -> by congruence. assert (l0 = l) as -> by congruence.
  destruct Hd as [(Hda & Hha & _)|(b & Hda & Hha & Hlb)]; [congruence|].
  rewrite Hda in Hl.
  unfold mc_vector_resize. repeat wp_step. rewrite Hha.
  wp_apply wp_realloc_ok; [done|done|].
  repeat wp_step. rewrite !put_struct_put_struct. rewrite cells_of_bytes_of by done.
  match goal with |- context [put_struct a ?s1 ?m1] => set (s' := s1); set (m' := m1) end.
  set (l' := take (Z.to_nat n) l ++ replicate (Z.to_nat n - length l) None).
  assert (Hh' : holds (put_struct a s' m') a s' l').
  { split.
    - eapply struct_at_put_struct. unfold m'.
      by rewrite struct_at_set_arrays, struct_at_next_alloc.
    - unfold s', m'. simpl. by rewrite list_lookup_middle by (by rewrite length_insert). }
  assert (Hlen : Z.of_nat (length l') = n).
  { unfold l'. rewrite length_app, length_take, length_replicate. lia. }
  split; [done|]. split; [|split; [|done]].
  - eapply well_formed_intro; [exact Hh'|done|unfold s'; simpl; lia
                              |unfold s', MC_VECTOR_BUFSIZE in *; simpl; lia|].
    right. eexists. unfold s'. simpl. done.
  - rewrite (view_of_holds _ _ _ _ Hh') by (unfold s'; simpl; lia).
    unfold s'. simpl. rewrite bool_decide_eq_false_2 by tauto. do 2 f_equal.
    unfold l'. rewrite take_app_le by (rewrite length_take; lia).
    rewrite take_take. f_equal. lia.
Qed.

(** X27: [mc_vector_shrink] on a well-formed vector that is not empty, when
    the reallocation it may need succeeds, returns 1 and keeps the count and
    the elements. The capacity becomes the count, or [MC_VECTOR_BUFSIZE] if
    the count is not more, in which case the vector is on its inline buffer
    afterwards; with a count above [MC_VECTOR_BUFSIZE] the vector is full
    afterwards. *)
Theorem shrink_fits (m : memory) (a : nat) (v : view) :
  well_formed m a -> view_of m a = Some v -> 0 < v_count v ->
  v_count v <= MC_VECTOR_BUFSIZE \/ alloc_ok m = true ->
  wp (mc_vector_shrink (Some a)) m (fun r m' =>
    r = 1 /\ well_formed m' a
    /\ view_of m' a
       = Some (View (v_count v) (Z.max (v_count v) MC_VECTOR_BUFSIZE)
                 (bool_decide (v_count v <= MC_VECTOR_BUFSIZE)) (v_elements v))).
Proof.
  intros Hwf Hv Hpos Hroom.
  destruct (well_formed_view _ _ Hwf)
    as (s & l & Hh & Hv0 & Hsb & Hc & Hcpos & Hcl & Hrep & Hd).
  rewrite Hv in Hv0. injection Hv0 as ->. simpl in *.
  pose proof Hh as [Hs Hl].
  unfold mc_vector_shrink. wp_step.
  destruct (decide (count s <= MC_VECTOR_BUFSIZE)) as [Hle|Hgt].
  - rewrite Z.max_r by lia. rewrite bool_decide_eq_true_2 by done.
    destruct Hd as [(Hda & Hha & Hca & Hls)|(b & Hda & Hha & Hlb)].
    + eapply wp_mono; [apply (resize_inline_to_inline m a s (count s)); done || lia|].
      intros r m' (-> & s' & Hh' & [= Hn' Hc' Hhb' Hd'] & _).
      split; [done|]. split.
      * eapply well_formed_intro; [exact Hh'| |lia|unfold MC_VECTOR_BUFSIZE in *; lia|].
        -- destruct Hh' as [Hs' Hl']. rewrite Hd' in Hl'. simpl in Hl'.
           rewrite Hs' in Hl'. simpl in Hl'. congruence.
        -- left. rewrite Hc'. done.
      * rewrite (view_of_holds _ _ _ _ Hh') by (rewrite <- Hls; lia).
        rewrite Hn', Hc', Hhb', Hd', Hls. by rewrite bool_decide_eq_true_2 by done.
    + eapply wp_mono; [apply (resize_heap_to_inline m a s l b (count s)); done || lia|].
      intros r m' (-> & s' & Hh' & [= Hn' Hc' Hhb' Hd'] & _).
      assert (Hlen : length (take (Z.to_nat (count s)) l
                             ++ drop (Z.to_nat (count s)) (stack_buf s))
                     = Z.to_nat MC_VECTOR_BUFSIZE).
      { rewrite length_app, length_take, length_drop. lia. }
      split; [done|]. split.
      * eapply well_formed_intro; [exact Hh'| |lia|unfold MC_VECTOR_BUFSIZE in *; lia|].
        -- destruct Hh' as [Hs' Hl']. rewrite Hd' in Hl'. simpl in Hl'.
           rewrite Hs' in Hl'. simpl in Hl'. injection Hl' as ->. done.
        -- left. rewrite Hc'. done.
      * rewrite (view_of_holds _ _ _ _ Hh') by lia.
        rewrite Hn', Hc', Hhb', Hd'. rewrite bool_decide_eq_true_2 by done.
        do 2 f_equal. rewrite take_app_length'; [done|]. rewrite length_take. lia.
  - rewrite Z.max_l by lia. rewrite bool_decide_eq_false_2 by done.
    destruct Hroom as [?|Hok]; [lia|].
    assert (Hdh : data s = heap_buf s).
    { destruct Hd as [(_ & _ & ? & _)|(b & -> & -> & _)]; [lia|done]. }
    eapply wp_mono.
    { apply (resize_allocated m a s l (count s)); try done; try lia.
      eapply representable_le; [exact Hrep|lia]. }
    intros r m' (-> & Hwf' & Hv' & _). done.
Qed.

Lemma shrink_fits_witness :
  wp (mc_vector_shrink (Some 0%nat)) allocated_12_of_20 (fun r m' =>
    r = 1 /\ well_formed m' 0
    /\ view_of m' 0
       = Some (View 12 (Z.max 12 MC_VECTOR_BUFSIZE)
                 (bool_decide (12 <= MC_VECTOR_BUFSIZE)) (replicate 12 (Some 7)))).
Proof.
  apply (shrink_fits allocated_12_of_20 0 (View 12 20 false (replicate 12 (Some 7)))).
  - compute_done.
  - reflexivity.
  - simpl. lia.
  - right. reflexivity.
Defined.

(** ** Printing *)




(** ** The stores of the examples *)

(** The stores used as examples above are stores the library builds. *)
Lemma example_stores_made :
  mc_vector_make 5 empty_memory = Some (Some 0%nat, inline_empty)
  /\ (v ← mc_vector_make 30; push_list v [1; 2; 3]) empty_memory = Some (1, allocated_123)
  /\ (v ← mc_vector_make 20; push_list v (replicate 12 7)) empty_memory
     = Some (1, allocated_12_of_20)
  /\ (v1 ← mc_vector_make 20; push_list v1 [1; 2; 3];;
      v2 ← mc_vector_make 5; mc_vector_push v2 7) empty_memory
     = Some (1, two_vectors).
Proof. repeat split; vm_compute; reflexivity. Qed.
